(** * Orbyt: the repository graph builder of [src/orbyt/src/extension.ts]

    A shallow embedding of [buildRepoGraph] and of the helpers it is made of.
    The source file holds three revisions of the builder.  The two that
    compute stats are embedded here:

    - the flat builder (lines 1107-1269), in [Module Flat];
    - the builder "with folder encapsulation" (lines 408-602, the same text
      as [src/unnamed/part_001]), in [Module Encapsulated].

    The first revision (lines 50-204) has the loops of the flat builder and
    returns the nodes and edges without stats.

    A build reads its surroundings through [Env]: the workspace tree, the
    verdicts of the ignore rules, the file contents, the output of
    [git log] and what the Babel traversal collects.  The graph is
    graphology's default [Graph], whose documented faults are modelled:
    [addNode] on a present id, [addEdge] on a present ordered pair or with a
    missing endpoint, and an attribute lookup on a missing id all throw.

    Before it scans, a build reads [workspaceFolders[0]] and, when the
    root holds a [.gitignore], the text of that file; neither step is
    inside a [try], and both faults are modelled as well.

    Strings are Rocq [string]s, read as the UTF-8 bytes of the JavaScript
    string: every character the code tests for (the path separator, the
    newline, the regular-expression tokens, [\w]) is ASCII, and any other
    byte is, like any other UTF-16 code unit, a non-word character.  Only
    [charCodeAt] in the colour hash tells the two encodings apart: there
    the bytes are decoded to the UTF-16 code units the hash reads. *)

From Stdlib Require Import String Ascii List Bool Arith Lia ZArith QArith.
From Stdlib Require Import Sorted Permutation.
Import ListNotations.
Open Scope string_scope.
Open Scope nat_scope.

Set Implicit Arguments.

(* ================================================================== *)
(** ** JavaScript string primitives *)

Module JsString.

(** [s.split(sep)] for a one-character separator: always at least one
    segment, the empty string splits into one empty segment. *)
Fixpoint split (sep : ascii) (s : string) : list string :=
  match s with
  | EmptyString => [EmptyString]
  | String c rest =>
      if Ascii.eqb c sep then EmptyString :: split sep rest
      else match split sep rest with
           | seg :: segs => String c seg :: segs
           | [] => [String c EmptyString]
           end
  end.

(** [parts.join(sep)]. *)
Definition join (sep : string) (parts : list string) : string :=
  String.concat sep parts.

(** [s.endsWith(k)]. *)
Definition endsWith (s k : string) : bool :=
  let ls := String.length s in
  let lk := String.length k in
  (lk <=? ls) && String.eqb (substring (ls - lk) lk s) k.

(** [s.startsWith(k)]. *)
Definition startsWith (s k : string) : bool :=
  String.eqb (substring 0 (String.length k) s) k.

(** [s.includes(c)] for a one-character needle. *)
Fixpoint includes (c : ascii) (s : string) : bool :=
  match s with
  | EmptyString => false
  | String d rest => Ascii.eqb d c || includes c rest
  end.

(** ASCII case folding, what the [i] flag of a regular expression without
    the [u] flag amounts to on the patterns of this program. *)
Definition lower (c : ascii) : ascii :=
  let n := nat_of_ascii c in
  if (65 <=? n) && (n <=? 90) then ascii_of_nat (n + 32) else c.

Fixpoint toLowerCase (s : string) : string :=
  match s with
  | EmptyString => EmptyString
  | String c rest => String (lower c) (toLowerCase rest)
  end.

(** Truthiness of a string value that may be [undefined]. *)
Definition truthy (v : option string) : bool :=
  match v with
  | Some s => negb (String.eqb s "")
  | None => false
  end.

(** [a || b] on such values. *)
Definition or_else (a b : option string) : option string :=
  if truthy a then a else b.

End JsString.

Infix "<||>" := JsString.or_else (at level 51, right associativity).

Definition newline : ascii := ascii_of_nat 10.
Definition sep : ascii := "/"%char.

(* ================================================================== *)
(** ** Node's [path] module (POSIX flavour), on paths as the walk makes them *)

Module Path.

(** [path.join(dir, name)] for a normalised [dir] and a single entry
    name. *)
Definition join (dir name : string) : string :=
  if JsString.endsWith dir "/" then dir ++ name else dir ++ "/" ++ name.

(** [path.relative(root, full)] for [full] below [root]. *)
Definition relative (root full : string) : string :=
  if JsString.startsWith full root then
    let rest := substring (String.length root)
                          (String.length full - String.length root) full in
    if JsString.startsWith rest "/"
    then substring 1 (String.length rest - 1) rest
    else rest
  else full.

(** [path.basename(p)]. *)
Definition basename (p : string) : string :=
  last (JsString.split sep p) "".

(** [path.dirname(p)]: ["."] for a path without separator. *)
Definition dirname (p : string) : string :=
  match JsString.split sep p with
  | [] | [_] => "."
  | parts =>
      let d := JsString.join "/" (removelast parts) in
      if String.eqb d "" then "/" else d
  end.

End Path.

(* ================================================================== *)
(** ** Per-file metrics *)

(** [\w] of a regular expression without the [u] flag. *)
Definition is_word_char (c : ascii) : bool :=
  let n := nat_of_ascii c in
  ((48 <=? n) && (n <=? 57)) || ((65 <=? n) && (n <=? 90))
  || ((97 <=? n) && (n <=? 122)) || (n =? 95).

Definition is_word (c : option ascii) : bool :=
  match c with
  | Some a => is_word_char a
  | None => false
  end.

(** [\b] between the character before a position and the one at it. *)
Definition word_boundary (before after : option ascii) : bool :=
  xorb (is_word before) (is_word after).

Definition head_char (s : string) : option ascii :=
  match s with
  | EmptyString => None
  | String c _ => Some c
  end.

(** The alternatives of [/\b(if|for|while|case|catch|&&|\|\|)\b/g], in the
    order the pattern lists them. *)
Definition complexity_tokens : list string :=
  ["if"; "for"; "while"; "case"; "catch"; "&&"; "||"].

(** [Some rest] when [tok] is a prefix of [s], with what follows it. *)
Fixpoint strip_prefix (tok s : string) : option string :=
  match tok, s with
  | EmptyString, _ => Some s
  | String a tok', String b s' =>
      if Ascii.eqb a b then strip_prefix tok' s' else None
  | String _ _, EmptyString => None
  end.

(** One alternative at one position: the token itself, then [\b]. *)
Definition token_matches_here (tok s : string) : bool :=
  match strip_prefix tok s with
  | Some rest =>
      word_boundary
        (head_char (String.string_of_list_ascii
                      (rev (String.list_ascii_of_string tok))))
        (head_char rest)
  | None => false
  end.

(** The whole pattern at one position: [\b], then the first alternative
    that matches; the result is the length of the match. *)
Definition match_here (before : option ascii) (s : string) : option nat :=
  if word_boundary before (head_char s) then
    option_map String.length
      (find (fun tok => token_matches_here tok s) complexity_tokens)
  else None.

(** The scan of the [g] flag: leftmost match first, the search resumes
    where the match ended.  [skip] counts the characters of the current
    match still to be passed over. *)
Fixpoint count_matches (before : option ascii) (skip : nat) (s : string)
  : nat :=
  match s with
  | EmptyString => 0
  | String c rest =>
      match skip with
      | S k => count_matches (Some c) k rest
      | O =>
          match match_here before s with
          | Some n => 1 + count_matches (Some c) (n - 1) rest
          | None => count_matches (Some c) 0 rest
          end
      end
  end.

(** [content.split("\n").length] *)
Definition loc_of (content : string) : nat :=
  List.length (JsString.split newline content).

(** [(content.match(/\b(if|for|while|case|catch|&&|\|\|)\b/g) || []).length + 1] *)
Definition complexity_of (content : string) : nat :=
  count_matches None 0 content + 1.

(** [out.split("\n").filter(Boolean).length] *)
Definition commits_of (out : string) : nat :=
  List.length
    (filter (fun l => negb (String.eqb l ""))
            (JsString.split newline out)).

(* ================================================================== *)
(** ** Faults and the error monad

    The builder is an [async] function: a fault thrown inside it, and not
    caught there, rejects the build.  The faults the embedded code can
    raise outside a [try] are those of the graph store, the [TypeError] of
    reading a property of [undefined], and the error of a file read. *)

Inductive Fault : Type :=
| UsageGraphError      (* adding a node or an edge that already exists *)
| NotFoundGraphError   (* naming a node the graph does not hold *)
| TypeError            (* [workspaceFolders[0].uri] on an empty array *)
| FsError.             (* [fs.readFileSync] outside a [try] *)

Inductive result (A : Type) : Type :=
| Ok (a : A)
| Throw (e : Fault).

Arguments Ok {A} a.
Arguments Throw {A} e.

Definition bind {A B} (r : result A) (k : A -> result B) : result B :=
  match r with
  | Ok a => k a
  | Throw e => Throw e
  end.

Notation "x <- c ;; k" := (bind c (fun x => k))
  (at level 61, c at next level, right associativity).

(** A [for ... of] loop whose body may throw, threading the loop state. *)
Fixpoint for_of {A S} (l : list A) (body : S -> A -> result S) (s : S)
  : result S :=
  match l with
  | [] => Ok s
  | a :: rest => s' <- body s a ;; for_of rest body s'
  end.

(* ================================================================== *)
(** ** The graph store (graphology's default [Graph]: simple, mixed,
       self-loops allowed) *)

(** Presentation hints.  The palette entry is computed; what the source
    then derives from it in floating point is kept symbolic:
    [Faded hex depth] stands for the [rgb(...)] string of [hex] faded by
    [Math.max(0.5, 1 - depth * 0.08)], and [FileSize lo hi base loc] for
    [Math.max(lo, Math.min(hi, base + Math.log10(loc + 1)))]. *)
Inductive Color : Type :=
| Palette (hex : string)
| Faded (hex : string) (depth : nat).

Inductive Size : Type :=
| FileSize (lo hi base loc : nat)
| FolderSize (n : nat).

Record NodeData : Type := mkNode {
  id : string;
  label : string;
  cluster : string;
  path : string;
  loc : nat;
  complexity : nat;
  commits : nat;
  color : Color;
  size : Size;
}.

Record Edge : Type := mkEdge {
  from : string;
  to : string;
  edge_color : string;
  edge_size : Q;      (* [size], or [weight] in the flat builder *)
}.

(** Nodes and edges in insertion order, the order [graph.nodes()] and
    [graph.edges()] iterate in. *)
Record Graph : Type := mkGraph {
  g_nodes : list (string * NodeData);
  g_edges : list Edge;
}.

Module Graphology.

Definition empty : Graph := mkGraph [] [].

Definition nodes (g : Graph) : list string := map fst (g_nodes g).

Definition hasNode (g : Graph) (n : string) : bool :=
  existsb (String.eqb n) (nodes g).

Definition is_edge (a b : string) (e : Edge) : bool :=
  String.eqb (from e) a && String.eqb (to e) b.

Definition hasEdge (g : Graph) (a b : string) : bool :=
  existsb (is_edge a b) (g_edges g).

(** [graph.addNode(n, attrs)]: a fault when [n] is already a node. *)
Definition addNode (g : Graph) (n : string) (attrs : NodeData)
  : result Graph :=
  if hasNode g n then Throw UsageGraphError
  else Ok (mkGraph (g_nodes g ++ [(n, attrs)]) (g_edges g)).

(** [graph.addEdge(a, b, attrs)]: a fault when an endpoint is missing, and
    a fault when the graph already holds an edge from [a] to [b]. *)
Definition addEdge (g : Graph) (a b : string) (c : string) (w : Q)
  : result Graph :=
  if negb (hasNode g a) || negb (hasNode g b) then Throw NotFoundGraphError
  else if hasEdge g a b then Throw UsageGraphError
  else Ok (mkGraph (g_nodes g) (g_edges g ++ [mkEdge a b c w])).

(** [graph.getNodeAttributes(n)]: a fault when [n] is not a node. *)
Definition getNodeAttributes (g : Graph) (n : string) : result NodeData :=
  match find (fun kv => String.eqb n (fst kv)) (g_nodes g) with
  | Some kv => Ok (snd kv)
  | None => Throw NotFoundGraphError
  end.

(** [graph.getNodeAttribute(n, name)], by the projection [name]. *)
Definition getNodeAttribute {A} (g : Graph) (n : string)
           (name : NodeData -> A) : result A :=
  attrs <- getNodeAttributes g n ;; Ok (name attrs).

End Graphology.

(* ================================================================== *)
(** ** The basename index (a JavaScript [Map]: insertion order, [set] on a
       present key overwrites in place) *)

Definition Index : Type := list (string * string).

Fixpoint index_set (k v : string) (idx : Index) : Index :=
  match idx with
  | [] => [(k, v)]
  | (k', v') :: rest =>
      if String.eqb k' k then (k, v) :: rest
      else (k', v') :: index_set k v rest
  end.

Fixpoint index_get (idx : Index) (k : string) : option string :=
  match idx with
  | [] => None
  | (k', v') :: rest => if String.eqb k' k then Some v' else index_get rest k
  end.

(** The resolution of one raw specifier:
[[
      fileIndex.get(dep) ||
      fileIndex.get(dep + ".js") ||
      fileIndex.get(dep + ".ts") ||
      Array.from(fileIndex.entries()).find(([k]) => dep.endsWith(k))?.[1]
]] *)
Definition resolve (fileIndex : Index) (dep : string) : option string :=
  index_get fileIndex dep
  <||> index_get fileIndex (dep ++ ".js")
  <||> index_get fileIndex (dep ++ ".ts")
  <||> option_map snd
         (find (fun kv => JsString.endsWith dep (fst kv)) fileIndex).

(* ================================================================== *)
(** ** The environment of one build *)

(** A directory entry as [readdirSync(dir, { withFileTypes: true })] lists
    it; the listing of a directory is [None] when reading it throws. *)
#[warnings="-register-all"]
Inductive Dirent : Type :=
| FileEnt (name : string)
| DirEnt (name : string) (entries : option (list Dirent)).

Record Env : Type := mkEnv {
  (** [vscode.workspace.workspaceFolders]: [None] for [undefined],
      otherwise the array of the open folders, each with its [uri.fsPath]
      and the listing of that directory *)
  workspaceFolders : option (list (string * option (list Dirent)));
  (** [fs.existsSync(path)] *)
  existsSync : string -> bool;
  (** [ig.ignores(rel)], with the root's [.gitignore] loaded when present *)
  ignores : string -> bool;
  (** [fs.readFileSync(file, "utf8")], [None] when it throws *)
  readFileSync : string -> option string;
  (** the output of [git log --oneline -- file], [None] when it throws *)
  gitLog : string -> option string;
  (** the specifiers the Babel traversal pushes, in order, for a content;
      [None] when the parse throws *)
  babelImports : string -> option (list string);
}.

(** [workspaceFolders[0]], when the array is there and not empty. *)
Definition first_folder (env : Env)
  : option (string * option (list Dirent)) :=
  match workspaceFolders env with
  | None => None
  | Some folders => hd_error folders
  end.

(** The load of the root's [.gitignore]:
[[
      if (fs.existsSync(gitignorePath)) {
        ig.add(fs.readFileSync(gitignorePath, "utf8"));
      }
]]
    [false] when the file exists and reading it throws. *)
Definition gitignore_loads (env : Env) (root : string) : bool :=
  let gitignorePath := Path.join root ".gitignore" in
  if existsSync env gitignorePath then
    match readFileSync env gitignorePath with
    | Some _ => true
    | None => false
    end
  else true.

Definition exts : list string :=
  ["js"; "ts"; "jsx"; "tsx"; "py"; "java"; "cpp"; "c"; "cs"; "php"; "rb";
   "go"; "rs"; "html"; "css"; "json"; "sh"; "yml"; "yaml"].

Definition parseable_exts : list string := ["js"; "ts"; "jsx"; "tsx"].

(** [/\.(e1|e2|...)$/i.test(name)] *)
Definition ext_test (es : list string) (name : string) : bool :=
  existsb (fun e => JsString.endsWith (JsString.toLowerCase name) ("." ++ e))
          es.

Definition pruned_dirs : list string :=
  ["node_modules"; ".git"; "dist"; "out"; ".next"; "build"].

Section Walk.

Variable env : Env.
Variable root : string.

(** One iteration of the loop of [walk(dir)] over [entry], with the
    recursive call for a directory; [files] is the shared accumulator. *)
Fixpoint walk_entry (dir : string) (entry : Dirent) (files : list string)
  : list string :=
  match entry with
  | FileEnt name =>
      let full := Path.join dir name in
      let rel := Path.relative root full in
      if ignores env rel then files
      else if ext_test exts name then files ++ [full]
      else files
  | DirEnt name listing =>
      let full := Path.join dir name in
      let rel := Path.relative root full in
      if ignores env rel then files
      else if existsb (String.eqb name) pruned_dirs then files
      else
        match listing with
        | None => files
        | Some entries =>
            (fix loop (es : list Dirent) (acc : list string) :=
               match es with
               | [] => acc
               | e :: es' => loop es' (walk_entry full e acc)
               end) entries files
        end
  end.

Definition walk (dir : string) (listing : option (list Dirent))
           (files : list string) : list string :=
  match listing with
  | None => files
  | Some entries => fold_left (fun acc e => walk_entry dir e acc) entries files
  end.

End Walk.

(** The churn of one file. *)
Definition commits_for (env : Env) (file : string) : nat :=
  match gitLog env file with
  | Some out => commits_of out
  | None => 0
  end.

(** The import list of one file: empty outside the parseable extensions and
    when the parse throws. *)
Definition imports_of (env : Env) (file content : string) : list string :=
  if ext_test parseable_exts file then
    match babelImports env content with
    | Some deps => deps
    | None => []
    end
  else [].

(** The 32-bit wrap-around of the shift in
    [hash = cluster.charCodeAt(i) + ((hash << 5) - hash)]. *)
Definition to_int32 (z : Z) : Z :=
  let m := (z mod 2 ^ 32)%Z in
  if (m <? 2 ^ 31)%Z then m else (m - 2 ^ 32)%Z.

(** The UTF-16 code units of a string given by its UTF-8 bytes: what
    [cluster.charCodeAt(i)] reads for [i] from 0 to [cluster.length - 1].
    A code point above U+FFFF makes a surrogate pair; a byte that starts no
    sequence of UTF-8 (no JavaScript string encodes to it) reads as
    U+FFFD. *)
Definition byte_of (c : ascii) : Z := Z.of_nat (nat_of_ascii c).

Definition is_continuation (b : Z) : bool :=
  ((128 <=? b) && (b <? 192))%Z.

Definition two_bytes (b0 b1 : Z) : bool :=
  ((192 <=? b0) && (b0 <? 224))%Z && is_continuation b1.

Definition three_bytes (b0 b1 b2 : Z) : bool :=
  ((224 <=? b0) && (b0 <? 240))%Z && is_continuation b1
  && is_continuation b2.

Definition four_bytes (b0 b1 b2 b3 : Z) : bool :=
  ((240 <=? b0) && (b0 <? 248))%Z && is_continuation b1
  && is_continuation b2 && is_continuation b3.

Definition high_surrogate (cp : Z) : Z :=
  (55296 + ((cp - 65536) / 1024) mod 1024)%Z.

Definition low_surrogate (cp : Z) : Z :=
  (56320 + cp mod 1024)%Z.

Fixpoint utf16_units (s : string) : list Z :=
  match s with
  | EmptyString => []
  | String c0 r0 =>
      let b0 := byte_of c0 in
      if (b0 <? 128)%Z then b0 :: utf16_units r0
      else
        match r0 with
        | EmptyString => [65533%Z]
        | String c1 r1 =>
            let b1 := byte_of c1 in
            if two_bytes b0 b1 then
              ((b0 - 192) * 64 + (b1 - 128))%Z :: utf16_units r1
            else
              match r1 with
              | EmptyString => 65533%Z :: utf16_units r0
              | String c2 r2 =>
                  let b2 := byte_of c2 in
                  if three_bytes b0 b1 b2 then
                    ((b0 - 224) * 4096 + (b1 - 128) * 64 + (b2 - 128))%Z
                    :: utf16_units r2
                  else
                    match r2 with
                    | EmptyString => 65533%Z :: utf16_units r0
                    | String c3 r3 =>
                        let b3 := byte_of c3 in
                        if four_bytes b0 b1 b2 b3 then
                          let cp :=
                            ((b0 - 240) * 262144 + (b1 - 128) * 4096
                             + (b2 - 128) * 64 + (b3 - 128))%Z in
                          high_surrogate cp :: low_surrogate cp
                          :: utf16_units r3
                        else 65533%Z :: utf16_units r0
                    end
              end
        end
  end.

Definition hash_step (hash : Z) (unit : Z) : Z :=
  (unit + (to_int32 (Z.shiftl (to_int32 hash) 5) - hash))%Z.

Definition cluster_hash (cluster : string) : Z :=
  fold_left hash_step (utf16_units cluster) 0%Z.

(** [palette[Math.abs(hash) % palette.length]] *)
Definition pick (palette : list string) (cluster : string) : string :=
  nth (Z.to_nat (Z.abs (cluster_hash cluster)
                 mod Z.of_nat (List.length palette)))
      palette "".

(** The payload handed to the renderer. *)
Record Stats : Type := mkStats {
  avgComplexity : Q;                  (* before [toFixed(2)] *)
  mostEdited : list (string * nat);   (* [{ file, commits }] *)
  totalFiles : nat;
  clusters : nat;
}.

Record RepoGraph : Type := mkRepoGraph {
  nodes : list NodeData;
  edges : list (string * string);
  stats : option Stats;               (* [None] is the empty object *)
}.

(** [graph.nodes().map(id => ({ id, ...graph.getNodeAttributes(id) }))]:
    the ids are those the graph iterates over, so the lookup cannot fail. *)
Definition nodes_payload (g : Graph) : list NodeData :=
  map (fun kv => mkNode (fst kv) (label (snd kv)) (cluster (snd kv))
                        (path (snd kv)) (loc (snd kv)) (complexity (snd kv))
                        (commits (snd kv)) (color (snd kv)) (size (snd kv)))
      (g_nodes g).

Definition edges_payload (g : Graph) : list (string * string) :=
  map (fun e => (from e, to e)) (g_edges g).

(** [files.reduce((acc, f) => acc + (graph.getNodeAttribute(f, "complexity") || 0), 0)] *)
Definition sum_complexity (g : Graph) (files : list string) : result nat :=
  for_of files
    (fun acc f =>
       c <- Graphology.getNodeAttribute g f complexity ;; Ok (acc + c))
    0.

Definition average (total count : nat) : Q :=
  if count =? 0 then 0%Q
  else (Z.of_nat total # Pos.of_nat count)%Q.

(** [Array.prototype.sort] with the comparator
    [(a, b) => commits(b) - commits(a)]: a stable sort, churn descending. *)
Fixpoint insert_by_commits (x : string * NodeData)
         (sorted : list (string * NodeData)) : list (string * NodeData) :=
  match sorted with
  | [] => [x]
  | y :: rest =>
      if commits (snd y) <=? commits (snd x) then x :: y :: rest
      else y :: insert_by_commits x rest
  end.

Definition sort_by_commits (l : list (string * NodeData))
  : list (string * NodeData) :=
  fold_right insert_by_commits [] l.

Definition edited_entry (kv : string * NodeData) : string * nat :=
  (label (snd kv), commits (snd kv)).

(** [[...new Set(nodes.map(n => n.cluster))].length] *)
Definition count_clusters (ns : list NodeData) : nat :=
  List.length (nodup string_dec (map cluster ns)).

(* ================================================================== *)
(** ** The flat builder (extension.ts, lines 1107-1269) *)

Module Flat.

Definition palette : list string :=
  ["#66ccff"; "#ff9966"; "#cc99ff"; "#99ff99"; "#ffcc66";
   "#ff6699"; "#66ffcc"; "#aaaaaa"; "#ff6666"; "#66ff66"].

Definition clusterColor (cluster : string) : Color :=
  Palette (pick palette cluster).

(** [rel.includes(path.sep) ? rel.split(path.sep)[0] : "(root)"] *)
Definition cluster_of (rel : string) : string :=
  if JsString.includes sep rel
  then hd "" (JsString.split sep rel)
  else "(root)".

(** The first pass: [fileIndex.set(path.basename(f), f)] for every file. *)
Definition build_index (files : list string) : Index :=
  fold_left (fun idx f => index_set (Path.basename f) f idx) files [].

(** The body of [for (const dep of imports)]. *)
Definition add_import (fileIndex : Index) (file : string)
           (graph : Graph) (dep : string) : result Graph :=
  match resolve fileIndex dep with
  | Some depFile =>
      if JsString.truthy (Some depFile)
         && Graphology.hasNode graph depFile
         && negb (Graphology.hasEdge graph file depFile)
      then Graphology.addEdge graph file depFile "#ccc" 1
      else Ok graph
  | None => Ok graph
  end.

(** The attributes of the node of [file], read as [content]. *)
Definition file_node (env : Env) (root file content : string) : NodeData :=
  let loc := loc_of content in
  let complexity := complexity_of content in
  let commits := commits_for env file in
  let rel := Path.relative root file in
  let cluster := cluster_of rel in
  mkNode file (Path.basename file) cluster file loc complexity commits
         (clusterColor cluster) (FileSize 4 14 5 loc).

(** The body of [for (const file of files)]. *)
Definition add_file (env : Env) (root : string) (fileIndex : Index)
           (graph : Graph) (file : string) : result Graph :=
  match readFileSync env file with
  | None => Ok graph                                      (* [continue] *)
  | Some content =>
      let imports := imports_of env file content in
      graph1 <-
        (if negb (Graphology.hasNode graph file) then
           Graphology.addNode graph file (file_node env root file content)
         else Ok graph) ;;
      for_of imports (add_import fileIndex file) graph1
  end.

Definition mostEdited_of (graph : Graph) : list (string * nat) :=
  map edited_entry (firstn 5 (sort_by_commits (g_nodes graph))).

Definition build_stats (graph : Graph) (files : list string)
  : result Stats :=
  avg <-
    (if 0 <? List.length files then
       total <- sum_complexity graph files ;;
       Ok (average total (List.length files))
     else Ok 0%Q) ;;
  Ok (mkStats avg (mostEdited_of graph) (List.length files)
              (count_clusters (nodes_payload graph))).

Definition scan (env : Env) (root : string)
           (listing : option (list Dirent)) : list string :=
  walk env root root listing [].

Definition build_graph (env : Env) (root : string) (files : list string)
  : result Graph :=
  for_of files (add_file env root (build_index files)) Graphology.empty.

Definition buildRepoGraph (env : Env) : result RepoGraph :=
  match workspaceFolders env with
  | None => Ok (mkRepoGraph [] [] None)
  | Some folders =>
      match hd_error folders with
      | None => Throw TypeError             (* [workspaceFolders[0].uri] *)
      | Some (root, listing) =>
          if gitignore_loads env root then
            let files := scan env root listing in
            graph <- build_graph env root files ;;
            st <- build_stats graph files ;;
            Ok (mkRepoGraph (nodes_payload graph) (edges_payload graph)
                            (Some st))
          else Throw FsError                (* [fs.readFileSync] *)
      end
  end.

End Flat.

(* ================================================================== *)
(** ** The builder with folder encapsulation (extension.ts, lines 408-602) *)

Module Encapsulated.

Definition base : list string :=
  ["#4ea1ff"; "#ff9966"; "#cc99ff"; "#99ff99"; "#ffcc66";
   "#ff6699"; "#66ffcc"; "#aaaaaa"; "#ff6666"; "#66ff66"].

Definition clusterColor (cluster : string) (depth : nat) : Color :=
  Faded (pick base cluster) depth.

(** A JavaScript [Set] of strings: insertion order, no repetition. *)
Definition set_add (x : string) (s : list string) : list string :=
  if existsb (String.eqb x) s then s else s ++ [x].

(** [parts.slice(0, i + 1).join(path.sep)] for [i < parts.length - 1] *)
Definition ancestors (rel : string) : list string :=
  let parts := JsString.split sep rel in
  map (fun i => JsString.join "/" (firstn (i + 1) parts))
      (seq 0 (List.length parts - 1)).

Definition collect_folders (root : string) (files : list string)
  : list string :=
  fold_left
    (fun folderSet f =>
       fold_left (fun acc d => set_add d acc)
                 (ancestors (Path.relative root f)) folderSet)
    files [].

Definition depth_of (folder : string) : nat :=
  List.length (JsString.split sep folder).

(** The attributes of a folder node. *)
Definition folder_node (root folder : string) : NodeData :=
  let depth := depth_of folder in
  let color := clusterColor folder depth in
  mkNode folder ("📁 " ++ Path.basename folder) folder
         (Path.join root folder) 0 0 0 color
         (FolderSize (12 + Nat.max 0 (3 - depth) * 2)).

(** The body of the loop that creates the folder nodes. *)
Definition add_folder (root : string) (graph : Graph) (folder : string)
  : result Graph :=
  if negb (Graphology.hasNode graph folder) then
    Graphology.addNode graph folder (folder_node root folder)
  else Ok graph.

(** The body of the loop that links each folder to its parent. *)
Definition add_parent_edge (graph : Graph) (folder : string)
  : result Graph :=
  let parent := Path.dirname folder in
  if negb (String.eqb parent "") && negb (String.eqb parent ".")
     && Graphology.hasNode graph parent
  then Graphology.addEdge graph parent folder
                          "rgba(255,255,255,0.15)" (6 # 10)
  else Ok graph.

(** [path.dirname(rel) || "(root)"] *)
Definition folder_of (root file : string) : string :=
  let d := Path.dirname (Path.relative root file) in
  if String.eqb d "" then "(root)" else d.

Definition content_of (env : Env) (file : string) : string :=
  match readFileSync env file with
  | Some content => content
  | None => ""                                  (* [catch {}] *)
  end.

(** The attributes of the node of the file [f]. *)
Definition file_node (env : Env) (root f : string) : NodeData :=
  let content := content_of env f in
  let loc := loc_of content in
  let complexity := complexity_of content in
  let commits := commits_for env f in
  let folder := folder_of root f in
  let color := clusterColor folder (depth_of folder + 1) in
  mkNode f (Path.basename f) folder f loc complexity commits
         color (FileSize 4 14 5 loc).

(** The body of the loop that adds the file nodes; the loop state is the
    graph and the basename index. *)
Definition add_file (env : Env) (root : string)
           (st : Graph * Index) (f : string) : result (Graph * Index) :=
  let fileIndex := index_set (Path.basename f) f (snd st) in
  let folder := folder_of root f in
  graph1 <- Graphology.addNode (fst st) f (file_node env root f) ;;
  graph2 <-
    (if Graphology.hasNode graph1 folder then
       Graphology.addEdge graph1 folder f "rgba(255,255,255,0.2)" (7 # 10)
     else Ok graph1) ;;
  Ok (graph2, fileIndex).

(** The body of [for (const dep of imports)]. *)
Definition add_import (root : string) (fileIndex : Index)
           (file fromFolder : string) (graph : Graph) (dep : string)
  : result Graph :=
  match resolve fileIndex dep with
  | Some depFile =>
      if JsString.truthy (Some depFile) && Graphology.hasNode graph depFile
      then
        let toFolder := folder_of root depFile in
        let intra := String.eqb fromFolder toFolder in
        let color := if intra then "rgba(255,255,255,0.08)"
                     else "rgba(78,161,255,0.45)" in
        let width := if intra then (5 # 10)%Q else (14 # 10)%Q in
        graph1 <- Graphology.addEdge graph file depFile color width ;;
        if negb intra && Graphology.hasNode graph1 fromFolder
           && Graphology.hasNode graph1 toFolder
        then Graphology.addEdge graph1 fromFolder toFolder
                                "rgba(78,161,255,0.6)" (22 # 10)
        else Ok graph1
      else Ok graph
  | None => Ok graph
  end.

(** The body of the loop that parses the imports of each file. *)
Definition link_file (env : Env) (root : string) (fileIndex : Index)
           (graph : Graph) (file : string) : result Graph :=
  let content := content_of env file in
  let imports := imports_of env file content in
  let fromFolder := folder_of root file in
  for_of imports (add_import root fileIndex file fromFolder) graph.

Definition mostEdited_of (graph : Graph) : list (string * nat) :=
  map edited_entry
      (firstn 5
         (sort_by_commits
            (filter (fun kv => 0 <? commits (snd kv)) (g_nodes graph)))).

Definition build_stats (graph : Graph) (files : list string)
  : result Stats :=
  avg <-
    (if 0 <? List.length files then
       total <- sum_complexity graph files ;;
       Ok (average total (List.length files))
     else Ok 0%Q) ;;
  Ok (mkStats avg (mostEdited_of graph) (List.length files)
              (count_clusters (nodes_payload graph))).

Definition scan (env : Env) (root : string)
           (listing : option (list Dirent)) : list string :=
  walk env root root listing [].

Definition build_graph (env : Env) (root : string) (files : list string)
  : result Graph :=
  let folderSet := collect_folders root files in
  graph1 <- for_of folderSet (add_folder root) Graphology.empty ;;
  graph2 <- for_of folderSet add_parent_edge graph1 ;;
  st <- for_of files (add_file env root) (graph2, []) ;;
  for_of files (link_file env root (snd st)) (fst st).

Definition buildRepoGraph (env : Env) : result RepoGraph :=
  match workspaceFolders env with
  | None => Ok (mkRepoGraph [] [] None)
  | Some folders =>
      match hd_error folders with
      | None => Throw TypeError             (* [workspaceFolders[0].uri] *)
      | Some (root, listing) =>
          if gitignore_loads env root then
            let files := scan env root listing in
            graph <- build_graph env root files ;;
            st <- build_stats graph files ;;
            Ok (mkRepoGraph (nodes_payload graph) (edges_payload graph)
                            (Some st))
          else Throw FsError                (* [fs.readFileSync] *)
      end
  end.

End Encapsulated.

(* ================================================================== *)
(** ** Concrete builds *)

Module Examples.

Definition nl : string := String newline "".
Definition dq : string := String (ascii_of_nat 34) "".

Fixpoint lookup {A} (tbl : list (string * A)) (k : string) : option A :=
  match tbl with
  | [] => None
  | (k', v) :: rest => if String.eqb k' k then Some v else lookup rest k
  end.

(** A workspace rooted at [/repo], the only folder open: its listing, the
    readable files with their content, the [git log] output per file (a
    file not listed is outside version control: the command fails), and
    what the Babel traversal yields per content (nothing for a content not
    listed).  The paths of [present] exist; nothing is ignored. *)
Definition workspace_with (present : list string) (listing : list Dirent)
           (contents : list (string * string))
           (logs : list (string * string))
           (parsed : list (string * list string)) : Env :=
  mkEnv (Some [("/repo", Some listing)])
        (fun p => existsb (String.eqb p) present)
        (fun _ => false)
        (lookup contents)
        (lookup logs)
        (fun content =>
           match lookup parsed content with
           | Some deps => Some deps
           | None => Some []
           end).

(** The same, a root without a [.gitignore]. *)
Definition workspace : list Dirent -> list (string * string) ->
                       list (string * string) ->
                       list (string * list string) -> Env :=
  workspace_with [].

(** No workspace is open: [workspaceFolders] is [undefined]. *)
Definition no_workspace : Env :=
  mkEnv None (fun _ => false) (fun _ => false) (fun _ => None)
        (fun _ => None) (fun _ => Some []).

(** [workspaceFolders] is an empty array. *)
Definition no_folder : Env :=
  mkEnv (Some []) (fun _ => false) (fun _ => false) (fun _ => None)
        (fun _ => None) (fun _ => Some []).

Definition import_line (spec : string) : string :=
  "import " ++ dq ++ spec ++ dq ++ ";" ++ nl.

(** [a.ts] imports ["./b"] and ["left-pad"]; [b.ts] imports nothing. *)
Definition a_ts : string := import_line "./b" ++ import_line "left-pad".
Definition b_ts : string := "export const b = 1;" ++ nl.

Definition scenario : Env :=
  workspace [FileEnt "a.ts"; FileEnt "b.ts"]
            [("/repo/a.ts", a_ts); ("/repo/b.ts", b_ts)]
            []
            [(a_ts, ["./b"; "left-pad"])].

(** [a.js] imports ["./b.js"] twice (two bindings from one module). *)
Definition a_js : string := import_line "./b.js" ++ import_line "./b.js".

Definition twice : Env :=
  workspace [FileEnt "a.js"; FileEnt "b.js"]
            [("/repo/a.js", a_js); ("/repo/b.js", b_ts)]
            []
            [(a_js, ["./b.js"; "./b.js"])].

(** [src/x.js] and [src/z.js] both import [lib/y.js]: two file-level
    imports cross the folder pair (src, lib). *)
Definition x_js : string := import_line "../lib/y.js".
Definition z_js : string := import_line "../lib/y.js" ++ nl.

Definition crossing : Env :=
  workspace [DirEnt "lib" (Some [FileEnt "y.js"]);
             DirEnt "src" (Some [FileEnt "x.js"; FileEnt "z.js"])]
            [("/repo/lib/y.js", b_ts); ("/repo/src/x.js", x_js);
             ("/repo/src/z.js", z_js)]
            []
            [(x_js, ["../lib/y.js"]); (z_js, ["../lib/y.js"])].

(** [b.ts] is listed but cannot be read. *)
Definition unreadable : Env :=
  workspace [FileEnt "a.ts"; FileEnt "b.ts"]
            [("/repo/a.ts", b_ts)]
            []
            [].

(** One file, outside version control. *)
Definition unversioned : Env :=
  workspace [FileEnt "a.ts"] [("/repo/a.ts", b_ts)] [] [].

(** A root without any file of the allowlist. *)
Definition no_sources : Env :=
  workspace [FileEnt "README.md"; DirEnt "node_modules" (Some [FileEnt "x.js"])]
            [] [] [].

(** Three files with a history: two commits, three commits, two commits. *)
Definition versioned : Env :=
  workspace [FileEnt "a.ts"; FileEnt "b.ts"; FileEnt "c.ts";
             DirEnt "docs" (Some [FileEnt "d.ts"])]
            [("/repo/a.ts", b_ts); ("/repo/b.ts", b_ts);
             ("/repo/c.ts", b_ts); ("/repo/docs/d.ts", b_ts)]
            [("/repo/a.ts", "1a one" ++ nl ++ "2b two" ++ nl);
             ("/repo/b.ts", "1a one" ++ nl ++ "2b two" ++ nl ++ "3c three" ++ nl);
             ("/repo/c.ts", "4d four" ++ nl ++ "5e five" ++ nl);
             ("/repo/docs/d.ts", "")]
            [].







(** The root holds a [.gitignore] that cannot be read (a directory of that
    name, or a file without read permission). *)
Definition unreadable_gitignore : Env :=
  workspace_with ["/repo/.gitignore"]
                 [FileEnt ".gitignore"; FileEnt "a.ts"]
                 [("/repo/a.ts", b_ts)] [] [].

(** The root holds a readable [.gitignore]. *)
Definition with_gitignore : Env :=
  workspace_with ["/repo/.gitignore"]
                 [FileEnt ".gitignore"; FileEnt "a.ts"]
                 [("/repo/a.ts", b_ts); ("/repo/.gitignore", "dist" ++ nl)]
                 [] [].

(** Two lines, each ended by a newline. *)
Definition two_lines : string := "a" ++ nl ++ "b" ++ nl.

(** The index of a scan that found [x.tsx] only. *)
Definition tsx_only : Index := Flat.build_index ["/repo/x.tsx"].

End Examples.

(* ================================================================== *)
(** ** The claims in the spec's words, where they differ from the code *)

(** The number of newline characters of a content. *)
Fixpoint count_newlines (s : string) : nat :=
  match s with
  | EmptyString => 0
  | String c rest =>
      (if Ascii.eqb c newline then 1 else 0) + count_newlines rest
  end.

Definition ends_with_newline (s : string) : bool :=
  JsString.endsWith s (String newline "").

(** The occurrences of the short-circuit operators [&&] and [||] in a
    text, left to right and without overlap, whatever surrounds them. *)
Definition is_operator (a b : ascii) : bool :=
  (Ascii.eqb a "&" && Ascii.eqb b "&") || (Ascii.eqb a "|" && Ascii.eqb b "|").

Fixpoint count_operators (s : string) : nat :=
  match s with
  | EmptyString => 0
  | String a tl =>
      match tl with
      | EmptyString => 0
      | String b rest =>
          if is_operator a b then 1 + count_operators rest
          else count_operators tl
      end
  end.

(** The line count as the spec words it: the last segment counts when it
    lacks a final newline, and a final newline adds no segment. *)
Definition loc_as_claimed (content : string) : nat :=
  if ends_with_newline content then count_newlines content
  else count_newlines content + 1.

(** The resolution as the spec words it: every parseable extension is
    tried between the exact lookup and the suffix search. *)
Definition resolve_as_claimed (fileIndex : Index) (dep : string)
  : option string :=
  index_get fileIndex dep
  <||> index_get fileIndex (dep ++ ".js")
  <||> index_get fileIndex (dep ++ ".ts")
  <||> index_get fileIndex (dep ++ ".jsx")
  <||> index_get fileIndex (dep ++ ".tsx")
  <||> option_map snd
         (find (fun kv => JsString.endsWith dep (fst kv)) fileIndex).

(** The order of the resolution steps, as a relation: each step is taken
    only when every step before it missed. *)
Inductive first_hit (fileIndex : Index) (dep : string)
  : option string -> Prop :=
| hit_exact p :
    index_get fileIndex dep = Some p ->
    first_hit fileIndex dep (Some p)
| hit_js p :
    index_get fileIndex dep = None ->
    index_get fileIndex (dep ++ ".js") = Some p ->
    first_hit fileIndex dep (Some p)
| hit_ts p :
    index_get fileIndex dep = None ->
    index_get fileIndex (dep ++ ".js") = None ->
    index_get fileIndex (dep ++ ".ts") = Some p ->
    first_hit fileIndex dep (Some p)
| hit_suffix k p :
    index_get fileIndex dep = None ->
    index_get fileIndex (dep ++ ".js") = None ->
    index_get fileIndex (dep ++ ".ts") = None ->
    find (fun kv => JsString.endsWith dep (fst kv)) fileIndex = Some (k, p) ->
    first_hit fileIndex dep (Some p)
| miss :
    index_get fileIndex dep = None ->
    index_get fileIndex (dep ++ ".js") = None ->
    index_get fileIndex (dep ++ ".ts") = None ->
    find (fun kv => JsString.endsWith dep (fst kv)) fileIndex = None ->
    first_hit fileIndex dep None.

(** Every path of the index is a non-empty string, as the paths the walk
    joins are. *)
Definition index_truthy (fileIndex : Index) : Prop :=
  Forall (fun kv => snd kv <> "") fileIndex.


(** A build with nothing to scan: [workspaceFolders] is undefined, or the
    first folder is a root whose [.gitignore] is absent or readable and
    whose walk collects no file. *)
Definition nothing_to_scan (env : Env) : Prop :=
  match workspaceFolders env with
  | None => True
  | Some folders =>
      match hd_error folders with
      | None => False
      | Some (root, listing) =>
          gitignore_loads env root = true
          /\ walk env root root listing [] = []
      end
  end.

(** What the code returns as [stats] when there is nothing to scan: the
    empty object without a workspace, zeroed stats for an empty scan. *)
Definition stats_when_empty (env : Env) : option Stats :=
  match workspaceFolders env with
  | None => None
  | Some _ => Some (mkStats 0 [] 0 0)
  end.

(** The files a build scans: what the walk of the first folder collects. *)
Definition scanned (env : Env) : list string :=
  match first_folder env with
  | Some (root, listing) => walk env root root listing []
  | None => []
  end.



(** The graph holds each node id once and each ordered pair once. *)
Definition well_formed (g : Graph) : Prop :=
  NoDup (Graphology.nodes g) /\ NoDup (edges_payload g).

(** The complexity the payload records for a node id (0 when absent). *)
Definition complexity_in (ns : list NodeData) (f : string) : nat :=
  match find (fun n => String.eqb f (id n)) ns with
  | Some n => complexity n
  | None => 0
  end.

(** Churn descending along a list of node entries. *)
Definition churn_descending (l : list (string * NodeData)) : Prop :=
  StronglySorted (fun x y => commits (snd y) <= commits (snd x)) l.

(** The entries of a given churn, in the order the list has them. *)
Definition with_churn (c : nat) (l : list (string * NodeData))
  : list (string * NodeData) :=
  filter (fun kv => commits (snd kv) =? c) l.

(** What the flat builder keeps true of its graph: every node is the node
    of a file that could be read, with the attributes computed from what
    was read. *)
Definition flat_node_ok (env : Env) (root : string)
           (kv : string * NodeData) : Prop :=
  exists content,
    readFileSync env (fst kv) = Some content
    /\ snd kv = Flat.file_node env root (fst kv) content.

Definition flat_inv (env : Env) (root : string) (g : Graph) : Prop :=
  well_formed g /\ Forall (flat_node_ok env root) (g_nodes g).

(** A node without churn (the folder nodes are created so). *)
Definition no_churn (kv : string * NodeData) : Prop := commits (snd kv) = 0.

(** The files with churn, in scan order. *)
Definition edited_files (env : Env) (files : list string) : list string :=
  filter (fun f => 0 <? commits_for env f) files.

(** An entry under which the walk can find a file of the allowlist. *)
Fixpoint has_source (entry : Dirent) : bool :=
  match entry with
  | FileEnt name => ext_test exts name
  | DirEnt _ None => false
  | DirEnt _ (Some entries) => existsb has_source entries
  end.

(* ================================================================== *)
(** ** The first revision's palette (extension.ts, lines 207-223) *)

Module First.

Definition palette : list string :=
  ["#66ccff"; "#ff9966"; "#cc99ff"; "#99ff99"; "#ffcc66";
   "#ff6699"; "#66ffcc"; "#aaaaaa"].

Definition clusterColor (cluster : string) : Color :=
  Palette (pick palette cluster).

End First.

(* ================================================================== *)
(** ** Notions the further properties are stated with *)

(** A UTF-16 code unit: what [charCodeAt] returns inside a string. *)
Definition code_unit (u : Z) : Prop := (0 <= u <= 65535)%Z.

(** The keys of the basename index, in insertion order. *)
Definition index_keys (idx : Index) : list string := map fst idx.

(** The last file of a scan with a given basename. *)
Definition last_with_basename (files : list string) (k : string)
  : option string :=
  find (fun f => String.eqb (Path.basename f) k) (rev files).

(** How a resolved path relates to the specifier it was resolved from. *)
Definition answers (dep p : string) : Prop :=
  Path.basename p = dep
  \/ Path.basename p = dep ++ ".js"
  \/ Path.basename p = dep ++ ".ts"
  \/ JsString.endsWith dep (Path.basename p) = true.

(** Every edge of the graph joins two of its nodes. *)
Definition endpoints_present (g : Graph) : Prop :=
  forall e, In e (g_edges g) ->
            In (from e) (Graphology.nodes g) /\ In (to e) (Graphology.nodes g).

(** A property of graphs that both mutators of the store keep. *)
Definition store_stable (P : Graph -> Prop) : Prop :=
  (forall g g' n attrs, Graphology.addNode g n attrs = Ok g' -> P g -> P g')
  /\ (forall g g' a b c w,
         Graphology.addEdge g a b c w = Ok g' -> P g -> P g').

(** Where an edge of the flat builder comes from: its source is a file
    that was read and parsed, one of whose specifiers resolves to its
    target. *)
Definition flat_edge_ok (env : Env) (fileIndex : Index) (e : Edge) : Prop :=
  exists content deps dep,
    readFileSync env (from e) = Some content
    /\ ext_test parseable_exts (from e) = true
    /\ babelImports env content = Some deps
    /\ In dep deps
    /\ resolve fileIndex dep = Some (to e).

(** [b] is scanned no later than [a]. *)
Definition not_after (files : list string) (b a : string) : Prop :=
  exists before after,
    files = (before ++ a :: after)%list /\ In b (before ++ [a])%list.

(** The most-edited entry of a payload node. *)
Definition entry_of (n : NodeData) : string * nat := (label n, commits n).

(** Churn descending along a list of most-edited entries. *)
Definition entries_descending (l : list (string * nat)) : Prop :=
  StronglySorted (fun x y => snd y <= snd x) l.

(** The entries of a given churn, in the order the list has them. *)
Definition entries_with (c : nat) (l : list (string * nat))
  : list (string * nat) :=
  filter (fun x => snd x =? c) l.

(** The kinds of edge of the builder with folder encapsulation, by what
    the edge joins: a folder to a child folder or to a file it holds, a
    file to the file one of its specifiers resolves to, the owning folders
    of the two ends of such an import when they differ. *)
Definition hierarchy_edge (root : string) (folders files : list string)
           (a b : string) : Prop :=
  (In b folders /\ a = Path.dirname b)
  \/ (In b files /\ a = Encapsulated.folder_of root b).

Definition import_edge (env : Env) (files : list string) (a b : string)
  : Prop :=
  In a files
  /\ exists dep,
      In dep (imports_of env a (Encapsulated.content_of env a))
      /\ resolve (Flat.build_index files) dep = Some b.

Definition rollup_edge (env : Env) (root : string) (files : list string)
           (a b : string) : Prop :=
  exists x y,
    import_edge env files x y
    /\ a = Encapsulated.folder_of root x
    /\ b = Encapsulated.folder_of root y
    /\ a <> b.

(** What the walk of a directory collects, read off its listing: the path
    of a file entry that is not ignored and whose name passes the
    allowlist test, or what the walk collects below a directory entry that
    is not ignored, not one of the pruned names, and whose listing can be
    read. *)
Inductive collects (env : Env) (root : string)
  : string -> list Dirent -> string -> Prop :=
| collects_file dir entries name :
    In (FileEnt name) entries ->
    ignores env (Path.relative root (Path.join dir name)) = false ->
    ext_test exts name = true ->
    collects env root dir entries (Path.join dir name)
| collects_below dir entries name sub f :
    In (DirEnt name (Some sub)) entries ->
    ignores env (Path.relative root (Path.join dir name)) = false ->
    existsb (String.eqb name) pruned_dirs = false ->
    collects env root (Path.join dir name) sub f ->
    collects env root dir entries f.
(* ================================================================== *)
(** * The first steps of a build *)

Lemma first_folder_open (env : Env) (root : string)
      (listing : option (list Dirent)) :
  first_folder env = Some (root, listing) ->
  exists folders,
    workspaceFolders env = Some folders
    /\ hd_error folders = Some (root, listing).
Proof.
  unfold first_folder. destruct (workspaceFolders env) as [folders |];
    [eauto | discriminate].
Qed.

Lemma flat_build_unfold (env : Env) (root : string)
      (listing : option (list Dirent)) :
  first_folder env = Some (root, listing) ->
  Flat.buildRepoGraph env
  = if gitignore_loads env root then
      graph <- Flat.build_graph env root (Flat.scan env root listing) ;;
      st <- Flat.build_stats graph (Flat.scan env root listing) ;;
      Ok (mkRepoGraph (nodes_payload graph) (edges_payload graph) (Some st))
    else Throw FsError.
Proof.
  intros H. apply first_folder_open in H as (folders & Hws & Hhd).
  unfold Flat.buildRepoGraph. now rewrite Hws, Hhd.
Qed.

Lemma enc_build_unfold (env : Env) (root : string)
      (listing : option (list Dirent)) :
  first_folder env = Some (root, listing) ->
  Encapsulated.buildRepoGraph env
  = if gitignore_loads env root then
      graph <- Encapsulated.build_graph
                 env root (Encapsulated.scan env root listing) ;;
      st <- Encapsulated.build_stats
              graph (Encapsulated.scan env root listing) ;;
      Ok (mkRepoGraph (nodes_payload graph) (edges_payload graph) (Some st))
    else Throw FsError.
Proof.
  intros H. apply first_folder_open in H as (folders & Hws & Hhd).
  unfold Encapsulated.buildRepoGraph. now rewrite Hws, Hhd.
Qed.

(** Without a first folder a build does not reach the scan: it returns
    the empty payload when [workspaceFolders] is undefined and faults on
    the empty array. *)
Lemma flat_build_no_folder (env : Env) :
  first_folder env = None ->
  Flat.buildRepoGraph env
  = match workspaceFolders env with
    | None => Ok (mkRepoGraph [] [] None)
    | Some _ => Throw TypeError
    end.
Proof.
  unfold first_folder, Flat.buildRepoGraph.
  destruct (workspaceFolders env) as [folders |]; [| reflexivity].
  now intros ->.
Qed.

Lemma enc_build_no_folder (env : Env) :
  first_folder env = None ->
  Encapsulated.buildRepoGraph env
  = match workspaceFolders env with
    | None => Ok (mkRepoGraph [] [] None)
    | Some _ => Throw TypeError
    end.
Proof.
  unfold first_folder, Encapsulated.buildRepoGraph.
  destruct (workspaceFolders env) as [folders |]; [| reflexivity].
  now intros ->.
Qed.

Lemma flat_build_no_folder_inv (env : Env) (r : RepoGraph) :
  first_folder env = None ->
  Flat.buildRepoGraph env = Ok r -> r = mkRepoGraph [] [] None.
Proof.
  intros H. rewrite (flat_build_no_folder env H).
  destruct (workspaceFolders env); [discriminate | now intros [= <-]].
Qed.

Lemma enc_build_no_folder_inv (env : Env) (r : RepoGraph) :
  first_folder env = None ->
  Encapsulated.buildRepoGraph env = Ok r -> r = mkRepoGraph [] [] None.
Proof.
  intros H. rewrite (enc_build_no_folder env H).
  destruct (workspaceFolders env); [discriminate | now intros [= <-]].
Qed.

(* ================================================================== *)
(** * Metrics *)

Section Metrics.

Lemma split_not_nil (c : ascii) (s : string) : JsString.split c s <> [].
Proof.
  destruct s as [| a s]; simpl; [discriminate |].
  destruct (Ascii.eqb a c); [discriminate |].
  destruct (JsString.split c s); discriminate.
Qed.

Lemma split_length (c : ascii) (s : string) :
  List.length (JsString.split c (String c s))
  = S (List.length (JsString.split c s)).
Proof. simpl. rewrite Ascii.eqb_refl. reflexivity. Qed.

Lemma loc_of_newlines (s : string) : loc_of s = count_newlines s + 1.
Proof.
  unfold loc_of. induction s as [| a s IH]; [reflexivity |].
  simpl. destruct (Ascii.eqb a newline); simpl.
  - rewrite IH. reflexivity.
  - destruct (JsString.split newline s) eqn:E.
    + exfalso. exact (split_not_nil _ _ E).
    + simpl in *. exact IH.
Qed.

Lemma count_newlines_app (s t : string) :
  count_newlines (s ++ t) = count_newlines s + count_newlines t.
Proof.
  induction s as [| a s IH]; simpl; [reflexivity |].
  rewrite IH. lia.
Qed.

Lemma loc_of_positive (s : string) : 1 <= loc_of s.
Proof. rewrite loc_of_newlines. lia. Qed.

Lemma complexity_of_positive (s : string) : 1 <= complexity_of s.
Proof. unfold complexity_of. lia. Qed.

(** An operator token is only matched when squeezed between two word
    characters: [\b] needs a word character on one side of each of its
    ends, and the operator itself supplies none. *)
Lemma operator_needs_word_before (before : option ascii) (rest : string) :
  is_word before = false ->
  match_here before ("&&" ++ rest) = None
  /\ match_here before ("||" ++ rest) = None.
Proof.
  intros H. unfold match_here, word_boundary. simpl. rewrite H.
  split; reflexivity.
Qed.

(** Nothing is matched in the middle of a word: a match starts at a word
    boundary. *)
Lemma match_needs_boundary (before : ascii) (c : ascii) (rest : string) :
  is_word_char before = true -> is_word_char c = true ->
  match_here (Some before) (String c rest) = None.
Proof.
  intros Hb Hc. unfold match_here, word_boundary. simpl.
  now rewrite Hb, Hc.
Qed.

(** Nor is a token that a word character follows. *)
Lemma token_needs_boundary_after (tok rest : string) (c : ascii) :
  In tok ["if"; "for"; "while"; "case"; "catch"] ->
  is_word_char c = true ->
  token_matches_here tok (tok ++ String c rest) = false.
Proof.
  intros Hin Hc. simpl in Hin.
  repeat (destruct Hin as [<- | Hin]; [
    unfold token_matches_here, word_boundary; simpl; now rewrite Hc |]).
  contradiction.
Qed.

End Metrics.

(** C5 (the code at the failing input): the pattern wraps the operators
    [&&] and [||] in word boundaries, so an operator written between
    spaces is not counted: [a && b] and [a || b] each hold one operator and
    have complexity 1, and [if (a && b) { }] has complexity 2.  The keyword
    embedded in [modifier] is, as claimed, not counted, and neither is an
    operator unless word characters touch it on both sides, as in [a&&b]. *)
Theorem C5_spaced_operators_not_counted :
  (count_operators "a && b" = 1 /\ complexity_of "a && b" = 1)
  /\ (count_operators "a || b" = 1 /\ complexity_of "a || b" = 1)
  /\ (count_operators "if (a && b) { }" = 1
      /\ complexity_of "if (a && b) { }" = 2)
  /\ complexity_of "modifier" = 1
  /\ complexity_of "a&&b" = 2.
Proof. repeat split; reflexivity. Qed.

(** C6 (counterexample): on the two-line content [a\nb\n] the code counts
    three segments, the claim two. *)
Lemma C6_trailing_newline_counts :
  loc_of Examples.two_lines = 3
  /\ loc_as_claimed Examples.two_lines = 2
  /\ loc_of Examples.two_lines <> loc_as_claimed Examples.two_lines.
Proof. repeat split; try reflexivity. vm_compute. discriminate. Qed.

(** C6 (amended): the line count is the number of newline-delimited
    segments, one more than the number of newline characters; the last
    segment counts when it lacks a final newline, and a final newline adds
    one more (empty) segment. *)
Theorem C6_loc_counts_segments (content : string) :
  loc_of content = List.length (JsString.split newline content)
  /\ loc_of content = count_newlines content + 1
  /\ loc_of (content ++ Examples.nl) = loc_of content + 1
  /\ loc_of content
     = loc_as_claimed content + (if ends_with_newline content then 1 else 0).
Proof.
  split; [reflexivity |]. split; [apply loc_of_newlines |]. split.
  - rewrite !loc_of_newlines, count_newlines_app. simpl. lia.
  - rewrite loc_of_newlines. unfold loc_as_claimed.
    destruct (ends_with_newline content); lia.
Qed.

(* ================================================================== *)
(** * Resolution *)

Section Resolution.

Lemma index_get_truthy (fileIndex : Index) (k p : string) :
  index_truthy fileIndex ->
  index_get fileIndex k = Some p -> JsString.truthy (Some p) = true.
Proof.
  unfold index_truthy. induction fileIndex as [| [k' v'] rest IH]; simpl.
  - discriminate.
  - intros Hall. inversion Hall as [| ? ? Hv Hrest]; subst.
    destruct (String.eqb k' k).
    + intros [= <-]. simpl in Hv.
      destruct (String.eqb_spec v' ""); [contradiction | reflexivity].
    + auto.
Qed.

Lemma or_else_some (p : string) (b : option string) :
  JsString.truthy (Some p) = true -> (Some p <||> b) = Some p.
Proof. unfold JsString.or_else. intros ->. reflexivity. Qed.

Lemma or_else_none (b : option string) : (None <||> b) = b.
Proof. reflexivity. Qed.

Lemma resolve_first_hit (fileIndex : Index) (dep : string) :
  index_truthy fileIndex ->
  first_hit fileIndex dep (resolve fileIndex dep).
Proof.
  intros Hidx. unfold resolve.
  destruct (index_get fileIndex dep) as [p |] eqn:E1.
  { rewrite or_else_some by eauto using index_get_truthy.
    now apply hit_exact. }
  rewrite or_else_none.
  destruct (index_get fileIndex (dep ++ ".js")) as [p |] eqn:E2.
  { rewrite or_else_some by eauto using index_get_truthy.
    now apply hit_js. }
  rewrite or_else_none.
  destruct (index_get fileIndex (dep ++ ".ts")) as [p |] eqn:E3.
  { rewrite or_else_some by eauto using index_get_truthy.
    now apply hit_ts. }
  rewrite or_else_none.
  destruct (find _ fileIndex) as [[k p] |] eqn:E4; simpl.
  - eapply hit_suffix; eauto.
  - now apply miss.
Qed.

Lemma flat_miss_adds_nothing (fileIndex : Index) (file dep : string)
      (graph : Graph) :
  resolve fileIndex dep = None ->
  Flat.add_import fileIndex file graph dep = Ok graph.
Proof. unfold Flat.add_import. intros ->. reflexivity. Qed.

Lemma encapsulated_miss_adds_nothing (root : string) (fileIndex : Index)
      (file fromFolder dep : string) (graph : Graph) :
  resolve fileIndex dep = None ->
  Encapsulated.add_import root fileIndex file fromFolder graph dep
  = Ok graph.
Proof. unfold Encapsulated.add_import. intros ->. reflexivity. Qed.

End Resolution.

(** C4 (counterexample): with only [x.tsx] scanned, the specifier [x] is
    not resolved by the code, while the order of the claim resolves it at
    its second step, with [tsx] appended. *)
Lemma C4_tsx_is_not_tried :
  Examples.tsx_only = [("x.tsx", "/repo/x.tsx")]
  /\ resolve Examples.tsx_only "x" = None
  /\ resolve_as_claimed Examples.tsx_only "x" = Some "/repo/x.tsx"
  /\ resolve Examples.tsx_only "x" <> resolve_as_claimed Examples.tsx_only "x".
Proof. repeat split; try reflexivity. vm_compute. discriminate. Qed.

(** C4 (amended): a raw specifier is resolved against the basename index
    in this order, stopping at the first hit: the exact lookup of the
    specifier, the lookup with [.js] appended, the lookup with [.ts]
    appended, the first indexed basename (in insertion order) that is a
    suffix of the specifier; when every step misses, neither builder emits
    an edge for the specifier. *)
Theorem C4_resolution_order (fileIndex : Index) (dep : string) :
  index_truthy fileIndex ->
  first_hit fileIndex dep (resolve fileIndex dep)
  /\ (resolve fileIndex dep = None ->
      (forall file graph,
          Flat.add_import fileIndex file graph dep = Ok graph)
      /\ (forall root file fromFolder graph,
             Encapsulated.add_import root fileIndex file fromFolder graph dep
             = Ok graph)).
Proof.
  intros Hidx. split; [now apply resolve_first_hit |].
  intros Hnone. split; intros.
  - now apply flat_miss_adds_nothing.
  - now apply encapsulated_miss_adds_nothing.
Qed.

Lemma C4_resolution_order_witness :
  first_hit [("b.ts", "/repo/b.ts")] "left-pad"
            (resolve [("b.ts", "/repo/b.ts")] "left-pad")
  /\ resolve [("b.ts", "/repo/b.ts")] "left-pad" = None.
Proof.
  split.
  - apply (C4_resolution_order (fileIndex := [("b.ts", "/repo/b.ts")])
                               "left-pad").
    repeat constructor; simpl; discriminate.
  - reflexivity.
Defined.

(* ================================================================== *)
(** * Loops and the graph store *)

Section Loops.

Context {A S : Type}.
Variable body : S -> A -> result S.

(** A property every iteration that returns preserves holds when the
    loop returns. *)
Lemma for_of_preserves (P : S -> Prop) (l : list A) :
  (forall s a s', In a l -> P s -> body s a = Ok s' -> P s') ->
  forall s s', P s -> for_of l body s = Ok s' -> P s'.
Proof.
  induction l as [| a l IH]; simpl; intros Hstep s s' Hs Hrun.
  - inversion Hrun; subst; assumption.
  - destruct (body s a) as [s1 | e] eqn:E; simpl in Hrun; [| discriminate].
    apply IH with (s := s1); eauto.
Qed.

(** A loop whose iterations never throw under an invariant returns. *)
Lemma for_of_returns (P : S -> Prop) (l : list A) :
  (forall s a, In a l -> P s -> exists s', body s a = Ok s' /\ P s') ->
  forall s, P s -> exists s', for_of l body s = Ok s' /\ P s'.
Proof.
  induction l as [| a l IH]; simpl; intros Hstep s Hs.
  - eauto.
  - destruct (Hstep s a) as (s1 & -> & Hs1); auto.
    simpl. apply IH; auto.
Qed.

Lemma for_of_app (l1 l2 : list A) (s : S) :
  for_of (l1 ++ l2) body s = (s' <- for_of l1 body s ;; for_of l2 body s').
Proof.
  revert s. induction l1 as [| a l1 IH]; simpl; intros s; [reflexivity |].
  destruct (body s a); simpl; auto.
Qed.

End Loops.


Section Store.

Import Graphology.

Lemma hasNode_In (g : Graph) (n : string) :
  hasNode g n = true <-> In n (nodes g).
Proof.
  unfold hasNode. rewrite existsb_exists. split.
  - intros (x & Hin & Heq). apply String.eqb_eq in Heq. now subst.
  - intros Hin. exists n. split; [assumption | apply String.eqb_refl].
Qed.

Lemma hasNode_not_In (g : Graph) (n : string) :
  hasNode g n = false <-> ~ In n (nodes g).
Proof.
  rewrite <- hasNode_In. destruct (hasNode g n); split; congruence.
Qed.

Lemma hasEdge_In (g : Graph) (a b : string) :
  hasEdge g a b = true <-> In (a, b) (edges_payload g).
Proof.
  unfold hasEdge, edges_payload, is_edge.
  rewrite existsb_exists, in_map_iff. split.
  - intros (e & Hin & Heq). apply andb_true_iff in Heq as [Ha Hb].
    apply String.eqb_eq in Ha, Hb. exists e. subst. auto.
  - intros (e & [= <- <-] & Hin). exists e.
    rewrite !String.eqb_refl. auto.
Qed.

Lemma hasEdge_not_In (g : Graph) (a b : string) :
  hasEdge g a b = false <-> ~ In (a, b) (edges_payload g).
Proof.
  rewrite <- hasEdge_In. destruct (hasEdge g a b); split; congruence.
Qed.

Lemma addNode_inv (g g' : Graph) (n : string) (attrs : NodeData) :
  addNode g n attrs = Ok g' ->
  ~ In n (nodes g)
  /\ g_nodes g' = (g_nodes g ++ [(n, attrs)])%list
  /\ g_edges g' = g_edges g.
Proof.
  unfold addNode. destruct (hasNode g n) eqn:E; [discriminate |].
  intros [= <-]. simpl. apply hasNode_not_In in E. auto.
Qed.

Lemma addNode_fresh (g : Graph) (n : string) (attrs : NodeData) :
  hasNode g n = false ->
  addNode g n attrs = Ok (mkGraph (g_nodes g ++ [(n, attrs)]) (g_edges g)).
Proof. unfold addNode. intros ->. reflexivity. Qed.

Lemma addEdge_inv (g g' : Graph) (a b c : string) (w : Q) :
  addEdge g a b c w = Ok g' ->
  In a (nodes g) /\ In b (nodes g)
  /\ ~ In (a, b) (edges_payload g)
  /\ g_nodes g' = g_nodes g
  /\ g_edges g' = (g_edges g ++ [mkEdge a b c w])%list.
Proof.
  unfold addEdge.
  destruct (hasNode g a) eqn:Ea; [| discriminate].
  destruct (hasNode g b) eqn:Eb; [| discriminate].
  destruct (hasEdge g a b) eqn:Ee; [discriminate |]. simpl.
  intros [= <-]. simpl.
  apply hasNode_In in Ea, Eb. apply hasEdge_not_In in Ee. auto.
Qed.

Lemma addEdge_fresh (g : Graph) (a b c : string) (w : Q) :
  hasNode g a = true -> hasNode g b = true -> hasEdge g a b = false ->
  addEdge g a b c w
  = Ok (mkGraph (g_nodes g) (g_edges g ++ [mkEdge a b c w])).
Proof. unfold addEdge. intros -> -> ->. reflexivity. Qed.

(** Re-adding what the graph holds is a fault of the store, never a
    silent no-op. *)
Lemma addEdge_again (g : Graph) (a b c : string) (w : Q) :
  hasEdge g a b = true -> exists e, addEdge g a b c w = Throw e.
Proof.
  unfold addEdge. intros ->.
  destruct (negb (hasNode g a) || negb (hasNode g b)); eauto.
Qed.

Lemma addNode_again (g : Graph) (n : string) (attrs : NodeData) :
  hasNode g n = true -> addNode g n attrs = Throw UsageGraphError.
Proof. unfold addNode. intros ->. reflexivity. Qed.

Lemma empty_well_formed : well_formed empty.
Proof. split; constructor. Qed.

Lemma NoDup_snoc {X} (l : list X) (x : X) :
  NoDup l -> ~ In x l -> NoDup (l ++ [x])%list.
Proof.
  intros Hl Hx. apply NoDup_app; auto.
  - repeat constructor. intros [].
  - intros y Hy [<- | []]. contradiction.
Qed.

Lemma addNode_well_formed (g g' : Graph) (n : string) (attrs : NodeData) :
  addNode g n attrs = Ok g' -> well_formed g -> well_formed g'.
Proof.
  intros H [Hn He]. apply addNode_inv in H as (Hfresh & Hns & Hes).
  unfold well_formed, nodes, edges_payload in *. rewrite Hns, Hes.
  split; [| assumption].
  rewrite map_app. simpl. now apply NoDup_snoc.
Qed.

Lemma addEdge_well_formed (g g' : Graph) (a b c : string) (w : Q) :
  addEdge g a b c w = Ok g' -> well_formed g -> well_formed g'.
Proof.
  intros H [Hn He]. apply addEdge_inv in H as (_ & _ & Hfresh & Hns & Hes).
  unfold well_formed, nodes, edges_payload in *. rewrite Hns, Hes.
  split; [assumption |].
  rewrite map_app. simpl. now apply NoDup_snoc.
Qed.

Lemma addEdge_keeps_nodes (g g' : Graph) (a b c : string) (w : Q) :
  addEdge g a b c w = Ok g' -> g_nodes g' = g_nodes g.
Proof. intros H. now apply addEdge_inv in H. Qed.

End Store.

(* ================================================================== *)
(** * The stats pass *)

Section StatsPass.

Import Graphology.

Lemma hasNode_same_nodes (g g' : Graph) (n : string) :
  g_nodes g' = g_nodes g -> hasNode g' n = hasNode g n.
Proof. unfold hasNode, nodes. now intros ->. Qed.

Lemma getNodeAttributes_missing (g : Graph) (n : string) :
  hasNode g n = false -> getNodeAttributes g n = Throw NotFoundGraphError.
Proof.
  unfold getNodeAttributes, hasNode, nodes.
  induction (g_nodes g) as [| kv l IH]; simpl; [reflexivity |].
  destruct (String.eqb n (fst kv)); simpl; [discriminate | exact IH].
Qed.

Lemma getNodeAttributes_found (g : Graph) (n : string) :
  hasNode g n = true -> exists attrs, getNodeAttributes g n = Ok attrs.
Proof.
  unfold getNodeAttributes, hasNode, nodes.
  induction (g_nodes g) as [| kv l IH]; simpl; [discriminate |].
  destruct (String.eqb n (fst kv)); simpl; eauto.
Qed.

Lemma getNodeAttribute_complexity (g : Graph) (n : string) (c : nat) :
  getNodeAttribute g n complexity = Ok c ->
  hasNode g n = true /\ complexity_in (nodes_payload g) n = c.
Proof.
  unfold getNodeAttribute, getNodeAttributes, hasNode, nodes,
    complexity_in, nodes_payload.
  induction (g_nodes g) as [| kv l IH]; simpl; [discriminate |].
  destruct (String.eqb n (fst kv)); simpl.
  - intros [= <-]. auto.
  - exact IH.
Qed.

Lemma sum_from_ok (g : Graph) (files : list string) :
  forall acc total,
    for_of files
      (fun acc f => c <- getNodeAttribute g f complexity ;; Ok (acc + c))
      acc = Ok total ->
    Forall (fun f => hasNode g f = true) files
    /\ total
       = acc + list_sum (map (complexity_in (nodes_payload g)) files).
Proof.
  induction files as [| f files IH]; simpl; intros acc total H.
  - inversion H; subst. split; [constructor | lia].
  - destruct (getNodeAttribute g f complexity) as [c | e] eqn:E;
      simpl in H; [| discriminate].
    apply getNodeAttribute_complexity in E as [Hn Hc].
    apply IH in H as [Hall ->]. split; [now constructor | lia].
Qed.

Lemma sum_complexity_ok (g : Graph) (files : list string) (total : nat) :
  sum_complexity g files = Ok total ->
  Forall (fun f => hasNode g f = true) files
  /\ total = list_sum (map (complexity_in (nodes_payload g)) files).
Proof. intros H. now apply sum_from_ok in H. Qed.

Lemma sum_from_missing (g : Graph) (files : list string) (f : string) :
  In f files -> hasNode g f = false ->
  forall acc,
    for_of files
      (fun acc f => c <- getNodeAttribute g f complexity ;; Ok (acc + c))
      acc = Throw NotFoundGraphError.
Proof.
  intros Hin Hmiss.
  induction files as [| f' files IH]; simpl; intros acc; [contradiction |].
  unfold getNodeAttribute at 1.
  destruct (hasNode g f') eqn:E.
  - destruct (getNodeAttributes_found g f' E) as [attrs ->]. simpl.
    destruct Hin as [-> | Hin]; [congruence | now apply IH].
  - now rewrite getNodeAttributes_missing.
Qed.

(** The complexity lookup of a scanned path that is not a node faults. *)
Lemma sum_complexity_missing (g : Graph) (files : list string) (f : string) :
  In f files -> hasNode g f = false ->
  sum_complexity g files = Throw NotFoundGraphError.
Proof. intros. unfold sum_complexity. eapply sum_from_missing; eauto. Qed.

Lemma sum_complexity_returns (g : Graph) (files : list string) :
  Forall (fun f => hasNode g f = true) files ->
  exists total, sum_complexity g files = Ok total.
Proof.
  unfold sum_complexity. generalize 0.
  induction files as [| f files IH]; simpl; intros acc Hall; [eauto |].
  inversion Hall as [| ? ? Hf Hrest]; subst.
  unfold getNodeAttribute at 1.
  destruct (getNodeAttributes_found g f Hf) as [attrs ->]. simpl.
  now apply IH.
Qed.

Lemma In_nodes_payload (g : Graph) (n : string) :
  hasNode g n = true -> In n (map id (nodes_payload g)).
Proof.
  rewrite hasNode_In. unfold nodes, nodes_payload.
  rewrite map_map. simpl. auto.
Qed.

End StatsPass.

(* ================================================================== *)
(** * The flat builder *)

Section FlatBuilder.

Import Graphology.

Variable env : Env.
Variable root : string.

Lemma flat_add_import_returns (fileIndex : Index) (file dep : string)
      (g : Graph) :
  well_formed g -> hasNode g file = true ->
  exists g', Flat.add_import fileIndex file g dep = Ok g'
             /\ well_formed g' /\ g_nodes g' = g_nodes g.
Proof.
  intros Hwf Hfile. unfold Flat.add_import.
  destruct (resolve fileIndex dep) as [depFile |]; [| eauto].
  destruct (JsString.truthy (Some depFile)); simpl; [| eauto].
  destruct (hasNode g depFile) eqn:Ed; simpl; [| eauto].
  destruct (hasEdge g file depFile) eqn:Ee; simpl; [eauto |].
  pose proof (addEdge_fresh g file depFile "#ccc" 1 Hfile Ed Ee) as Hadd.
  eexists. split; [exact Hadd |]. split; [| reflexivity].
  eapply addEdge_well_formed; eauto.
Qed.

Lemma flat_imports_return (fileIndex : Index) (file : string)
      (imports : list string) (g : Graph) :
  well_formed g -> hasNode g file = true ->
  exists g', for_of imports (Flat.add_import fileIndex file) g = Ok g'
             /\ well_formed g' /\ g_nodes g' = g_nodes g.
Proof.
  intros Hwf Hfile.
  destruct (for_of_returns (Flat.add_import fileIndex file)
              (fun g' => well_formed g' /\ g_nodes g' = g_nodes g)
              imports) with (s := g) as (g' & Hrun & Hwf' & Hn); eauto.
  intros s dep _ [Hs Hns].
  destruct (flat_add_import_returns fileIndex file dep Hs)
    as (s' & Hstep & Hs' & Hns').
  - now rewrite (hasNode_same_nodes g s file Hns).
  - exists s'. split; [assumption |]. split; [assumption | congruence].
Qed.

Lemma flat_add_file_returns (fileIndex : Index) (file : string)
      (g : Graph) :
  flat_inv env root g ->
  exists g', Flat.add_file env root fileIndex g file = Ok g'
             /\ flat_inv env root g'.
Proof.
  intros [Hwf Hall]. unfold Flat.add_file.
  destruct (readFileSync env file) as [content |] eqn:Eread.
  2: { exists g. split; [reflexivity | split; assumption]. }
  destruct (hasNode g file) eqn:En; simpl.
  - destruct (flat_imports_return fileIndex file
                (imports_of env file content) Hwf En)
      as (g' & -> & Hwf' & Hn).
    exists g'. split; [reflexivity |]. split; [assumption |].
    now rewrite Hn.
  - rewrite (addNode_fresh g file _ En). simpl.
    set (g1 := mkGraph _ _).
    assert (Hwf1 : well_formed g1).
    { eapply addNode_well_formed; [apply addNode_fresh, En | assumption]. }
    assert (Hfile1 : hasNode g1 file = true).
    { apply hasNode_In. unfold nodes, g1. simpl.
      rewrite map_app. apply in_or_app. right. now left. }
    destruct (flat_imports_return fileIndex file
                (imports_of env file content) Hwf1 Hfile1)
      as (g' & -> & Hwf' & Hn).
    exists g'. split; [reflexivity |]. split; [assumption |].
    rewrite Hn. unfold g1. simpl. apply Forall_app. split; [assumption |].
    constructor; [| constructor]. exists content. auto.
Qed.

(** The node and edge loops of the flat builder never fault: every
    insertion is behind a [hasNode] or [hasEdge] test. *)
Lemma flat_build_graph_returns (files : list string) :
  exists g, Flat.build_graph env root files = Ok g /\ flat_inv env root g.
Proof.
  unfold Flat.build_graph.
  apply for_of_returns with (P := flat_inv env root).
  - intros s a _ Hs. now apply flat_add_file_returns.
  - split; [apply empty_well_formed | constructor].
Qed.

Lemma flat_nodes_readable (g : Graph) (n : string) :
  flat_inv env root g -> hasNode g n = true -> readFileSync env n <> None.
Proof.
  intros [_ Hall] Hn. apply hasNode_In in Hn. unfold nodes in Hn.
  apply in_map_iff in Hn as (kv & <- & Hin).
  rewrite Forall_forall in Hall. destruct (Hall kv Hin) as (c & -> & _).
  discriminate.
Qed.

(** A scanned file that cannot be read is left out of the graph, and the
    stats pass then looks its complexity up: the build faults. *)
Lemma flat_unreadable_faults (listing : option (list Dirent)) (f : string) :
  first_folder env = Some (root, listing) ->
  In f (Flat.scan env root listing) ->
  readFileSync env f = None ->
  Flat.buildRepoGraph env
  = Throw (if gitignore_loads env root then NotFoundGraphError
           else FsError).
Proof.
  intros Hws Hin Hread. rewrite (flat_build_unfold env Hws).
  destruct (gitignore_loads env root); [| reflexivity].
  destruct (flat_build_graph_returns (Flat.scan env root listing))
    as (g & -> & Hinv). simpl.
  assert (Hmiss : hasNode g f = false).
  { destruct (hasNode g f) eqn:E; [| reflexivity].
    exfalso. now apply (flat_nodes_readable f Hinv E). }
  unfold Flat.build_stats.
  destruct (0 <? List.length (Flat.scan env root listing)) eqn:El.
  - rewrite (sum_complexity_missing g _ f Hin Hmiss). reflexivity.
  - apply Nat.ltb_ge in El. destruct (Flat.scan env root listing);
      [contradiction | simpl in El; lia].
Qed.

End FlatBuilder.

(* ================================================================== *)
(** * The sort of the stats pass *)

Section Sorting.

Lemma insert_by_commits_perm x l :
  Permutation (insert_by_commits x l) (x :: l).
Proof.
  induction l as [| y l IH]; simpl; [reflexivity |].
  destruct (commits (snd y) <=? commits (snd x)); [reflexivity |].
  rewrite IH. apply perm_swap.
Qed.

Lemma sort_by_commits_perm l : Permutation (sort_by_commits l) l.
Proof.
  induction l as [| x l IH]; simpl; [reflexivity |].
  rewrite insert_by_commits_perm. now constructor.
Qed.

Lemma insert_by_commits_sorted x l :
  churn_descending l -> churn_descending (insert_by_commits x l).
Proof.
  unfold churn_descending.
  induction l as [| y l IH]; simpl; intros Hs.
  - repeat constructor.
  - inversion Hs as [| ? ? Hl Hy]; subst.
    destruct (commits (snd y) <=? commits (snd x)) eqn:E.
    + apply Nat.leb_le in E. constructor; [assumption |].
      constructor; [assumption |].
      eapply Forall_impl; [| exact Hy]. simpl. intros; lia.
    + apply Nat.leb_gt in E. constructor; [now apply IH |].
      rewrite Forall_forall. intros z Hz.
      apply (Permutation_in _ (insert_by_commits_perm x l)) in Hz.
      destruct Hz as [<- | Hz]; [lia |].
      rewrite Forall_forall in Hy. now apply Hy.
Qed.

Lemma sort_by_commits_sorted l : churn_descending (sort_by_commits l).
Proof.
  induction l as [| x l IH]; simpl; [constructor |].
  now apply insert_by_commits_sorted.
Qed.

Lemma insert_by_commits_stable c x l :
  with_churn c (insert_by_commits x l) = with_churn c (x :: l).
Proof.
  unfold with_churn.
  induction l as [| y l IH]; simpl; [reflexivity |].
  destruct (commits (snd y) <=? commits (snd x)) eqn:E; [reflexivity |].
  apply Nat.leb_gt in E. simpl. rewrite IH. simpl.
  destruct (commits (snd x) =? c) eqn:Ex;
    destruct (commits (snd y) =? c) eqn:Ey; try reflexivity.
  apply Nat.eqb_eq in Ex, Ey. lia.
Qed.

(** The sort is stable: entries of equal churn keep their order. *)
Lemma sort_by_commits_stable c l :
  with_churn c (sort_by_commits l) = with_churn c l.
Proof.
  induction l as [| x l IH]; simpl; [reflexivity |].
  rewrite insert_by_commits_stable. unfold with_churn in *. simpl.
  now rewrite IH.
Qed.

Lemma churn_descending_firstn n l :
  churn_descending l -> churn_descending (firstn n l).
Proof.
  unfold churn_descending. revert l.
  induction n as [| n IH]; intros [| x l] Hs; simpl; try constructor.
  - inversion Hs; subst. now apply IH.
  - inversion Hs as [| ? ? _ Hx]; subst.
    rewrite Forall_forall in *. intros z Hz. apply Hx.
    rewrite <- (firstn_skipn n l). apply in_or_app. now left.
Qed.

End Sorting.

(* ================================================================== *)
(** * The builder with folder encapsulation *)

Section EncapsulatedBuilder.

Import Graphology.

Variable env : Env.
Variable root : string.

Lemma enc_add_folder_inv (g g' : Graph) (folder : string) :
  Encapsulated.add_folder root g folder = Ok g' ->
  (well_formed g -> well_formed g')
  /\ (Forall no_churn (g_nodes g) -> Forall no_churn (g_nodes g')).
Proof.
  unfold Encapsulated.add_folder.
  destruct (hasNode g folder); simpl.
  - intros [= <-]. auto.
  - intros H. split; [eauto using addNode_well_formed |].
    apply addNode_inv in H as (_ & -> & _). intros Hall.
    apply Forall_app. split; [assumption |]. now repeat constructor.
Qed.

Lemma enc_add_parent_edge_inv (g g' : Graph) (folder : string) :
  Encapsulated.add_parent_edge g folder = Ok g' ->
  (well_formed g -> well_formed g') /\ g_nodes g' = g_nodes g.
Proof.
  unfold Encapsulated.add_parent_edge.
  destruct (_ && _).
  - intros H. split; [eauto using addEdge_well_formed |].
    eauto using addEdge_keeps_nodes.
  - intros [= <-]. auto.
Qed.

Lemma enc_add_file_inv (st st' : Graph * Index) (f : string) :
  Encapsulated.add_file env root st f = Ok st' ->
  (well_formed (fst st) -> well_formed (fst st'))
  /\ g_nodes (fst st')
     = (g_nodes (fst st) ++ [(f, Encapsulated.file_node env root f)])%list.
Proof.
  unfold Encapsulated.add_file.
  destruct (addNode (fst st) f _) as [g1 |] eqn:E1; simpl; [| discriminate].
  destruct (hasNode g1 (Encapsulated.folder_of root f)).
  - destruct (addEdge g1 _ f _ _) as [g2 |] eqn:E2; simpl; [| discriminate].
    intros [= <-]. simpl. split.
    + eauto using addNode_well_formed, addEdge_well_formed.
    + rewrite (addEdge_keeps_nodes _ _ _ _ _ E2).
      now apply addNode_inv in E1.
  - simpl. intros [= <-]. simpl. split.
    + eauto using addNode_well_formed.
    + now apply addNode_inv in E1.
Qed.

Lemma enc_add_import_inv (fileIndex : Index) (file fromFolder dep : string)
      (g g' : Graph) :
  Encapsulated.add_import root fileIndex file fromFolder g dep = Ok g' ->
  (well_formed g -> well_formed g') /\ g_nodes g' = g_nodes g.
Proof.
  unfold Encapsulated.add_import.
  destruct (resolve fileIndex dep) as [depFile |]; [| intros [= <-]; auto].
  destruct (_ && _); [| intros [= <-]; auto].
  destruct (addEdge g file depFile _ _) as [g1 |] eqn:E1; simpl;
    [| discriminate].
  destruct (_ && _).
  - intros E2. split.
    + eauto using addEdge_well_formed.
    + rewrite (addEdge_keeps_nodes _ _ _ _ _ E2).
      eauto using addEdge_keeps_nodes.
  - intros [= <-]. split.
    + eauto using addEdge_well_formed.
    + eauto using addEdge_keeps_nodes.
Qed.

Lemma enc_link_file_inv (fileIndex : Index) (file : string)
      (g g' : Graph) :
  Encapsulated.link_file env root fileIndex g file = Ok g' ->
  (well_formed g -> well_formed g') /\ g_nodes g' = g_nodes g.
Proof.
  unfold Encapsulated.link_file. intros H.
  apply for_of_preserves
    with (P := fun s => (well_formed g -> well_formed s)
                        /\ g_nodes s = g_nodes g) in H; auto.
  intros s dep s' _ [Hwf Hn] Hstep.
  apply enc_add_import_inv in Hstep as [Hwf' Hn'].
  split; [auto | congruence].
Qed.

Lemma enc_add_files_nodes (files : list string) :
  forall st st',
    for_of files (Encapsulated.add_file env root) st = Ok st' ->
    g_nodes (fst st')
    = (g_nodes (fst st)
       ++ map (fun f => (f, Encapsulated.file_node env root f)) files)%list.
Proof.
  induction files as [| f files IH]; simpl; intros st st' H.
  - inversion H; subst. now rewrite app_nil_r.
  - destruct (Encapsulated.add_file env root st f) as [st1 |] eqn:E;
      simpl in H; [| discriminate].
    apply enc_add_file_inv in E as [_ E]. apply IH in H.
    rewrite H, E, <- app_assoc. reflexivity.
Qed.

(** When the builder returns, its graph holds each node id and each
    ordered pair once, and its nodes are folder nodes, without churn,
    followed by one node per scanned file, in scan order. *)
Lemma enc_build_graph_inv (files : list string) (g : Graph) :
  Encapsulated.build_graph env root files = Ok g ->
  well_formed g
  /\ exists folders,
      Forall no_churn folders
      /\ g_nodes g
         = (folders
            ++ map (fun f => (f, Encapsulated.file_node env root f))
                   files)%list.
Proof.
  unfold Encapsulated.build_graph.
  set (folderSet := Encapsulated.collect_folders root files).
  destruct (for_of folderSet (Encapsulated.add_folder root) empty)
    as [g1 |] eqn:E1; simpl; [| discriminate].
  destruct (for_of folderSet Encapsulated.add_parent_edge g1)
    as [g2 |] eqn:E2; simpl; [| discriminate].
  destruct (for_of files (Encapsulated.add_file env root) (g2, []))
    as [st |] eqn:E3; simpl; [| discriminate].
  intros E4.
  assert (H1 : well_formed g1 /\ Forall no_churn (g_nodes g1)).
  { apply for_of_preserves
      with (P := fun s => well_formed s /\ Forall no_churn (g_nodes s))
      in E1; auto.
    - intros s a s' _ [Hwf Hall] Hstep.
      apply enc_add_folder_inv in Hstep as [? ?]. auto.
    - split; [apply empty_well_formed | constructor]. }
  destruct H1 as [Hwf1 Hno1].
  assert (H2 : well_formed g2 /\ g_nodes g2 = g_nodes g1).
  { apply for_of_preserves
      with (P := fun s => well_formed s /\ g_nodes s = g_nodes g1)
      in E2; auto.
    intros s a s' _ [Hwf Hn] Hstep.
    apply enc_add_parent_edge_inv in Hstep as [? ?].
    split; [auto | congruence]. }
  destruct H2 as [Hwf2 Hn2].
  assert (Hwf3 : well_formed (fst st)).
  { apply for_of_preserves with (P := fun s => well_formed (fst s))
      in E3; auto.
    intros s a s' _ Hwf Hstep.
    apply enc_add_file_inv in Hstep as [? _]. auto. }
  pose proof (enc_add_files_nodes _ _ E3) as Hn3. simpl in Hn3.
  assert (H4 : well_formed g /\ g_nodes g = g_nodes (fst st)).
  { apply for_of_preserves
      with (P := fun s => well_formed s /\ g_nodes s = g_nodes (fst st))
      in E4; auto.
    intros s a s' _ [Hwf Hn] Hstep.
    apply enc_link_file_inv in Hstep as [? ?].
    split; [auto | congruence]. }
  destruct H4 as [Hwf4 Hn4]. split; [assumption |].
  exists (g_nodes g1). split; [assumption | congruence].
Qed.

Lemma filter_no_churn (l : list (string * NodeData)) :
  Forall no_churn l -> filter (fun kv => 0 <? commits (snd kv)) l = [].
Proof.
  induction 1 as [| kv l Hkv _ IH]; simpl; [reflexivity |].
  unfold no_churn in Hkv. rewrite Hkv. simpl. exact IH.
Qed.

Lemma filter_file_nodes (files : list string) :
  filter (fun kv => 0 <? commits (snd kv))
         (map (fun f => (f, Encapsulated.file_node env root f)) files)
  = map (fun f => (f, Encapsulated.file_node env root f))
        (edited_files env files).
Proof.
  unfold edited_files.
  induction files as [| f files IH]; simpl; [reflexivity |].
  destruct (0 <? commits_for env f); simpl; now rewrite IH.
Qed.

(** The most-edited list of the builder with folder encapsulation: the
    files with churn, sorted, the first five. *)
Lemma enc_mostEdited (files : list string) (g : Graph) :
  Encapsulated.build_graph env root files = Ok g ->
  Encapsulated.mostEdited_of g
  = map edited_entry
        (firstn 5
           (sort_by_commits
              (map (fun f => (f, Encapsulated.file_node env root f))
                   (edited_files env files)))).
Proof.
  intros H. apply enc_build_graph_inv in H as (_ & folders & Hno & Hn).
  unfold Encapsulated.mostEdited_of.
  rewrite Hn, filter_app, (filter_no_churn Hno), filter_file_nodes.
  reflexivity.
Qed.

End EncapsulatedBuilder.

(* ================================================================== *)
(** * The walk *)

Section WalkFacts.



(** Without a file of the allowlist below it, an entry adds nothing. *)
Lemma walk_entry_without_source (env : Env) (root : string) :
  forall entry dir files,
    has_source entry = false -> walk_entry env root dir entry files = files.
Proof.
  fix IH 1. intros [name | name listing] dir files; cbn [walk_entry].
  - simpl. intros ->. now destruct (ignores env _).
  - destruct (ignores env _); [reflexivity |].
    destruct (existsb _ pruned_dirs); [reflexivity |].
    destruct listing as [entries |]; [| reflexivity].
    revert files. induction entries as [| e es IHes]; intros files Hno.
    + reflexivity.
    + simpl in Hno. apply orb_false_iff in Hno as [He Hes].
      rewrite (IH e _ _ He). now apply IHes.
Qed.

Lemma walk_without_source (env : Env) (root dir : string)
      (entries : list Dirent) :
  existsb has_source entries = false ->
  walk env root dir (Some entries) [] = [].
Proof.
  simpl. generalize (@nil string) as files.
  induction entries as [| e es IH]; intros files Hno; simpl.
  - reflexivity.
  - simpl in Hno. apply orb_false_iff in Hno as [He Hes].
    rewrite (walk_entry_without_source env root e dir files He).
    now apply IH.
Qed.

Lemma no_source_nothing_to_scan (env : Env) (root : string)
      (entries : list Dirent) :
  first_folder env = Some (root, Some entries) ->
  gitignore_loads env root = true ->
  existsb has_source entries = false ->
  nothing_to_scan env.
Proof.
  unfold nothing_to_scan. intros Hws Hload Hno.
  apply first_folder_open in Hws as (folders & -> & ->).
  split; [assumption | now apply walk_without_source].
Qed.

End WalkFacts.

(* ================================================================== *)
(** * A build is a function of what it is given *)

Section Determinism.

Variables e1 e2 : Env.
Hypothesis Hread : forall file, readFileSync e1 file = readFileSync e2 file.
Hypothesis Hlog : forall file, gitLog e1 file = gitLog e2 file.
Hypothesis Hparse :
  forall content, babelImports e1 content = babelImports e2 content.
Hypothesis Hig : forall rel, ignores e1 rel = ignores e2 rel.
Hypothesis Hex : forall p, existsSync e1 p = existsSync e2 p.
Hypothesis Hws : workspaceFolders e1 = workspaceFolders e2.










End Determinism.

(* ================================================================== *)
(** * The payload and its stats *)

Section Payload.

Import Graphology.

Lemma flat_build_stats_inv (g : Graph) (files : list string) (st : Stats) :
  Flat.build_stats g files = Ok st ->
  totalFiles st = List.length files
  /\ avgComplexity st
     = average (list_sum (map (complexity_in (nodes_payload g)) files))
               (List.length files)
  /\ Forall (fun f => hasNode g f = true) files
  /\ mostEdited st = Flat.mostEdited_of g
  /\ clusters st = count_clusters (nodes_payload g).
Proof.
  unfold Flat.build_stats.
  destruct (0 <? List.length files) eqn:El.
  - destruct (sum_complexity g files) as [total |] eqn:Es; simpl;
      [| discriminate].
    intros [= <-]. simpl. apply sum_complexity_ok in Es as [Hall ->]. auto.
  - simpl. intros [= <-]. simpl. apply Nat.ltb_ge in El.
    destruct files; [simpl; auto | simpl in El; lia].
Qed.

Lemma enc_build_stats_inv (g : Graph) (files : list string) (st : Stats) :
  Encapsulated.build_stats g files = Ok st ->
  totalFiles st = List.length files
  /\ avgComplexity st
     = average (list_sum (map (complexity_in (nodes_payload g)) files))
               (List.length files)
  /\ Forall (fun f => hasNode g f = true) files
  /\ mostEdited st = Encapsulated.mostEdited_of g
  /\ clusters st = count_clusters (nodes_payload g).
Proof.
  unfold Encapsulated.build_stats.
  destruct (0 <? List.length files) eqn:El.
  - destruct (sum_complexity g files) as [total |] eqn:Es; simpl;
      [| discriminate].
    intros [= <-]. simpl. apply sum_complexity_ok in Es as [Hall ->]. auto.
  - simpl. intros [= <-]. simpl. apply Nat.ltb_ge in El.
    destruct files; [simpl; auto | simpl in El; lia].
Qed.

Lemma flat_build_inv (env : Env) (root : string)
      (listing : option (list Dirent)) (r : RepoGraph) :
  first_folder env = Some (root, listing) ->
  Flat.buildRepoGraph env = Ok r ->
  exists g st,
    Flat.build_graph env root (Flat.scan env root listing) = Ok g
    /\ Flat.build_stats g (Flat.scan env root listing) = Ok st
    /\ r = mkRepoGraph (nodes_payload g) (edges_payload g) (Some st).
Proof.
  intros Hws. rewrite (flat_build_unfold env Hws).
  destruct (gitignore_loads env root); [| discriminate].
  destruct (Flat.build_graph _ _ _) as [g |] eqn:Eg; simpl;
    [| discriminate].
  destruct (Flat.build_stats _ _) as [st |] eqn:Es; simpl; [| discriminate].
  intros [= <-]. exists g, st. auto.
Qed.

Lemma enc_build_inv (env : Env) (root : string)
      (listing : option (list Dirent)) (r : RepoGraph) :
  first_folder env = Some (root, listing) ->
  Encapsulated.buildRepoGraph env = Ok r ->
  exists g st,
    Encapsulated.build_graph env root (Encapsulated.scan env root listing)
    = Ok g
    /\ Encapsulated.build_stats g (Encapsulated.scan env root listing)
       = Ok st
    /\ r = mkRepoGraph (nodes_payload g) (edges_payload g) (Some st).
Proof.
  intros Hws. rewrite (enc_build_unfold env Hws).
  destruct (gitignore_loads env root); [| discriminate].
  destruct (Encapsulated.build_graph _ _ _) as [g |] eqn:Eg; simpl;
    [| discriminate].
  destruct (Encapsulated.build_stats _ _) as [st |] eqn:Es; simpl;
    [| discriminate].
  intros [= <-]. exists g, st. auto.
Qed.

(** Whatever the builder with folder encapsulation returns has no
    repeated edge pair: the store refuses them. *)
Lemma enc_payload_edges_unique (env : Env) (r : RepoGraph) :
  Encapsulated.buildRepoGraph env = Ok r -> NoDup (edges r).
Proof.
  unfold Encapsulated.buildRepoGraph.
  destruct (workspaceFolders env) as [folders |];
    [| intros [= <-]; constructor].
  destruct (hd_error folders) as [[root listing] |]; [| discriminate].
  destruct (gitignore_loads env root); [| discriminate].
  destruct (Encapsulated.build_graph _ _ _) as [g |] eqn:Eg; simpl;
    [| discriminate].
  destruct (Encapsulated.build_stats _ _) as [st |]; simpl;
    [| discriminate].
  intros [= <-]. simpl. now apply enc_build_graph_inv in Eg as [[_ ?] _].
Qed.

(** The flat builder, whenever it returns, has no repeated edge pair. *)
Lemma flat_payload_edges_unique (env : Env) (r : RepoGraph) :
  Flat.buildRepoGraph env = Ok r -> NoDup (edges r).
Proof.
  unfold Flat.buildRepoGraph.
  destruct (workspaceFolders env) as [folders |];
    [| intros [= <-]; constructor].
  destruct (hd_error folders) as [[root listing] |]; [| discriminate].
  destruct (gitignore_loads env root); [| discriminate].
  destruct (flat_build_graph_returns env root (Flat.scan env root listing))
    as (g & -> & [[_ Hedges] _]). simpl.
  destruct (Flat.build_stats _ _) as [st |]; simpl; [| discriminate].
  now intros [= <-].
Qed.

(** The most-edited list of the builder with folder encapsulation holds
    at most five entries, each the basename and the churn of a scanned
    file with churn; it is the head of a stable sort, churn descending,
    of those files in scan order. *)
Lemma enc_mostEdited_spec (env : Env) (root : string)
      (listing : option (list Dirent)) (r : RepoGraph) (st : Stats) :
  first_folder env = Some (root, listing) ->
  Encapsulated.buildRepoGraph env = Ok r ->
  stats r = Some st ->
  let files := Encapsulated.scan env root listing in
  let edited :=
    map (fun f => (f, Encapsulated.file_node env root f))
        (edited_files env files) in
  List.length (mostEdited st) <= 5
  /\ Forall (fun e => exists f, In f files /\ 0 < commits_for env f
                                /\ e = (Path.basename f, commits_for env f))
            (mostEdited st)
  /\ exists sorted,
      mostEdited st = map edited_entry (firstn 5 sorted)
      /\ Permutation sorted edited
      /\ churn_descending sorted
      /\ forall c, with_churn c sorted = with_churn c edited.
Proof.
  intros Hws Hrun Hst files edited.
  destruct (enc_build_inv env Hws Hrun) as (g & st' & Hg & Hs & ->).
  simpl in Hst. injection Hst as ->.
  apply enc_build_stats_inv in Hs as (_ & _ & _ & Hme & _).
  rewrite Hme, (enc_mostEdited _ _ _ Hg). fold files. fold edited.
  split; [| split].
  - rewrite length_map. apply firstn_le_length.
  - rewrite Forall_forall. intros e He.
    apply in_map_iff in He as (kv & <- & Hkv).
    assert (Hin : In kv edited).
    { apply (Permutation_in _ (sort_by_commits_perm edited)).
      rewrite <- (firstn_skipn 5 (sort_by_commits edited)).
      apply in_or_app. now left. }
    apply in_map_iff in Hin as (f & <- & Hf).
    unfold edited_files in Hf. apply filter_In in Hf as [Hf Hc].
    apply Nat.ltb_lt in Hc. exists f. auto.
  - exists (sort_by_commits edited). split; [reflexivity |].
    split; [apply sort_by_commits_perm |].
    split; [apply sort_by_commits_sorted |].
    intros c. apply sort_by_commits_stable.
Qed.

End Payload.

(* ================================================================== *)
(** * The claims about whole builds *)

(** C1 (the code at the failing inputs): the builder with folder
    encapsulation adds its import and rollup edges without testing for
    them, and the store faults on the second insertion: the build of
    [a.js], which imports [./b.js] twice, faults, and so does the build in
    which [src/x.js] and [src/z.js] both import [lib/y.js].  The flat
    builder returns on both. *)
Theorem C1_repeated_edge_faults :
  Encapsulated.buildRepoGraph Examples.twice = Throw UsageGraphError
  /\ Encapsulated.buildRepoGraph Examples.crossing = Throw UsageGraphError
  /\ (exists r, Flat.buildRepoGraph Examples.twice = Ok r)
  /\ (exists r, Flat.buildRepoGraph Examples.crossing = Ok r
                /\ edges r = [("/repo/src/x.js", "/repo/lib/y.js");
                              ("/repo/src/z.js", "/repo/lib/y.js")]).
Proof.
  split; [vm_compute; reflexivity |].
  split; [vm_compute; reflexivity |].
  split; eexists; [| split]; vm_compute; reflexivity.
Qed.

(** C2 (the code at the scenario): with [a.ts] importing ["./b"] and
    ["left-pad"] next to [b.ts], both builders return the two file nodes
    and no edge at all: ["./b"] is looked up as [./b], [./b.js] and
    [./b.ts] in an index keyed by [b.ts], and no indexed basename is a
    suffix of it. *)
Theorem C2_relative_import_yields_no_edge :
  resolve (Flat.build_index ["/repo/a.ts"; "/repo/b.ts"]) "./b" = None
  /\ (exists r, Flat.buildRepoGraph Examples.scenario = Ok r
                /\ map id (nodes r) = ["/repo/a.ts"; "/repo/b.ts"]
                /\ edges r = [])
  /\ (exists r, Encapsulated.buildRepoGraph Examples.scenario = Ok r
                /\ map id (nodes r) = ["/repo/a.ts"; "/repo/b.ts"]
                /\ edges r = []).
Proof.
  split; [reflexivity |].
  split; eexists; (split; [vm_compute; reflexivity |]); split; reflexivity.
Qed.

(** C3 (the code on a scanned file that cannot be read): the flat builder
    leaves the file out of the graph and then faults in the stats pass, so
    it returns nothing (it faults before that when the root's [.gitignore]
    cannot be read); the builder with folder encapsulation, whenever it
    returns, returns a node for the file, with line count 1 and
    complexity 1. *)
Theorem C3_unreadable_file (env : Env) (root : string)
        (listing : option (list Dirent)) (f : string) :
  first_folder env = Some (root, listing) ->
  In f (walk env root root listing []) ->
  readFileSync env f = None ->
  Flat.buildRepoGraph env
  = Throw (if gitignore_loads env root then NotFoundGraphError
           else FsError)
  /\ (forall r, Encapsulated.buildRepoGraph env = Ok r ->
                exists n, In n (nodes r) /\ id n = f
                          /\ loc n = 1 /\ complexity n = 1).
Proof.
  intros Hws Hin Hread. split.
  - eapply flat_unreadable_faults; eauto.
  - intros r Hrun.
    destruct (enc_build_inv env Hws Hrun) as (g & st & Hg & _ & ->).
    apply enc_build_graph_inv in Hg as (_ & folders & _ & Hn).
    exists (Encapsulated.file_node env root f). simpl. split.
    + unfold nodes_payload. rewrite Hn. apply in_map_iff.
      exists (f, Encapsulated.file_node env root f). split; [reflexivity |].
      apply in_or_app. right. apply in_map_iff. exists f. auto.
    + unfold Encapsulated.content_of. rewrite Hread. auto.
Qed.

Lemma C3_unreadable_file_witness :
  Flat.buildRepoGraph Examples.unreadable = Throw NotFoundGraphError
  /\ exists r n, Encapsulated.buildRepoGraph Examples.unreadable = Ok r
                 /\ In n (nodes r) /\ id n = "/repo/b.ts"
                 /\ loc n = 1 /\ complexity n = 1.
Proof.
  destruct (@C3_unreadable_file Examples.unreadable "/repo"
              (Some [FileEnt "a.ts"; FileEnt "b.ts"]) "/repo/b.ts")
    as [Hflat Henc].
  - reflexivity.
  - vm_compute. auto.
  - reflexivity.
  - split; [exact Hflat |].
    destruct (Encapsulated.buildRepoGraph Examples.unreadable)
      as [r | e] eqn:E.
    + destruct (Henc r eq_refl) as (n & Hn). exists r, n. auto.
    + vm_compute in E. discriminate.
Defined.

(** C7 (the code at the failing input): the flat builder sorts and cuts
    the node list without the churn test, so a file outside version
    control is listed with churn 0; on a versioned tree it lists the file
    without history after the others, where the builder with folder
    encapsulation leaves it out. *)
Theorem C7_flat_lists_files_without_churn :
  (exists r st, Flat.buildRepoGraph Examples.unversioned = Ok r
                /\ stats r = Some st /\ mostEdited st = [("a.ts", 0)])
  /\ (exists r st, Flat.buildRepoGraph Examples.versioned = Ok r
                   /\ stats r = Some st
                   /\ mostEdited st
                      = [("b.ts", 3); ("a.ts", 2); ("c.ts", 2); ("d.ts", 0)])
  /\ (exists r st, Encapsulated.buildRepoGraph Examples.versioned = Ok r
                   /\ stats r = Some st
                   /\ mostEdited st = [("b.ts", 3); ("a.ts", 2); ("c.ts", 2)]).
Proof.
  repeat split; do 2 eexists;
    (split; [vm_compute; reflexivity |]); split; reflexivity.
Qed.

(** C8 (counterexample): with [workspaceFolders] undefined both builders
    return the empty object as stats, so no [totalFiles] and no
    [clusters] is reported. *)
Lemma C8_no_workspace_reports_no_stats :
  Flat.buildRepoGraph Examples.no_workspace = Ok (mkRepoGraph [] [] None)
  /\ Encapsulated.buildRepoGraph Examples.no_workspace
     = Ok (mkRepoGraph [] [] None)
  /\ ~ (exists r st, Flat.buildRepoGraph Examples.no_workspace = Ok r
                     /\ stats r = Some st
                     /\ totalFiles st = 0 /\ clusters st = 0)
  /\ ~ (exists r st, Encapsulated.buildRepoGraph Examples.no_workspace = Ok r
                     /\ stats r = Some st
                     /\ totalFiles st = 0 /\ clusters st = 0).
Proof.
  split; [reflexivity |]. split; [reflexivity |].
  split; intros (r & st & Hrun & Hst & _); inversion Hrun; subst;
    discriminate.
Qed.

(** C8 (amended): with nothing to scan both builders return without a
    fault, with no node and no edge; the stats are the empty object when
    [workspaceFolders] is undefined, and report [totalFiles = 0] and
    [clusters = 0] (with a zero average and an empty most-edited list)
    when the first folder is a root whose [.gitignore] is absent or
    readable and whose walk collects no file. *)
Theorem C8_nothing_to_scan (env : Env) :
  nothing_to_scan env ->
  Flat.buildRepoGraph env = Ok (mkRepoGraph [] [] (stats_when_empty env))
  /\ Encapsulated.buildRepoGraph env
     = Ok (mkRepoGraph [] [] (stats_when_empty env)).
Proof.
  unfold nothing_to_scan, stats_when_empty, Flat.buildRepoGraph,
    Encapsulated.buildRepoGraph, Flat.scan, Encapsulated.scan.
  destruct (workspaceFolders env) as [folders |];
    [| intros _; split; reflexivity].
  destruct (hd_error folders) as [[root listing] |]; [| contradiction].
  intros [-> ->]. split; reflexivity.
Qed.

Lemma C8_nothing_to_scan_witness :
  Flat.buildRepoGraph Examples.no_sources
  = Ok (mkRepoGraph [] [] (Some (mkStats 0 [] 0 0)))
  /\ Encapsulated.buildRepoGraph Examples.no_sources
     = Ok (mkRepoGraph [] [] (Some (mkStats 0 [] 0 0))).
Proof.
  apply (@C8_nothing_to_scan Examples.no_sources).
  vm_compute. split; reflexivity.
Defined.

(** C10 (the code at the failing input): with [b.ts] scanned but
    unreadable, no build returns stats whose [totalFiles] exceeds the
    number of nodes.  The flat builder leaves [b.ts] out of the graph and
    then faults in its stats pass, returning nothing; the builder with
    folder encapsulation makes a node for [b.ts] from the empty content
    and reports two files for two nodes. *)
Theorem C10_unreadable_file_leaves_no_excess :
  In "/repo/b.ts" (scanned Examples.unreadable)
  /\ readFileSync Examples.unreadable "/repo/b.ts" = None
  /\ Flat.buildRepoGraph Examples.unreadable = Throw NotFoundGraphError
  /\ (exists r st, Encapsulated.buildRepoGraph Examples.unreadable = Ok r
                   /\ stats r = Some st
                   /\ totalFiles st = 2 /\ List.length (nodes r) = 2)
  /\ ~ (exists r st, Flat.buildRepoGraph Examples.unreadable = Ok r
                     /\ stats r = Some st
                     /\ List.length (nodes r) < totalFiles st)
  /\ ~ (exists r st, Encapsulated.buildRepoGraph Examples.unreadable = Ok r
                     /\ stats r = Some st
                     /\ List.length (nodes r) < totalFiles st).
Proof.
  split; [vm_compute; auto |]. split; [reflexivity |].
  split; [vm_compute; reflexivity |].
  split.
  { do 2 eexists. split; [vm_compute; reflexivity |].
    split; [reflexivity |]. split; reflexivity. }
  split; intros (r & st & Hrun & Hst & Hlt); vm_compute in Hrun.
  - discriminate.
  - inversion Hrun; subst. simpl in Hst. inversion Hst; subst.
    simpl in Hlt. lia.
Qed.

(* ================================================================== *)
(** * Further properties: the basename index and the resolution *)

Section IndexFacts.

Lemma index_get_set (k v k' : string) (idx : Index) :
  index_get (index_set k v idx) k'
  = if String.eqb k k' then Some v else index_get idx k'.
Proof.
  induction idx as [| [k1 v1] rest IH]; simpl.
  - rewrite String.eqb_sym. now destruct (String.eqb k' k).
  - destruct (String.eqb_spec k1 k) as [-> | Hne]; simpl.
    + now destruct (String.eqb k k').
    + rewrite IH. destruct (String.eqb_spec k1 k') as [-> | Hne'].
      * destruct (String.eqb_spec k k'); [congruence | reflexivity].
      * reflexivity.
Qed.

Lemma index_keys_set (k v : string) (idx : Index) :
  index_keys (index_set k v idx)
  = if existsb (String.eqb k) (index_keys idx) then index_keys idx
    else (index_keys idx ++ [k])%list.
Proof.
  unfold index_keys.
  induction idx as [| [k1 v1] rest IH]; simpl; [reflexivity |].
  rewrite (String.eqb_sym k k1).
  destruct (String.eqb_spec k1 k) as [-> | Hne]; simpl; [reflexivity |].
  rewrite IH. now destruct (existsb (String.eqb k) (map fst rest)).
Qed.

Lemma index_keys_set_NoDup (k v : string) (idx : Index) :
  NoDup (index_keys idx) -> NoDup (index_keys (index_set k v idx)).
Proof.
  intros Hnd. rewrite index_keys_set.
  destruct (existsb (String.eqb k) (index_keys idx)) eqn:E; [assumption |].
  apply NoDup_snoc; [assumption |].
  intros Hin. assert (existsb (String.eqb k) (index_keys idx) = true).
  { apply existsb_exists. exists k. split; [assumption |].
    apply String.eqb_refl. }
  congruence.
Qed.

Lemma find_app {X} (p : X -> bool) (l1 l2 : list X) :
  find p (l1 ++ l2)
  = match find p l1 with Some x => Some x | None => find p l2 end.
Proof.
  induction l1 as [| x l1 IH]; simpl; [reflexivity |].
  now destruct (p x).
Qed.

Lemma build_index_from (files : list string) (idx : Index) (k : string) :
  index_get
    (fold_left (fun idx f => index_set (Path.basename f) f idx) files idx) k
  = match last_with_basename files k with
    | Some f => Some f
    | None => index_get idx k
    end.
Proof.
  unfold last_with_basename. revert idx.
  induction files as [| f files IH]; intros idx; simpl; [reflexivity |].
  rewrite IH, find_app. simpl.
  destruct (find _ (rev files)); [reflexivity |].
  rewrite index_get_set. now destruct (String.eqb (Path.basename f) k).
Qed.

Lemma build_index_entries (files : list string) :
  forall idx,
    Forall (fun kv => In (snd kv) files /\ fst kv = Path.basename (snd kv)) idx ->
    forall done,
      incl done files ->
      Forall (fun kv => In (snd kv) files /\ fst kv = Path.basename (snd kv))
             (fold_left (fun idx f => index_set (Path.basename f) f idx)
                        done idx).
Proof.
  intros idx Hidx done. revert idx Hidx.
  induction done as [| f done IH]; intros idx Hidx Hincl; simpl;
    [assumption |].
  apply IH.
  - clear IH. induction Hidx as [| [k1 v1] rest Hkv Hrest IHrest]; simpl.
    + constructor; [| constructor]. simpl. split; [| reflexivity].
      apply Hincl. now left.
    + destruct (String.eqb k1 (Path.basename f)).
      * constructor; [| assumption]. simpl. split; [| reflexivity].
        apply Hincl. now left.
      * constructor; assumption.
  - intros x Hx. apply Hincl. now right.
Qed.

Lemma build_index_sound (files : list string) (k p : string) :
  In (k, p) (Flat.build_index files) -> In p files /\ k = Path.basename p.
Proof.
  intros Hin. unfold Flat.build_index in Hin.
  pose proof (@build_index_entries files [] (Forall_nil _) files
                (incl_refl files)) as Hall.
  rewrite Forall_forall in Hall. exact (Hall (k, p) Hin).
Qed.

Lemma index_get_In (idx : Index) (k p : string) :
  index_get idx k = Some p -> In (k, p) idx.
Proof.
  induction idx as [| [k1 v1] rest IH]; simpl; [discriminate |].
  destruct (String.eqb_spec k1 k) as [-> | _].
  - intros [= ->]. now left.
  - intros H. right. now apply IH.
Qed.

Lemma or_else_inv (a b : option string) (p : string) :
  (a <||> b) = Some p -> a = Some p \/ b = Some p.
Proof.
  unfold JsString.or_else. destruct (JsString.truthy a); auto.
Qed.

End IndexFacts.

(** X1: the basename index behaves as a JavaScript [Map].  A lookup after
    a [set] gives the value set for that key and the old answer for every
    other key; [set] leaves the keys without repetition, and in their
    order of first insertion: a key already present keeps its place, a new
    one goes last. *)
Theorem index_is_a_map (k v : string) (idx : Index) :
  NoDup (index_keys idx) ->
  index_get (index_set k v idx) k = Some v
  /\ (forall k', k' <> k -> index_get (index_set k v idx) k' = index_get idx k')
  /\ NoDup (index_keys (index_set k v idx))
  /\ (In k (index_keys idx) ->
      index_keys (index_set k v idx) = index_keys idx)
  /\ (~ In k (index_keys idx) ->
      index_keys (index_set k v idx) = (index_keys idx ++ [k])%list).
Proof.
  intros Hnd. split; [| split; [| split; [| split]]].
  - rewrite index_get_set. now rewrite String.eqb_refl.
  - intros k' Hne. rewrite index_get_set.
    destruct (String.eqb_spec k k'); [congruence | reflexivity].
  - now apply index_keys_set_NoDup.
  - intros Hin. rewrite index_keys_set.
    replace (existsb (String.eqb k) (index_keys idx)) with true;
      [reflexivity |].
    symmetry. apply existsb_exists. exists k. split; [assumption |].
    apply String.eqb_refl.
  - intros Hnin. rewrite index_keys_set.
    destruct (existsb (String.eqb k) (index_keys idx)) eqn:E; [| reflexivity].
    exfalso. apply existsb_exists in E as (x & Hx & Heq).
    apply String.eqb_eq in Heq. subst. contradiction.
Qed.

Lemma index_is_a_map_witness :
  index_get (index_set "b.ts" "/repo/lib/b.ts"
               [("a.ts", "/repo/a.ts"); ("b.ts", "/repo/b.ts")]) "b.ts"
  = Some "/repo/lib/b.ts"
  /\ index_keys (index_set "b.ts" "/repo/lib/b.ts"
                   [("a.ts", "/repo/a.ts"); ("b.ts", "/repo/b.ts")])
     = ["a.ts"; "b.ts"].
Proof.
  destruct (@index_is_a_map "b.ts" "/repo/lib/b.ts"
              [("a.ts", "/repo/a.ts"); ("b.ts", "/repo/b.ts")])
    as (Hget & _ & _ & Hkeys & _).
  - repeat constructor; simpl; intuition discriminate.
  - split; [exact Hget |]. apply Hkeys. simpl. auto.
Defined.

(** X2: the index of a scan maps a basename to the last scanned file that
    bears it (last writer wins), and to nothing when no scanned file bears
    it. *)
Theorem build_index_last_writer_wins (files : list string) (k : string) :
  index_get (Flat.build_index files) k = last_with_basename files k.
Proof.
  unfold Flat.build_index. rewrite build_index_from. simpl.
  now destruct (last_with_basename files k).
Qed.

Lemma resolve_hits (files : list string) (dep p : string) :
  resolve (Flat.build_index files) dep = Some p ->
  In p files /\ answers dep p.
Proof.
  unfold resolve, answers. intros H.
  apply or_else_inv in H as [H | H];
    [| apply or_else_inv in H as [H | H];
       [| apply or_else_inv in H as [H | H]]].
  - apply index_get_In, build_index_sound in H as [Hin Hk]. auto.
  - apply index_get_In, build_index_sound in H as [Hin Hk]. auto.
  - apply index_get_In, build_index_sound in H as [Hin Hk]. auto 6.
  - destruct (find _ (Flat.build_index files)) as [[k q] |] eqn:E;
      [| discriminate].
    simpl in H. injection H as ->.
    apply find_some in E as [Hin Hends]. simpl in Hends.
    apply build_index_sound in Hin as [Hin ->]. auto 6.
Qed.

(** X3: whatever a specifier resolves to against the index of a scan is a
    scanned file, and its basename is the specifier itself, the specifier
    with [.js] or [.ts] appended, or a suffix of the specifier. *)
Theorem resolve_sound (files : list string) (dep p : string) :
  resolve (Flat.build_index files) dep = Some p ->
  In p files /\ answers dep p.
Proof. apply resolve_hits. Qed.

Lemma resolve_sound_witness :
  In "/repo/lib/y.js" ["/repo/lib/y.js"; "/repo/src/x.js"]
  /\ answers "../lib/y.js" "/repo/lib/y.js".
Proof.
  apply (@resolve_sound ["/repo/lib/y.js"; "/repo/src/x.js"]
                        "../lib/y.js" "/repo/lib/y.js").
  reflexivity.
Defined.

(* ================================================================== *)
(** * Further properties: colours and metrics *)

Section ColourFacts.

Lemma pick_in_palette (palette : list string) (cluster : string) :
  palette <> [] -> In (pick palette cluster) palette.
Proof.
  intros Hne. unfold pick. apply nth_In.
  assert (0 < List.length palette) by (destruct palette; simpl; [congruence | lia]).
  pose proof (Z.mod_pos_bound (Z.abs (cluster_hash cluster))
                (Z.of_nat (List.length palette))) as Hb.
  lia.
Qed.

Lemma to_int32_range (z : Z) :
  (- 2 ^ 31 <= to_int32 z < 2 ^ 31)%Z.
Proof.
  unfold to_int32.
  pose proof (Z.mod_pos_bound z (2 ^ 32)) as Hb.
  destruct (Z.ltb_spec (z mod 2 ^ 32) (2 ^ 31)); lia.
Qed.

Lemma to_int32_congruent (z : Z) :
  (to_int32 z mod 2 ^ 32 = z mod 2 ^ 32)%Z.
Proof.
  unfold to_int32.
  destruct (Z.ltb_spec (z mod 2 ^ 32) (2 ^ 31)).
  - apply Z.mod_mod. lia.
  - rewrite <- (Z.mod_mod z (2 ^ 32)) at 2 by lia.
    replace (z mod 2 ^ 32 - 2 ^ 32)%Z
      with (z mod 2 ^ 32 + (-1) * 2 ^ 32)%Z by lia.
    apply Z.mod_add. lia.
Qed.

End ColourFacts.

(** X4: the palette lookup of [clusterColor] never falls outside the
    palette, whatever the cluster name and however far the hash has
    wrapped: every revision returns one of its own palette entries. *)
Theorem clusterColor_in_palette (cluster : string) (depth : nat) :
  (exists hex, First.clusterColor cluster = Palette hex
               /\ In hex First.palette)
  /\ (exists hex, Flat.clusterColor cluster = Palette hex
                  /\ In hex Flat.palette)
  /\ (exists hex, Encapsulated.clusterColor cluster depth = Faded hex depth
                  /\ In hex Encapsulated.base).
Proof.
  split; [| split]; eexists; (split; [reflexivity |]);
    apply pick_in_palette; discriminate.
Qed.

Section CodeUnits.

Lemma byte_of_range (c : ascii) : (0 <= byte_of c < 256)%Z.
Proof. unfold byte_of. pose proof (nat_ascii_bounded c). lia. Qed.

Lemma surrogates_are_code_units (cp : Z) :
  code_unit (high_surrogate cp) /\ code_unit (low_surrogate cp).
Proof.
  unfold code_unit, high_surrogate, low_surrogate.
  pose proof (Z.mod_pos_bound ((cp - 65536) / 1024) 1024).
  pose proof (Z.mod_pos_bound cp 1024). lia.
Qed.

Ltac bounds :=
  repeat match goal with
         | H : (_ && _)%bool = true |- _ =>
             apply andb_true_iff in H as [? ?]
         | H : (_ <=? _)%Z = true |- _ => apply Z.leb_le in H
         | H : (_ <? _)%Z = true |- _ => apply Z.ltb_lt in H
         | H : (_ <? _)%Z = false |- _ => apply Z.ltb_ge in H
         end.

Lemma utf16_units_bounds :
  forall n s,
    String.length s <= n ->
    List.length (utf16_units s) <= String.length s
    /\ Forall code_unit (utf16_units s).
Proof.
  induction n as [| n IH]; intros s Hn.
  - destruct s; simpl in Hn; [| lia]. simpl. split; [lia | constructor].
  - destruct s as [| c0 r0]; [simpl; split; [lia | constructor] |].
    simpl in Hn. cbn [utf16_units].
    pose proof (byte_of_range c0) as Hb0.
    destruct (IH r0 ltac:(lia)) as [Hl0 Hf0].
    remember (utf16_units r0) as u0 eqn:Hu0. clear Hu0.
    destruct (byte_of c0 <? 128)%Z eqn:E0; bounds.
    { simpl String.length in *. simpl. split; [lia |]. constructor; [unfold code_unit; lia | easy]. }
    destruct r0 as [| c1 r1].
    { simpl String.length in *. simpl. split; [lia |]. repeat constructor; unfold code_unit; lia. }
    simpl in Hn, Hl0.
    pose proof (byte_of_range c1) as Hb1.
    destruct (IH r1 ltac:(lia)) as [Hl1 Hf1].
    remember (utf16_units r1) as u1 eqn:Hu1. clear Hu1.
    destruct (two_bytes (byte_of c0) (byte_of c1)) eqn:E1.
    { unfold two_bytes, is_continuation in E1. bounds.
      simpl. split; [lia |]. constructor; [unfold code_unit; lia | easy]. }
    destruct r1 as [| c2 r2].
    { simpl String.length in *. simpl. split; [lia |]. constructor; [unfold code_unit; lia | easy]. }
    simpl in Hn, Hl1.
    pose proof (byte_of_range c2) as Hb2.
    destruct (IH r2 ltac:(lia)) as [Hl2 Hf2].
    remember (utf16_units r2) as u2 eqn:Hu2. clear Hu2.
    destruct (three_bytes (byte_of c0) (byte_of c1) (byte_of c2)) eqn:E2.
    { unfold three_bytes, is_continuation in E2. bounds.
      simpl. split; [lia |]. constructor; [unfold code_unit; lia | easy]. }
    destruct r2 as [| c3 r3].
    { simpl String.length in *. simpl. split; [lia |]. constructor; [unfold code_unit; lia | easy]. }
    simpl in Hn, Hl2.
    destruct (IH r3 ltac:(lia)) as [Hl3 Hf3].
    destruct (four_bytes _ _ _ _) eqn:E3.
    + simpl String.length in *. simpl. split; [lia |].
      constructor; [apply surrogates_are_code_units |].
      constructor; [apply surrogates_are_code_units | easy].
    + simpl String.length in *. simpl. split; [lia |]. constructor; [unfold code_unit; lia | easy].
Qed.

Lemma hash_grows_slowly (units : list Z) :
  Forall code_unit units ->
  forall h,
    (Z.abs (fold_left hash_step units h)
     <= Z.abs h + Z.of_nat (List.length units) * (2 ^ 31 + 65535))%Z.
Proof.
  induction 1 as [| u units Hu _ IH]; intros h; simpl fold_left.
  - simpl. lia.
  - specialize (IH (hash_step h u)).
    assert (Hstep : (Z.abs (hash_step h u)
                     <= Z.abs h + (2 ^ 31 + 65535))%Z).
    { unfold hash_step.
      pose proof (to_int32_range (Z.shiftl (to_int32 h) 5)).
      unfold code_unit in Hu. lia. }
    change (List.length (u :: units)) with (S (List.length units)). lia.
Qed.

End CodeUnits.

(** X5: the colour hash stays small.  The hash reads the UTF-16 code
    units of the name, each between 0 and 65535 and no more of them than
    the name has bytes in UTF-8; after each code unit its magnitude has
    grown by at most 2^31 + 65535, so for a name of [n] code units it is
    at most [n * (2^31 + 65535)], far inside the range in which JavaScript
    numbers are exact integers for any name shorter than two million
    code units. *)
Theorem cluster_hash_magnitude (cluster : string) :
  List.length (utf16_units cluster) <= String.length cluster
  /\ Forall code_unit (utf16_units cluster)
  /\ (Z.abs (cluster_hash cluster)
      <= Z.of_nat (List.length (utf16_units cluster)) * (2 ^ 31 + 65535))%Z.
Proof.
  destruct (@utf16_units_bounds (String.length cluster) cluster (le_n _))
    as [Hlen Hunits].
  split; [exact Hlen |]. split; [exact Hunits |].
  unfold cluster_hash.
  pose proof (hash_grows_slowly Hunits 0) as H. simpl Z.abs in H. lia.
Qed.

Section MetricFacts.

Lemma string_length_app (s t : string) :
  String.length (s ++ t) = String.length s + String.length t.
Proof. induction s as [| c s IH]; simpl; [reflexivity | now rewrite IH]. Qed.

Lemma count_newlines_le (s : string) : count_newlines s <= String.length s.
Proof.
  induction s as [| c s IH]; simpl; [lia |].
  destruct (Ascii.eqb c newline); lia.
Qed.

Lemma split_line (c : ascii) (l rest : string) :
  JsString.includes c l = false ->
  JsString.split c (l ++ String c rest) = l :: JsString.split c rest.
Proof.
  induction l as [| a l IH]; simpl; intros Hno.
  - now rewrite Ascii.eqb_refl.
  - apply orb_false_iff in Hno as [Ha Hl]. rewrite Ha, (IH Hl). reflexivity.
Qed.

Lemma strip_prefix_length (tok s rest : string) :
  strip_prefix tok s = Some rest ->
  String.length s = String.length tok + String.length rest.
Proof.
  revert s. induction tok as [| a tok IH]; intros s; simpl.
  - now intros [= ->].
  - destruct s as [| b s]; [discriminate |].
    destruct (Ascii.eqb a b); [| discriminate].
    intros H. simpl. now rewrite (IH _ H).
Qed.

Lemma match_here_length (before : option ascii) (s : string) (n : nat) :
  match_here before s = Some n -> 2 <= n <= String.length s.
Proof.
  unfold match_here. destruct (word_boundary before (head_char s));
    [| discriminate].
  destruct (find _ complexity_tokens) as [tok |] eqn:E; [| discriminate].
  simpl. intros [= <-]. apply find_some in E as [Hin Hm].
  unfold token_matches_here in Hm.
  destruct (strip_prefix tok s) as [rest |] eqn:Es; [| discriminate].
  apply strip_prefix_length in Es. split; [| lia].
  simpl in Hin.
  repeat (destruct Hin as [<- | Hin]; [simpl; lia |]). contradiction.
Qed.

Lemma count_matches_bound (s : string) :
  forall before skip,
    2 * count_matches before skip s + Nat.min skip (String.length s)
    <= String.length s.
Proof.
  induction s as [| c s IH]; intros before skip; simpl; [lia |].
  destruct skip as [| k].
  - destruct (match_here before (String c s)) as [n |] eqn:E.
    + apply match_here_length in E. simpl in E.
      specialize (IH (Some c) (n - 1)). lia.
    + specialize (IH (Some c) 0). lia.
  - specialize (IH (Some c) k). lia.
Qed.

End MetricFacts.

(** X6: line counts add up: the line count of two contents put end to end
    is one less than the sum of their line counts; the line count is at
    least 1 (the empty content has one line) and at most one more than the
    length of the content. *)
Theorem loc_of_concatenation (a b : string) :
  loc_of (a ++ b) + 1 = loc_of a + loc_of b
  /\ 1 <= loc_of a <= String.length a + 1.
Proof.
  rewrite !loc_of_newlines, count_newlines_app.
  pose proof (count_newlines_le a). lia.
Qed.

(** X7: the churn count reads the [git log] output line by line: a line
    followed by a newline counts for one commit when it is not empty and
    for none when it is, on top of what the rest of the output counts. *)
Theorem commits_of_line (line rest : string) :
  JsString.includes newline line = false ->
  commits_of (line ++ String newline rest)
  = (if String.eqb line "" then 0 else 1) + commits_of rest.
Proof.
  intros Hno. unfold commits_of. rewrite split_line by assumption. simpl.
  now destruct (String.eqb line "").
Qed.

Lemma commits_of_line_witness :
  commits_of ("1a2b3c fix walk" ++ String newline "")
  = (if String.eqb "1a2b3c fix walk" "" then 0 else 1) + commits_of "".
Proof.
  apply (@commits_of_line "1a2b3c fix walk" "").
  reflexivity.
Defined.

(** X8: the complexity is bounded by the size of the content: every match
    of the pattern takes at least two characters and matches do not
    overlap, so the complexity is at least 1 and at most 1 plus half the
    length of the content. *)
Theorem complexity_of_bounds (content : string) :
  1 <= complexity_of content <= String.length content / 2 + 1.
Proof.
  unfold complexity_of. split; [lia |].
  pose proof (count_matches_bound content None 0) as Hb.
  rewrite Nat.min_0_l, Nat.add_0_r in Hb.
  assert (count_matches None 0 content <= String.length content / 2).
  { apply Nat.div_le_lower_bound; lia. }
  lia.
Qed.

(* ================================================================== *)
(** * Further properties: what the store keeps, both builders keep *)

Section StableFacts.

Import Graphology.

Variable P : Graph -> Prop.
Hypothesis Hstable : store_stable P.

Lemma flat_add_import_stable (fileIndex : Index) (file dep : string)
      (g g' : Graph) :
  Flat.add_import fileIndex file g dep = Ok g' -> P g -> P g'.
Proof.
  unfold Flat.add_import.
  destruct (resolve fileIndex dep) as [depFile |]; [| intros [= <-]; auto].
  destruct (_ && _); [| intros [= <-]; auto].
  intros H Hp. eapply (proj2 Hstable); eauto.
Qed.

Lemma flat_add_file_stable (env : Env) (root : string) (fileIndex : Index)
      (file : string) (g g' : Graph) :
  Flat.add_file env root fileIndex g file = Ok g' -> P g -> P g'.
Proof.
  unfold Flat.add_file.
  destruct (readFileSync env file) as [content |]; [| intros [= <-]; auto].
  destruct (negb (hasNode g file)).
  - destruct (addNode g file _) as [g1 |] eqn:E; simpl; [| discriminate].
    intros H Hp.
    apply for_of_preserves with (P := P) in H; auto.
    + intros s a s' _ Hs Hstep. eapply flat_add_import_stable; eauto.
    + eapply (proj1 Hstable); eauto.
  - simpl. intros H Hp.
    apply for_of_preserves with (P := P) in H; auto.
    intros s a s' _ Hs Hstep. eapply flat_add_import_stable; eauto.
Qed.

Lemma flat_build_graph_stable (env : Env) (root : string)
      (files : list string) (g : Graph) :
  Flat.build_graph env root files = Ok g -> P empty -> P g.
Proof.
  unfold Flat.build_graph. intros H Hp.
  apply for_of_preserves with (P := P) in H; auto.
  intros s a s' _ Hs Hstep. eapply flat_add_file_stable; eauto.
Qed.

Lemma enc_add_import_stable (root : string) (fileIndex : Index)
      (file fromFolder dep : string) (g g' : Graph) :
  Encapsulated.add_import root fileIndex file fromFolder g dep = Ok g' ->
  P g -> P g'.
Proof.
  unfold Encapsulated.add_import.
  destruct (resolve fileIndex dep) as [depFile |]; [| intros [= <-]; auto].
  destruct (_ && _); [| intros [= <-]; auto].
  destruct (addEdge g file depFile _ _) as [g1 |] eqn:E1; simpl;
    [| discriminate].
  intros H Hp.
  assert (Hp1 : P g1) by (eapply (proj2 Hstable); eauto).
  destruct (_ && _).
  - eapply (proj2 Hstable); eauto.
  - now injection H as <-.
Qed.

Lemma enc_build_graph_stable (env : Env) (root : string)
      (files : list string) (g : Graph) :
  Encapsulated.build_graph env root files = Ok g -> P empty -> P g.
Proof.
  unfold Encapsulated.build_graph.
  destruct (for_of _ (Encapsulated.add_folder root) empty) as [g1 |] eqn:E1;
    simpl; [| discriminate].
  destruct (for_of _ Encapsulated.add_parent_edge g1) as [g2 |] eqn:E2;
    simpl; [| discriminate].
  destruct (for_of files (Encapsulated.add_file env root) (g2, []))
    as [st |] eqn:E3; simpl; [| discriminate].
  intros E4 Hp.
  apply for_of_preserves with (P := P) in E1; auto.
  2: { intros s a s' _ Hs. unfold Encapsulated.add_folder.
       destruct (negb (hasNode s a)); [| now intros [= <-]].
       intros H. eapply (proj1 Hstable); eauto. }
  apply for_of_preserves with (P := P) in E2; auto.
  2: { intros s a s' _ Hs. unfold Encapsulated.add_parent_edge.
       destruct (_ && _); [| now intros [= <-]].
       intros H. eapply (proj2 Hstable); eauto. }
  apply for_of_preserves with (P := fun s => P (fst s)) in E3; auto.
  2: { intros s a s' _ Hs. unfold Encapsulated.add_file.
       destruct (addNode (fst s) a _) as [h1 |] eqn:F1; simpl;
         [| discriminate].
       assert (Hh1 : P h1) by (eapply (proj1 Hstable); eauto).
       destruct (hasNode h1 _).
       - destruct (addEdge h1 _ a _ _) as [h2 |] eqn:F2; simpl;
           [| discriminate].
         intros [= <-]. simpl. eapply (proj2 Hstable); eauto.
       - simpl. now intros [= <-]. }
  apply for_of_preserves with (P := P) in E4; auto.
  intros s a s' _ Hs. unfold Encapsulated.link_file. intros H.
  apply for_of_preserves with (P := P) in H; auto.
  intros t dep t' _ Ht Hstep. eapply enc_add_import_stable; eauto.
Qed.

End StableFacts.

Section GraphFacts.

Import Graphology.

Lemma well_formed_stable : store_stable well_formed.
Proof.
  split; intros.
  - eapply addNode_well_formed; eauto.
  - eapply addEdge_well_formed; eauto.
Qed.

Lemma endpoints_present_stable : store_stable endpoints_present.
Proof.
  unfold endpoints_present. split.
  - intros g g' n attrs H Hp e He.
    apply addNode_inv in H as (_ & Hn & Hes). rewrite Hes in He.
    unfold nodes. rewrite Hn, map_app.
    destruct (Hp e He). split; apply in_or_app; now left.
  - intros g g' a b c w H Hp e He.
    apply addEdge_inv in H as (Ha & Hb & _ & Hn & Hes).
    unfold nodes in *. rewrite Hn. rewrite Hes in He.
    apply in_app_or in He as [He | [<- | []]]; [now apply Hp |].
    simpl. auto.
Qed.

Lemma payload_ids (g : Graph) : map id (nodes_payload g) = nodes g.
Proof.
  unfold nodes_payload, nodes. rewrite map_map. reflexivity.
Qed.

Lemma graph_is_sound (g : Graph) :
  well_formed g -> endpoints_present g ->
  NoDup (map id (nodes_payload g))
  /\ NoDup (edges_payload g)
  /\ (forall a b, In (a, b) (edges_payload g) ->
                  In a (map id (nodes_payload g))
                  /\ In b (map id (nodes_payload g))).
Proof.
  intros [Hn He] Hp. rewrite payload_ids. split; [assumption |].
  split; [assumption |].
  intros a b Hin. unfold edges_payload in Hin.
  apply in_map_iff in Hin as (e & [= <- <-] & Hin). now apply Hp.
Qed.

Lemma empty_endpoints_present : endpoints_present empty.
Proof. intros e []. Qed.

End GraphFacts.

(** X9: the payload of either builder is a simple graph: no node id is
    repeated, no ordered pair is repeated among the edges, and both ends
    of every edge are ids of nodes of the payload. *)
Theorem payload_is_a_simple_graph (env : Env) (r : RepoGraph) :
  Flat.buildRepoGraph env = Ok r \/ Encapsulated.buildRepoGraph env = Ok r ->
  NoDup (map id (nodes r))
  /\ NoDup (edges r)
  /\ (forall a b, In (a, b) (edges r) ->
                  In a (map id (nodes r)) /\ In b (map id (nodes r))).
Proof.
  assert (Hempty : forall r0, r0 = mkRepoGraph [] [] None ->
            NoDup (map id (nodes r0)) /\ NoDup (edges r0)
            /\ (forall a b, In (a, b) (edges r0) ->
                  In a (map id (nodes r0)) /\ In b (map id (nodes r0)))).
  { intros r0 ->. simpl. repeat split; try constructor; contradiction. }
  intros [Hrun | Hrun].
  - destruct (first_folder env) as [[root listing] |] eqn:Hws.
    + destruct (flat_build_inv env Hws Hrun) as (g & st & Hg & _ & ->).
      simpl. apply graph_is_sound.
      * apply (flat_build_graph_stable well_formed_stable _ _ _ Hg).
        apply empty_well_formed.
      * apply (flat_build_graph_stable endpoints_present_stable _ _ _ Hg).
        apply empty_endpoints_present.
    + apply Hempty. now apply (flat_build_no_folder_inv env).
  - destruct (first_folder env) as [[root listing] |] eqn:Hws.
    + destruct (enc_build_inv env Hws Hrun) as (g & st & Hg & _ & ->).
      simpl. apply graph_is_sound.
      * apply (enc_build_graph_stable well_formed_stable _ _ _ Hg).
        apply empty_well_formed.
      * apply (enc_build_graph_stable endpoints_present_stable _ _ _ Hg).
        apply empty_endpoints_present.
    + apply Hempty. now apply (enc_build_no_folder_inv env).
Qed.

Lemma payload_is_a_simple_graph_witness :
  exists r, Flat.buildRepoGraph Examples.crossing = Ok r
            /\ NoDup (edges r)
            /\ In "/repo/lib/y.js" (map id (nodes r)).
Proof.
  destruct (Flat.buildRepoGraph Examples.crossing) as [r | e] eqn:E;
    [| vm_compute in E; discriminate].
  destruct (@payload_is_a_simple_graph Examples.crossing r)
    as (_ & Hedges & Hends).
  - left. exact E.
  - exists r. split; [reflexivity |]. split; [exact Hedges |].
    apply (Hends "/repo/src/x.js" "/repo/lib/y.js").
    vm_compute in E. injection E as <-. simpl. auto.
Defined.

(* ================================================================== *)
(** * Further properties: the flat builder *)

Section FlatFacts.

Import Graphology.

Variable env : Env.
Variable root : string.

Lemma flat_add_import_nodes (fileIndex : Index) (file dep : string)
      (g g' : Graph) :
  Flat.add_import fileIndex file g dep = Ok g' -> g_nodes g' = g_nodes g.
Proof.
  unfold Flat.add_import.
  destruct (resolve fileIndex dep) as [depFile |]; [| now intros [= <-]].
  destruct (_ && _); [| now intros [= <-]].
  apply addEdge_keeps_nodes.
Qed.

Lemma flat_imports_nodes (fileIndex : Index) (file : string)
      (imports : list string) (g g' : Graph) :
  for_of imports (Flat.add_import fileIndex file) g = Ok g' ->
  g_nodes g' = g_nodes g.
Proof.
  intros H.
  apply for_of_preserves with (P := fun s => g_nodes s = g_nodes g) in H;
    auto.
  intros s a s' _ Hs Hstep. apply flat_add_import_nodes in Hstep. congruence.
Qed.

(** What one iteration of the file loop does to the node list. *)
Lemma flat_add_file_nodes (fileIndex : Index) (file : string)
      (g g' : Graph) :
  Flat.add_file env root fileIndex g file = Ok g' ->
  match readFileSync env file with
  | None => g' = g
  | Some content =>
      g_nodes g'
      = if hasNode g file then g_nodes g
        else (g_nodes g ++ [(file, Flat.file_node env root file content)])%list
  end.
Proof.
  unfold Flat.add_file.
  destruct (readFileSync env file) as [content |]; [| now intros [= <-]].
  destruct (hasNode g file) eqn:En; simpl.
  - apply flat_imports_nodes.
  - destruct (addNode g file _) as [g1 |] eqn:E1; simpl; [| discriminate].
    intros H. apply flat_imports_nodes in H. rewrite H.
    now apply addNode_inv in E1.
Qed.

Lemma flat_add_file_grows (fileIndex : Index) (file : string)
      (g g' : Graph) :
  Flat.add_file env root fileIndex g file = Ok g' ->
  incl (nodes g) (nodes g')
  /\ incl (nodes g') (file :: nodes g)
  /\ (readFileSync env file <> None -> In file (nodes g')).
Proof.
  intros H. apply flat_add_file_nodes in H.
  destruct (readFileSync env file) as [content |].
  - unfold nodes. rewrite H.
    destruct (hasNode g file) eqn:En.
    + apply hasNode_In in En. unfold nodes in En.
      repeat split; auto using incl_refl, incl_tl.
    + rewrite map_app. simpl. repeat split.
      * apply incl_appl, incl_refl.
      * intros x Hx. apply in_app_or in Hx as [Hx | [<- | []]];
          [now right | now left].
      * intros _. apply in_or_app. right. now left.
  - subst g'. repeat split; auto using incl_refl, incl_tl. congruence.
Qed.

Lemma flat_nodes_scanned (files : list string) (g : Graph) :
  Flat.build_graph env root files = Ok g -> incl (nodes g) files.
Proof.
  unfold Flat.build_graph. intros H.
  apply for_of_preserves with (P := fun s => incl (nodes s) files) in H;
    auto.
  - intros s a s' Ha Hs Hstep.
    apply flat_add_file_grows in Hstep as (_ & Hup & _).
    intros x Hx. apply Hup in Hx as [<- | Hx]; auto.
  - intros x [].
Qed.

Lemma flat_loop_covers (fileIndex : Index) (files : list string) :
  forall g g',
    for_of files (Flat.add_file env root fileIndex) g = Ok g' ->
    incl (nodes g) (nodes g')
    /\ forall f, In f files -> readFileSync env f <> None ->
                 In f (nodes g').
Proof.
  induction files as [| f0 files IH]; simpl; intros g g' H.
  - injection H as <-. split; [apply incl_refl | contradiction].
  - destruct (Flat.add_file env root fileIndex g f0) as [g1 |] eqn:E;
      simpl in H; [| discriminate].
    apply flat_add_file_grows in E as (Hup & _ & Hin).
    apply IH in H as [Hup' Hcov]. split.
    + eapply incl_tran; eauto.
    + intros f [<- | Hf] Hread; auto.
Qed.

Lemma imports_of_In (file content dep : string) :
  In dep (imports_of env file content) ->
  ext_test parseable_exts file = true
  /\ exists deps, babelImports env content = Some deps /\ In dep deps.
Proof.
  unfold imports_of.
  destruct (ext_test parseable_exts file); [| contradiction].
  destruct (babelImports env content) as [deps |]; [| contradiction].
  eauto.
Qed.

Lemma flat_add_import_edges (fileIndex : Index) (file dep : string)
      (g g' : Graph) :
  Flat.add_import fileIndex file g dep = Ok g' ->
  g_edges g' = g_edges g
  \/ exists depFile c w,
      resolve fileIndex dep = Some depFile
      /\ In depFile (nodes g)
      /\ g_edges g' = (g_edges g ++ [mkEdge file depFile c w])%list.
Proof.
  unfold Flat.add_import.
  destruct (resolve fileIndex dep) as [depFile |]; [| intros [= <-]; auto].
  destruct (_ && _); [| intros [= <-]; auto].
  intros H. apply addEdge_inv in H as (_ & Hb & _ & _ & He).
  right. eauto 6.
Qed.

Lemma flat_edges_sound (files : list string) (g : Graph) :
  Flat.build_graph env root files = Ok g ->
  Forall (flat_edge_ok env (Flat.build_index files)) (g_edges g).
Proof.
  unfold Flat.build_graph. intros H.
  apply for_of_preserves
    with (P := fun s => Forall (flat_edge_ok env (Flat.build_index files))
                               (g_edges s)) in H; auto.
  intros s file s' _ Hs. unfold Flat.add_file.
  destruct (readFileSync env file) as [content |] eqn:Eread;
    [| now intros [= <-]].
  assert (Hloop : forall h h',
    Forall (flat_edge_ok env (Flat.build_index files)) (g_edges h) ->
    for_of (imports_of env file content)
           (Flat.add_import (Flat.build_index files) file) h = Ok h' ->
    Forall (flat_edge_ok env (Flat.build_index files)) (g_edges h')).
  { intros h h' Hh Hrun.
    apply for_of_preserves
      with (P := fun t => Forall (flat_edge_ok env (Flat.build_index files))
                                 (g_edges t)) in Hrun; auto.
    intros t dep t' Hdep Ht Hstep.
    apply flat_add_import_edges in Hstep
      as [-> | (depFile & c & w & Hres & _ & ->)]; [assumption |].
    apply Forall_app. split; [assumption |].
    constructor; [| constructor].
    apply imports_of_In in Hdep as (Hext & deps & Hparse & Hin).
    exists content, deps, dep. simpl. auto. }
  destruct (negb (hasNode s file)).
  - destruct (addNode s file _) as [s1 |] eqn:E1; simpl; [| discriminate].
    apply Hloop. apply addNode_inv in E1 as (_ & _ & ->). assumption.
  - simpl. now apply Hloop.
Qed.

End FlatFacts.

(** X10: every node of the flat builder's payload is the node of a scanned
    file that could be read; its metrics are those of the content read (at
    least one line, complexity at least 1), its churn that of the file,
    its label the basename of its id and its path the id itself. *)
Theorem flat_nodes_are_scanned_files (env : Env) (root : string)
        (listing : option (list Dirent)) (r : RepoGraph) (n : NodeData) :
  first_folder env = Some (root, listing) ->
  Flat.buildRepoGraph env = Ok r ->
  In n (nodes r) ->
  In (id n) (walk env root root listing [])
  /\ exists content,
      readFileSync env (id n) = Some content
      /\ loc n = loc_of content /\ 1 <= loc n
      /\ complexity n = complexity_of content /\ 1 <= complexity n
      /\ commits n = commits_for env (id n)
      /\ label n = Path.basename (id n)
      /\ path n = id n.
Proof.
  intros Hws Hrun Hn.
  destruct (flat_build_inv env Hws Hrun) as (g & st & Hg & _ & ->).
  simpl in Hn. unfold nodes_payload in Hn.
  apply in_map_iff in Hn as (kv & <- & Hkv). simpl.
  destruct (flat_build_graph_returns env root (Flat.scan env root listing))
    as (g0 & Hg0 & _ & Hall).
  rewrite Hg in Hg0. injection Hg0 as <-.
  rewrite Forall_forall in Hall. destruct (Hall kv Hkv) as (content & Hr & ->).
  split.
  - apply (flat_nodes_scanned env root _ Hg).
    unfold Graphology.nodes. now apply in_map.
  - exists content. simpl.
    pose proof (loc_of_positive content).
    pose proof (complexity_of_positive content). auto 10.
Qed.

Lemma flat_nodes_are_scanned_files_witness :
  exists r n, Flat.buildRepoGraph Examples.versioned = Ok r
              /\ In n (nodes r) /\ id n = "/repo/b.ts"
              /\ commits n = 3 /\ label n = "b.ts" /\ 1 <= loc n.
Proof.
  destruct (Flat.buildRepoGraph Examples.versioned) as [r | e] eqn:E;
    [| vm_compute in E; discriminate].
  assert (Hin : In (Flat.file_node Examples.versioned "/repo" "/repo/b.ts"
                                   Examples.b_ts) (nodes r)).
  { vm_compute in E. injection E as <-. vm_compute. auto. }
  destruct (@flat_nodes_are_scanned_files Examples.versioned "/repo"
              (Some [FileEnt "a.ts"; FileEnt "b.ts"; FileEnt "c.ts";
                     DirEnt "docs" (Some [FileEnt "d.ts"])]) r _
              eq_refl E Hin)
    as (_ & content & _ & _ & Hloc & _ & _ & Hc & Hl & _).
  eexists r, _. split; [reflexivity |]. split; [exact Hin |].
  split; [reflexivity |]. split; [exact Hc |]. split; [exact Hl | exact Hloc].
Defined.

(** When the flat builder returns. *)
Lemma flat_returns_exactly_when (env : Env) (root : string)
        (listing : option (list Dirent)) :
  first_folder env = Some (root, listing) ->
  (exists r, Flat.buildRepoGraph env = Ok r)
  <-> gitignore_loads env root = true
      /\ (forall f, In f (walk env root root listing []) ->
                    readFileSync env f <> None).
Proof.
  intros Hws. split.
  - intros [r Hrun]. split.
    + rewrite (flat_build_unfold env Hws) in Hrun.
      destruct (gitignore_loads env root); [reflexivity | discriminate].
    + intros f Hf Hread.
      rewrite (@flat_unreadable_faults env root listing f Hws Hf Hread)
        in Hrun.
      discriminate.
  - intros [Hload Hall]. rewrite (flat_build_unfold env Hws), Hload.
    destruct (flat_build_graph_returns env root (Flat.scan env root listing))
      as (g & Hg & _). rewrite Hg. simpl.
    assert (Hnodes : Forall (fun f => Graphology.hasNode g f = true)
                            (Flat.scan env root listing)).
    { rewrite Forall_forall. intros f Hf. apply hasNode_In.
      unfold Flat.build_graph in Hg.
      apply flat_loop_covers in Hg as [_ Hcov]. apply Hcov; auto. }
    unfold Flat.build_stats.
    destruct (sum_complexity_returns g Hnodes) as [total ->].
    destruct (0 <? _); simpl; eauto.
Qed.

(** X11: on a workspace folder, the flat builder returns exactly when the
    root's [.gitignore] is absent or can be read and every scanned file
    can be read: the read of [.gitignore] is outside any [try], the node
    and edge loops never fault, and the stats pass faults on the first
    scanned path that has no node. *)
Theorem flat_returns_iff_all_read (env : Env) (root : string)
        (listing : option (list Dirent)) :
  first_folder env = Some (root, listing) ->
  (exists r, Flat.buildRepoGraph env = Ok r)
  <-> gitignore_loads env root = true
      /\ (forall f, In f (walk env root root listing []) ->
                    readFileSync env f <> None).
Proof. exact (@flat_returns_exactly_when env root listing). Qed.

Lemma flat_returns_iff_all_read_witness :
  (exists r, Flat.buildRepoGraph Examples.with_gitignore = Ok r)
  /\ (exists r, Flat.buildRepoGraph Examples.scenario = Ok r)
  /\ ~ (exists r, Flat.buildRepoGraph Examples.unreadable = Ok r)
  /\ ~ (exists r, Flat.buildRepoGraph Examples.unreadable_gitignore = Ok r).
Proof.
  split; [| split; [| split]].
  - apply (@flat_returns_iff_all_read Examples.with_gitignore "/repo"
             (Some [FileEnt ".gitignore"; FileEnt "a.ts"]) eq_refl).
    split; [reflexivity |].
    intros f Hf. vm_compute in Hf.
    destruct Hf as [<- | []]; discriminate.
  - apply (@flat_returns_iff_all_read Examples.scenario "/repo"
             (Some [FileEnt "a.ts"; FileEnt "b.ts"]) eq_refl).
    split; [reflexivity |].
    intros f Hf. vm_compute in Hf.
    destruct Hf as [<- | [<- | []]]; discriminate.
  - intros Hret.
    pose proof (proj1 (@flat_returns_iff_all_read Examples.unreadable "/repo"
                         (Some [FileEnt "a.ts"; FileEnt "b.ts"]) eq_refl)
                      Hret) as [_ Hall].
    apply (Hall "/repo/b.ts"); [vm_compute; auto | reflexivity].
  - intros Hret.
    pose proof (proj1 (@flat_returns_iff_all_read
                         Examples.unreadable_gitignore "/repo"
                         (Some [FileEnt ".gitignore"; FileEnt "a.ts"])
                         eq_refl)
                      Hret) as [Hload _].
    vm_compute in Hload. discriminate.
Defined.

(** X12: every edge of the flat builder's payload comes from an import:
    its source is a file that was read, whose name has a parseable
    extension and whose parse succeeded, and one of the specifiers of that
    parse resolves, against the index of the scan, to its target, a
    scanned file.  A file that is not parseable, or whose parse throws,
    has no outgoing edge. *)
Theorem flat_edges_come_from_imports (env : Env) (root : string)
        (listing : option (list Dirent)) (r : RepoGraph) (a b : string) :
  first_folder env = Some (root, listing) ->
  Flat.buildRepoGraph env = Ok r ->
  In (a, b) (edges r) ->
  let files := walk env root root listing [] in
  exists content deps dep,
    readFileSync env a = Some content
    /\ ext_test parseable_exts a = true
    /\ babelImports env content = Some deps
    /\ In dep deps
    /\ resolve (Flat.build_index files) dep = Some b
    /\ In b files.
Proof.
  intros Hws Hrun Hin files.
  destruct (flat_build_inv env Hws Hrun) as (g & st & Hg & _ & ->).
  simpl in Hin. unfold edges_payload in Hin.
  apply in_map_iff in Hin as (e & [= <- <-] & He).
  pose proof (flat_edges_sound env root _ Hg) as Hall.
  rewrite Forall_forall in Hall.
  destruct (Hall e He) as (content & deps & dep & H1 & H2 & H3 & H4 & H5).
  exists content, deps, dep. repeat split; try assumption.
  now apply resolve_hits in H5.
Qed.

Lemma flat_edges_come_from_imports_witness :
  exists content deps dep,
    readFileSync Examples.crossing "/repo/src/x.js" = Some content
    /\ ext_test parseable_exts "/repo/src/x.js" = true
    /\ babelImports Examples.crossing content = Some deps
    /\ In dep deps
    /\ resolve (Flat.build_index
                  (walk Examples.crossing "/repo" "/repo"
                        (Some [DirEnt "lib" (Some [FileEnt "y.js"]);
                               DirEnt "src" (Some [FileEnt "x.js";
                                                   FileEnt "z.js"])]) []))
               dep = Some "/repo/lib/y.js"
    /\ In "/repo/lib/y.js"
          (walk Examples.crossing "/repo" "/repo"
                (Some [DirEnt "lib" (Some [FileEnt "y.js"]);
                       DirEnt "src" (Some [FileEnt "x.js";
                                           FileEnt "z.js"])]) []).
Proof.
  destruct (Flat.buildRepoGraph Examples.crossing) as [r | e] eqn:E;
    [| vm_compute in E; discriminate].
  apply (@flat_edges_come_from_imports Examples.crossing "/repo" _ r
           "/repo/src/x.js" "/repo/lib/y.js" eq_refl E).
  vm_compute in E. injection E as <-. simpl. auto.
Defined.

Section FlatOrder.

Import Graphology.

Variable env : Env.
Variable root : string.

Lemma not_after_snoc (done : list string) (b a f : string) :
  not_after done b a -> not_after (done ++ [f]) b a.
Proof.
  intros (before & after & -> & Hin).
  exists before, (after ++ [f])%list. split; [| assumption].
  now rewrite <- app_assoc.
Qed.

Lemma flat_imports_edges (fileIndex : Index) (file : string)
      (imports : list string) (g g' : Graph) :
  for_of imports (Flat.add_import fileIndex file) g = Ok g' ->
  forall e, In e (g_edges g') ->
            In e (g_edges g) \/ (from e = file /\ In (to e) (nodes g)).
Proof.
  intros H.
  apply for_of_preserves
    with (P := fun s => g_nodes s = g_nodes g
                        /\ forall e, In e (g_edges s) ->
                                     In e (g_edges g)
                                     \/ (from e = file /\ In (to e) (nodes g)))
    in H; [now apply H | | auto].
  intros s dep s' _ [Hn Hs] Hstep.
  pose proof Hstep as Hn'. apply flat_add_import_nodes in Hn'.
  split; [congruence |].
  apply flat_add_import_edges in Hstep
    as [-> | (depFile & c & w & _ & Hdep & ->)]; [assumption |].
  intros e He. apply in_app_or in He as [He | [<- | []]]; [auto |].
  right. simpl. split; [reflexivity |].
  unfold nodes in *. now rewrite <- Hn.
Qed.

Lemma flat_loop_order (fileIndex : Index) (todo : list string) :
  forall done g g',
    NoDup (done ++ todo) ->
    incl (nodes g) done ->
    (forall e, In e (g_edges g) -> not_after done (to e) (from e)) ->
    for_of todo (Flat.add_file env root fileIndex) g = Ok g' ->
    forall e, In e (g_edges g') -> not_after (done ++ todo) (to e) (from e).
Proof.
  induction todo as [| f todo IH]; simpl; intros done g g' Hnd Hincl He H.
  - injection H as <-. now rewrite app_nil_r.
  - destruct (Flat.add_file env root fileIndex g f) as [g1 |] eqn:E;
      simpl in H; [| discriminate].
    replace (done ++ f :: todo)%list with ((done ++ [f]) ++ todo)%list in *
      by (now rewrite <- app_assoc).
    assert (Hfresh : hasNode g f = false).
    { apply hasNode_not_In. intros Hin. apply Hincl in Hin.
      apply NoDup_app_remove_r in Hnd.
      apply NoDup_remove_2 in Hnd. rewrite app_nil_r in Hnd. contradiction. }
    apply (IH (done ++ [f])%list g1); try assumption.
    + pose proof E as Egrow.
      apply flat_add_file_grows in Egrow as (_ & Hup & _).
      intros x Hx. apply Hup in Hx as [<- | Hx];
        apply in_or_app; [right; now left | left; auto].
    + unfold Flat.add_file in E.
      destruct (readFileSync env f) as [content |].
      * rewrite Hfresh in E. simpl in E.
        destruct (addNode g f _) as [g0 |] eqn:E0; simpl in E;
          [| discriminate].
        apply addNode_inv in E0 as (_ & Hn0 & He0).
        intros e Hin.
        pose proof (@flat_imports_edges _ _ _ _ _ E e Hin)
          as [Hin' | [Hfrom Hto]].
        -- rewrite He0 in Hin'. apply not_after_snoc. auto.
        -- rewrite Hfrom. exists done, []. split; [reflexivity |].
           unfold nodes in Hto. rewrite Hn0, map_app in Hto. simpl in Hto.
           apply in_app_or in Hto as [Hto | Hto];
             apply in_or_app; [left; now apply Hincl | now right].
      * injection E as <-. intros e Hin. apply not_after_snoc. auto.
Qed.

Lemma list_sum_at_least {X} (w : X -> nat) (l : list X) :
  (forall x, In x l -> 1 <= w x) -> List.length l <= list_sum (map w l).
Proof.
  induction l as [| x l IH]; simpl; intros H; [lia |].
  specialize (H x (or_introl eq_refl)) as Hx.
  assert (List.length l <= list_sum (map w l)) by (apply IH; auto). lia.
Qed.

Lemma average_at_least_one (total n : nat) :
  0 < n -> n <= total -> (1 <= average total n)%Q.
Proof.
  intros Hn Hle. unfold average.
  destruct (Nat.eqb_spec n 0) as [-> | Hne]; [lia |].
  unfold Qle. cbn [Qnum Qden].
  rewrite Z.mul_1_l, Z.mul_1_r.
  rewrite <- (Nat2Pos.id n Hne) in Hle.
  rewrite <- positive_nat_Z. lia.
Qed.

Lemma flat_complexity_in (g : Graph) (f : string) :
  flat_inv env root g -> hasNode g f = true ->
  1 <= complexity_in (nodes_payload g) f.
Proof.
  intros [_ Hall] Hn. unfold complexity_in, nodes_payload, hasNode, nodes in *.
  induction (g_nodes g) as [| kv l IH]; simpl in *; [discriminate |].
  inversion Hall as [| ? ? Hkv Hrest]; subst.
  destruct (String.eqb f (fst kv)); simpl.
  - destruct Hkv as (content & _ & ->). simpl.
    apply complexity_of_positive.
  - now apply IH.
Qed.

End FlatOrder.

(** X13: the flat builder never links a file to a file scanned after it:
    when the scanned paths are distinct, the target of every edge is the
    source itself or a path scanned before the source, because an edge is
    only added to a target that is already a node. *)
Theorem flat_never_links_forward (env : Env) (root : string)
        (listing : option (list Dirent)) (r : RepoGraph) (a b : string) :
  first_folder env = Some (root, listing) ->
  NoDup (walk env root root listing []) ->
  Flat.buildRepoGraph env = Ok r ->
  In (a, b) (edges r) ->
  not_after (walk env root root listing []) b a.
Proof.
  intros Hws Hnd Hrun Hin.
  destruct (flat_build_inv env Hws Hrun) as (g & st & Hg & _ & ->).
  simpl in Hin. unfold edges_payload in Hin.
  apply in_map_iff in Hin as (e & [= <- <-] & He).
  unfold Flat.build_graph, Flat.scan in Hg.
  apply (@flat_loop_order env root
           (Flat.build_index (walk env root root listing []))
           (walk env root root listing []) [] Graphology.empty g); auto.
  - intros x [].
  - intros x [].
Qed.

Lemma flat_never_links_forward_witness :
  not_after ["/repo/lib/y.js"; "/repo/src/x.js"; "/repo/src/z.js"]
            "/repo/lib/y.js" "/repo/src/x.js".
Proof.
  destruct (Flat.buildRepoGraph Examples.crossing) as [r | e] eqn:E;
    [| vm_compute in E; discriminate].
  apply (@flat_never_links_forward Examples.crossing "/repo"
           (Some [DirEnt "lib" (Some [FileEnt "y.js"]);
                  DirEnt "src" (Some [FileEnt "x.js"; FileEnt "z.js"])])
           r "/repo/src/x.js" "/repo/lib/y.js" eq_refl).
  - vm_compute. repeat constructor; simpl; intuition discriminate.
  - exact E.
  - vm_compute in E. injection E as <-. simpl. auto.
Defined.

(** X14: when the flat builder returns for a scan that is not empty, the
    average complexity it reports is at least 1: every scanned file has a
    node, and every node a complexity of at least 1. *)
Theorem flat_average_at_least_one (env : Env) (root : string)
        (listing : option (list Dirent)) (r : RepoGraph) (st : Stats) :
  first_folder env = Some (root, listing) ->
  walk env root root listing [] <> [] ->
  Flat.buildRepoGraph env = Ok r ->
  stats r = Some st ->
  (1 <= avgComplexity st)%Q.
Proof.
  intros Hws Hne Hrun Hst.
  destruct (flat_build_inv env Hws Hrun) as (g & st' & Hg & Hs & ->).
  simpl in Hst. injection Hst as ->.
  apply flat_build_stats_inv in Hs as (_ & -> & Hall & _).
  destruct (flat_build_graph_returns env root (Flat.scan env root listing))
    as (g0 & Hg0 & Hinv).
  rewrite Hg in Hg0. injection Hg0 as <-.
  change (walk env root root listing []) with (Flat.scan env root listing)
    in Hne.
  remember (Flat.scan env root listing) as files eqn:Hfiles.
  clear Hfiles Hrun.
  assert (Hsum : List.length files
                 <= list_sum (map (complexity_in (nodes_payload g)) files)).
  { apply list_sum_at_least. intros f Hf.
    rewrite Forall_forall in Hall.
    apply (@flat_complexity_in env root g f Hinv). now apply Hall. }
  apply average_at_least_one; [| assumption].
  destruct files; [now elim Hne | simpl; lia].
Qed.

Lemma flat_average_at_least_one_witness :
  exists r st, Flat.buildRepoGraph Examples.versioned = Ok r
               /\ stats r = Some st /\ (1 <= avgComplexity st)%Q.
Proof.
  destruct (Flat.buildRepoGraph Examples.versioned) as [r | e] eqn:E;
    [| vm_compute in E; discriminate].
  destruct (stats r) as [st |] eqn:Es;
    [| vm_compute in E; injection E as <-; discriminate].
  exists r, st. split; [reflexivity |]. split; [exact Es |].
  apply (@flat_average_at_least_one Examples.versioned "/repo"
           (Some [FileEnt "a.ts"; FileEnt "b.ts"; FileEnt "c.ts";
                  DirEnt "docs" (Some [FileEnt "d.ts"])]) r st eq_refl).
  - vm_compute. discriminate.
  - exact E.
  - exact Es.
Defined.

(* ================================================================== *)
(** * Further properties: the most-edited list *)

Section MostEdited.

Lemma filter_map_swap {X Y} (f : X -> Y) (p : Y -> bool) (l : list X) :
  filter p (map f l) = map f (filter (fun x => p (f x)) l).
Proof.
  induction l as [| x l IH]; simpl; [reflexivity |].
  destruct (p (f x)); simpl; now rewrite IH.
Qed.

Lemma entries_of_sorted (l : list (string * NodeData)) :
  churn_descending l -> entries_descending (map edited_entry l).
Proof.
  unfold churn_descending, entries_descending.
  induction 1 as [| x l Hl IH Hx]; simpl; constructor; [assumption |].
  rewrite Forall_forall in *. intros y Hy.
  apply in_map_iff in Hy as (z & <- & Hz). simpl. now apply Hx.
Qed.

Lemma payload_entries (g : Graph) :
  map entry_of (nodes_payload g) = map edited_entry (g_nodes g).
Proof. unfold nodes_payload. rewrite map_map. reflexivity. Qed.

End MostEdited.

(** X15: the most-edited list of the flat builder is the first five
    entries of a stable sort, churn descending, of the label and churn of
    every node of the payload: it has five entries, or as many as there
    are nodes when there are fewer, and entries of equal churn keep the
    order of the nodes. *)
Theorem flat_mostEdited_spec (env : Env) (r : RepoGraph) (st : Stats) :
  Flat.buildRepoGraph env = Ok r ->
  stats r = Some st ->
  exists sorted,
    mostEdited st = firstn 5 sorted
    /\ Permutation sorted (map entry_of (nodes r))
    /\ entries_descending sorted
    /\ (forall c, entries_with c sorted
                  = entries_with c (map entry_of (nodes r)))
    /\ List.length (mostEdited st) = Nat.min 5 (List.length (nodes r)).
Proof.
  intros Hrun Hst.
  destruct (first_folder env) as [[root listing] |] eqn:Hws.
  2: { rewrite (flat_build_no_folder_inv env Hws Hrun) in Hst.
       discriminate. }
  destruct (flat_build_inv env Hws Hrun) as (g & st' & _ & Hs & ->).
  simpl in Hst. injection Hst as ->. simpl nodes.
  apply flat_build_stats_inv in Hs as (_ & _ & _ & -> & _).
  unfold Flat.mostEdited_of. rewrite payload_entries.
  exists (map edited_entry (sort_by_commits (g_nodes g))).
  split; [symmetry; apply firstn_map |].
  split; [apply Permutation_map, sort_by_commits_perm |].
  split; [apply entries_of_sorted, sort_by_commits_sorted |].
  split.
  - intros c. unfold entries_with. rewrite !filter_map_swap. f_equal.
    apply (sort_by_commits_stable c).
  - rewrite length_map, length_firstn.
    rewrite (Permutation_length (sort_by_commits_perm (g_nodes g))).
    unfold nodes_payload. now rewrite length_map.
Qed.

Lemma flat_mostEdited_spec_witness :
  exists r st sorted,
    Flat.buildRepoGraph Examples.versioned = Ok r
    /\ stats r = Some st
    /\ mostEdited st = firstn 5 sorted
    /\ entries_descending sorted
    /\ List.length (mostEdited st) = Nat.min 5 (List.length (nodes r)).
Proof.
  destruct (Flat.buildRepoGraph Examples.versioned) as [r | e] eqn:E;
    [| vm_compute in E; discriminate].
  destruct (stats r) as [st |] eqn:Es;
    [| vm_compute in E; injection E as <-; discriminate].
  destruct (@flat_mostEdited_spec Examples.versioned r st E Es)
    as (sorted & H1 & _ & H3 & _ & H5).
  exists r, st, sorted. auto.
Defined.

(* ================================================================== *)
(** * Further properties: the builder with folder encapsulation *)

Section FolderFacts.

Import Graphology.

Variable env : Env.
Variable root : string.

Lemma set_add_In (x y : string) (s : list string) :
  In y (Encapsulated.set_add x s) <-> y = x \/ In y s.
Proof.
  unfold Encapsulated.set_add.
  destruct (existsb (String.eqb x) s) eqn:E.
  - split; [auto |]. intros [-> | H]; [| assumption].
    apply existsb_exists in E as (z & Hz & Heq).
    apply String.eqb_eq in Heq. now subst.
  - rewrite in_app_iff. simpl. intuition.
Qed.

Lemma set_add_NoDup (x : string) (s : list string) :
  NoDup s -> NoDup (Encapsulated.set_add x s).
Proof.
  intros Hnd. unfold Encapsulated.set_add.
  destruct (existsb (String.eqb x) s) eqn:E; [assumption |].
  apply NoDup_snoc; [assumption |]. intros Hin.
  assert (existsb (String.eqb x) s = true); [| congruence].
  apply existsb_exists. exists x. split; [assumption | apply String.eqb_refl].
Qed.

Lemma fold_set_add (l : list string) :
  forall acc,
    (NoDup acc -> NoDup (fold_left (fun a d => Encapsulated.set_add d a) l acc))
    /\ forall y, In y (fold_left (fun a d => Encapsulated.set_add d a) l acc)
                 <-> In y acc \/ In y l.
Proof.
  induction l as [| d l IH]; intros acc; simpl.
  - split; [auto | intuition].
  - destruct (IH (Encapsulated.set_add d acc)) as [Hnd Hin]. split.
    + intros H. apply Hnd. now apply set_add_NoDup.
    + intros y. rewrite Hin, set_add_In. intuition.
Qed.

Lemma collect_folders_from (files : list string) :
  forall acc,
    let collected :=
      fold_left
        (fun folderSet f =>
           fold_left (fun a d => Encapsulated.set_add d a)
                     (Encapsulated.ancestors (Path.relative root f))
                     folderSet)
        files acc in
    (NoDup acc -> NoDup collected)
    /\ forall d, In d collected
                 <-> In d acc
                     \/ exists f, In f files
                                  /\ In d (Encapsulated.ancestors
                                             (Path.relative root f)).
Proof.
  induction files as [| f files IH]; intros acc; simpl.
  - split; [auto |]. intros d. split; [auto |].
    intros [H | (f & [] & _)]. assumption.
  - specialize (IH (fold_left (fun a d => Encapsulated.set_add d a)
                      (Encapsulated.ancestors (Path.relative root f)) acc)).
    destruct IH as [Hnd Hin].
    destruct (fold_set_add (Encapsulated.ancestors (Path.relative root f))
                           acc) as [Hnd0 Hin0].
    split; [auto |].
    intros d. rewrite Hin, Hin0. split.
    + intros [[H | H] | (f' & Hf' & Hd)]; eauto.
    + intros [H | (f' & [<- | Hf'] & Hd)]; eauto.
Qed.

Lemma enc_folders_shape (folders : list string) :
  forall g,
    NoDup folders ->
    (forall d, In d folders -> ~ In d (nodes g)) ->
    exists g',
      for_of folders (Encapsulated.add_folder root) g = Ok g'
      /\ g_nodes g'
         = (g_nodes g
            ++ map (fun d => (d, Encapsulated.folder_node root d)) folders)%list
      /\ g_edges g' = g_edges g.
Proof.
  induction folders as [| d ds IH]; intros g Hnd Hfresh; simpl.
  - exists g. now rewrite app_nil_r.
  - inversion Hnd as [| ? ? Hd Hds]; subst.
    unfold Encapsulated.add_folder at 1.
    assert (En : hasNode g d = false).
    { apply hasNode_not_In. apply Hfresh. now left. }
    rewrite En. simpl. rewrite (addNode_fresh g d _ En). simpl.
    destruct (IH (mkGraph (g_nodes g
                           ++ [(d, Encapsulated.folder_node root d)])
                          (g_edges g)) Hds) as (g' & Hrun & Hn & He).
    + intros d' Hd' Hin. unfold nodes in Hin. simpl in Hin.
      rewrite map_app in Hin. apply in_app_or in Hin as [Hin | [<- | []]].
      * apply (Hfresh d'); [now right | assumption].
      * contradiction.
    + exists g'. split; [exact Hrun |]. simpl in Hn, He.
      rewrite Hn, <- app_assoc. auto.
Qed.

Lemma enc_build_graph_nodes (files : list string) (g : Graph) :
  Encapsulated.build_graph env root files = Ok g ->
  g_nodes g
  = (map (fun d => (d, Encapsulated.folder_node root d))
         (Encapsulated.collect_folders root files)
     ++ map (fun f => (f, Encapsulated.file_node env root f)) files)%list.
Proof.
  unfold Encapsulated.build_graph.
  set (folderSet := Encapsulated.collect_folders root files).
  destruct (@enc_folders_shape folderSet empty) as (g1 & E1 & Hn1 & _).
  { apply (collect_folders_from files []). constructor. }
  { intros d _ []. }
  rewrite E1. simpl.
  destruct (for_of folderSet Encapsulated.add_parent_edge g1)
    as [g2 |] eqn:E2; simpl; [| discriminate].
  destruct (for_of files (Encapsulated.add_file env root) (g2, []))
    as [st |] eqn:E3; simpl; [| discriminate].
  intros E4.
  assert (Hn2 : g_nodes g2 = g_nodes g1).
  { apply for_of_preserves with (P := fun s => g_nodes s = g_nodes g1)
      in E2; auto.
    intros s a s' _ Hs Hstep.
    apply enc_add_parent_edge_inv in Hstep as [_ ?]. congruence. }
  pose proof (enc_add_files_nodes env root _ _ E3) as Hn3. simpl in Hn3.
  assert (Hn4 : g_nodes g = g_nodes (fst st)).
  { apply for_of_preserves
      with (P := fun s => g_nodes s = g_nodes (fst st)) in E4; auto.
    intros s a s' _ Hs Hstep.
    apply enc_link_file_inv in Hstep as [_ ?]. congruence. }
  rewrite Hn4, Hn3, Hn2, Hn1. reflexivity.
Qed.

Lemma enc_add_files_index (files : list string) :
  forall st st',
    for_of files (Encapsulated.add_file env root) st = Ok st' ->
    snd st'
    = fold_left (fun idx f => index_set (Path.basename f) f idx)
                files (snd st).
Proof.
  induction files as [| f files IH]; simpl; intros st st' H.
  - now injection H as <-.
  - destruct (Encapsulated.add_file env root st f) as [st1 |] eqn:E;
      simpl in H; [| discriminate].
    apply IH in H. rewrite H. f_equal.
    unfold Encapsulated.add_file in E.
    destruct (addNode (fst st) f _) as [h1 |]; simpl in E; [| discriminate].
    destruct (hasNode h1 _).
    + destruct (addEdge h1 _ f _ _) as [h2 |]; simpl in E; [| discriminate].
      now injection E as <-.
    + simpl in E. now injection E as <-.
Qed.

End FolderFacts.

(** X17: the nodes of the payload of the builder with folder
    encapsulation are, in this order, one folder node per ancestor folder
    of a scanned file (each folder once, in the order the scan first meets
    it) and one file node per scanned file, in scan order.  A folder has a
    node exactly when some scanned file lies below it. *)
Theorem encapsulated_nodes (env : Env) (root : string)
        (listing : option (list Dirent)) (r : RepoGraph) :
  first_folder env = Some (root, listing) ->
  Encapsulated.buildRepoGraph env = Ok r ->
  let files := walk env root root listing [] in
  let folders := Encapsulated.collect_folders root files in
  nodes r = (map (Encapsulated.folder_node root) folders
             ++ map (Encapsulated.file_node env root) files)%list
  /\ NoDup folders
  /\ (forall d, In d folders
                <-> exists f, In f files
                              /\ In d (Encapsulated.ancestors
                                         (Path.relative root f))).
Proof.
  intros Hws Hrun files folders.
  destruct (enc_build_inv env Hws Hrun) as (g & st & Hg & _ & ->).
  apply enc_build_graph_nodes in Hg. simpl. split; [| split].
  - unfold nodes_payload. rewrite Hg, map_app, !map_map. reflexivity.
  - apply (collect_folders_from root files []). constructor.
  - intros d. unfold folders, Encapsulated.collect_folders.
    rewrite (proj2 (collect_folders_from root files []) d). simpl.
    intuition.
Qed.

Lemma encapsulated_nodes_witness :
  exists r, Encapsulated.buildRepoGraph Examples.versioned = Ok r
            /\ map id (nodes r)
               = ["docs"; "/repo/a.ts"; "/repo/b.ts"; "/repo/c.ts";
                  "/repo/docs/d.ts"].
Proof.
  destruct (Encapsulated.buildRepoGraph Examples.versioned) as [r | e] eqn:E;
    [| vm_compute in E; discriminate].
  destruct (@encapsulated_nodes Examples.versioned "/repo"
              (Some [FileEnt "a.ts"; FileEnt "b.ts"; FileEnt "c.ts";
                     DirEnt "docs" (Some [FileEnt "d.ts"])]) r eq_refl E)
    as (Hnodes & _).
  exists r. split; [reflexivity |]. rewrite Hnodes. vm_compute. reflexivity.
Defined.

Section LoopVisits.

Context {A S : Type}.
Variable body : S -> A -> result S.

(** What the iteration on one element establishes, and every iteration
    keeps, holds when the loop returns. *)
Lemma for_of_visits (P Q : S -> Prop) (a : A) :
  (forall s x s', body s x = Ok s' -> P s -> P s') ->
  (forall s x s', body s x = Ok s' -> Q s -> Q s') ->
  (forall s s', P s -> body s a = Ok s' -> Q s') ->
  forall l s s', In a l -> P s -> for_of l body s = Ok s' -> Q s'.
Proof.
  intros HP HQ Hat. induction l as [| x l IH]; simpl; intros s s' Hin Hs H;
    [contradiction |].
  destruct (body s x) as [s1 |] eqn:E; simpl in H; [| discriminate].
  destruct Hin as [-> | Hin].
  - apply for_of_preserves with (P := Q) in H.
    + exact H.
    + intros t y t' _ Ht Hstep. exact (HQ _ _ _ Hstep Ht).
    + exact (Hat _ _ Hs E).
  - apply (IH s1 s' Hin); [| exact H]. exact (HP _ _ _ E Hs).
Qed.

End LoopVisits.

Section HierarchyFacts.

Import Graphology.

Variable env : Env.
Variable root : string.

Lemma in_nodes_stable (n : string) :
  store_stable (fun g => In n (nodes g)).
Proof.
  split.
  - intros g g' m attrs H Hin. apply addNode_inv in H as (_ & Hn & _).
    unfold nodes in *. rewrite Hn, map_app. apply in_or_app. now left.
  - intros g g' a b c w H Hin. apply addEdge_keeps_nodes in H.
    unfold nodes in *. now rewrite H.
Qed.

Lemma in_edges_stable (a b : string) :
  store_stable (fun g => In (a, b) (edges_payload g)).
Proof.
  split.
  - intros g g' m attrs H Hin. apply addNode_inv in H as (_ & _ & He).
    unfold edges_payload in *. now rewrite He.
  - intros g g' x y c w H Hin. apply addEdge_inv in H as (_ & _ & _ & _ & He).
    unfold edges_payload in *. rewrite He, map_app.
    apply in_or_app. now left.
Qed.

Lemma addEdge_adds (g g' : Graph) (a b c : string) (w : Q) :
  addEdge g a b c w = Ok g' -> In (a, b) (edges_payload g').
Proof.
  intros H. apply addEdge_inv in H as (_ & _ & _ & _ & He).
  unfold edges_payload. rewrite He, map_app. apply in_or_app. right.
  now left.
Qed.

Lemma enc_add_file_stable (P : Graph -> Prop) (st st' : Graph * Index)
      (f : string) :
  store_stable P ->
  Encapsulated.add_file env root st f = Ok st' -> P (fst st) -> P (fst st').
Proof.
  intros Hstable. unfold Encapsulated.add_file.
  destruct (addNode (fst st) f _) as [h1 |] eqn:F1; simpl; [| discriminate].
  intros H Hp.
  assert (Hh1 : P h1) by (eapply (proj1 Hstable); eauto).
  destruct (hasNode h1 _).
  - destruct (addEdge h1 _ f _ _) as [h2 |] eqn:F2; simpl in H;
      [| discriminate].
    injection H as <-. simpl. eapply (proj2 Hstable); eauto.
  - simpl in H. now injection H as <-.
Qed.

Lemma enc_link_file_stable (P : Graph -> Prop) (fileIndex : Index)
      (file : string) (g g' : Graph) :
  store_stable P ->
  Encapsulated.link_file env root fileIndex g file = Ok g' -> P g -> P g'.
Proof.
  intros Hstable. unfold Encapsulated.link_file. intros H Hp.
  apply for_of_preserves with (P := P) in H; auto.
  intros t dep t' _ Ht Hstep. eapply enc_add_import_stable; eauto.
Qed.

Lemma enc_add_parent_edge_stable (P : Graph -> Prop) (folder : string)
      (g g' : Graph) :
  store_stable P ->
  Encapsulated.add_parent_edge g folder = Ok g' -> P g -> P g'.
Proof.
  intros Hstable. unfold Encapsulated.add_parent_edge.
  destruct (_ && _); [| now intros [= <-]].
  intros H Hp. eapply (proj2 Hstable); eauto.
Qed.

Lemma dirname_not_empty (p : string) : Path.dirname p <> "".
Proof.
  unfold Path.dirname.
  destruct (JsString.split sep p) as [| p0 [| p1 ps]]; try discriminate.
  destruct (String.eqb_spec (JsString.join "/" (removelast (p0 :: p1 :: ps)))
                            ""); [discriminate | assumption].
Qed.

Lemma folder_of_dirname (f : string) :
  Encapsulated.folder_of root f = Path.dirname (Path.relative root f).
Proof.
  unfold Encapsulated.folder_of.
  destruct (String.eqb_spec (Path.dirname (Path.relative root f)) "");
    [| reflexivity].
  now elim (dirname_not_empty (Path.relative root f)).
Qed.

Lemma dirname_in_ancestors (rel : string) :
  Path.dirname rel <> "." -> Path.dirname rel <> "/" ->
  In (Path.dirname rel) (Encapsulated.ancestors rel).
Proof.
  unfold Path.dirname, Encapsulated.ancestors.
  destruct (JsString.split sep rel) as [| p0 [| p1 ps]] eqn:E;
    try congruence.
  set (parts := p0 :: p1 :: ps).
  destruct (String.eqb_spec (JsString.join "/" (removelast parts)) "");
    [congruence |].
  intros _ _. apply in_map_iff. exists (List.length parts - 2). split.
  - rewrite removelast_firstn_len. f_equal. f_equal. simpl. lia.
  - apply in_seq. simpl. lia.
Qed.

(** Every file below a folder node gets its hierarchy edge, and every
    folder below a folder node too. *)
Lemma enc_hierarchy_edges (files : list string) (g : Graph) :
  Encapsulated.build_graph env root files = Ok g ->
  let folders := Encapsulated.collect_folders root files in
  (forall f, In f files -> In (Encapsulated.folder_of root f) folders ->
             In (Encapsulated.folder_of root f, f) (edges_payload g))
  /\ (forall d, In d folders -> In (Path.dirname d) folders ->
                Path.dirname d <> "." ->
                In (Path.dirname d, d) (edges_payload g)).
Proof.
  unfold Encapsulated.build_graph.
  set (folderSet := Encapsulated.collect_folders root files).
  destruct (@enc_folders_shape root folderSet empty) as (g1 & E1 & Hn1 & _).
  { apply (collect_folders_from root files []). constructor. }
  { intros d _ []. }
  rewrite E1. simpl.
  destruct (for_of folderSet Encapsulated.add_parent_edge g1)
    as [g2 |] eqn:E2; simpl; [| discriminate].
  destruct (for_of files (Encapsulated.add_file env root) (g2, []))
    as [st |] eqn:E3; simpl; [| discriminate].
  intros E4.
  assert (Hfolders : forall d, In d folderSet -> In d (nodes g1)).
  { intros d Hd. unfold nodes. rewrite Hn1. simpl. rewrite map_map. simpl.
    now rewrite map_id. }
  assert (Hlast : forall a b, In (a, b) (edges_payload (fst st)) ->
                              In (a, b) (edges_payload g)).
  { intros a b Hin.
    apply for_of_preserves
      with (P := fun s => In (a, b) (edges_payload s)) in E4; auto.
    intros s x s' _ Hs Hstep.
    exact (@enc_link_file_stable (fun t => In (a, b) (edges_payload t))
             _ _ _ _ (in_edges_stable a b) Hstep Hs). }
  split.
  - intros f Hf Hfolder. apply Hlast.
    apply (for_of_visits (Encapsulated.add_file env root)
             (fun s => In (Encapsulated.folder_of root f) (nodes (fst s)))
             (fun s => In (Encapsulated.folder_of root f, f)
                          (edges_payload (fst s)))
             f) with (l := files) (s := (g2, [])); auto.
    + intros s x s' Hstep.
      exact (@enc_add_file_stable
               (fun t => In (Encapsulated.folder_of root f) (nodes t))
               _ _ _ (in_nodes_stable _) Hstep).
    + intros s x s' Hstep.
      exact (@enc_add_file_stable
               (fun t => In (Encapsulated.folder_of root f, f)
                            (edges_payload t))
               _ _ _ (in_edges_stable _ _) Hstep).
    + intros s s' Hs. unfold Encapsulated.add_file.
      destruct (addNode (fst s) f _) as [h1 |] eqn:F1; simpl;
        [| discriminate].
      assert (Hh1 : hasNode h1 (Encapsulated.folder_of root f) = true).
      { apply hasNode_In.
        apply (proj1 (in_nodes_stable _) _ _ _ _ F1 Hs). }
      rewrite Hh1.
      destruct (addEdge h1 _ f _ _) as [h2 |] eqn:F2; simpl;
        [| discriminate].
      intros [= <-]. simpl. eapply addEdge_adds; eauto.
    + simpl.
      apply for_of_preserves
        with (P := fun s => In (Encapsulated.folder_of root f) (nodes s))
        in E2; auto.
      intros s x s' _ Hs Hstep.
      exact (@enc_add_parent_edge_stable
               (fun t => In (Encapsulated.folder_of root f) (nodes t))
               _ _ _ (in_nodes_stable _) Hstep Hs).
  - intros d Hd Hparent Hdot. apply Hlast.
    apply for_of_preserves
      with (P := fun s => In (Path.dirname d, d) (edges_payload (fst s)))
      in E3.
    + exact E3.
    + intros s x s' _ Hs Hstep.
      exact (@enc_add_file_stable
               (fun t => In (Path.dirname d, d) (edges_payload t))
               _ _ _ (in_edges_stable _ _) Hstep Hs).
    + simpl.
      apply (for_of_visits Encapsulated.add_parent_edge
               (fun s => In (Path.dirname d) (nodes s))
               (fun s => In (Path.dirname d, d) (edges_payload s))
               d) with (l := folderSet) (s := g1); auto.
      * intros s x s' Hstep.
        exact (@enc_add_parent_edge_stable
                 (fun t => In (Path.dirname d) (nodes t))
                 _ _ _ (in_nodes_stable _) Hstep).
      * intros s x s' Hstep.
        exact (@enc_add_parent_edge_stable
                 (fun t => In (Path.dirname d, d) (edges_payload t))
                 _ _ _ (in_edges_stable _ _) Hstep).
      * intros s s' Hs. unfold Encapsulated.add_parent_edge.
        apply hasNode_In in Hs. rewrite Hs.
        destruct (String.eqb_spec (Path.dirname d) "") as [He | _];
          [now elim (dirname_not_empty d) |].
        destruct (String.eqb_spec (Path.dirname d) ".") as [He | _];
          [contradiction |].
        simpl. apply addEdge_adds.
Qed.

End HierarchyFacts.

(** X18: when the builder with folder encapsulation returns, every scanned
    file whose relative path has a directory part is the target of a
    hierarchy edge from its owning folder, which is a node; and every
    folder node whose parent directory is a folder node too is the target
    of a hierarchy edge from that parent. *)
Theorem hierarchy_edges_present (env : Env) (root : string)
        (listing : option (list Dirent)) (r : RepoGraph) :
  first_folder env = Some (root, listing) ->
  Encapsulated.buildRepoGraph env = Ok r ->
  let files := walk env root root listing [] in
  let folders := Encapsulated.collect_folders root files in
  (forall f, In f files ->
             Path.dirname (Path.relative root f) <> "." ->
             Path.dirname (Path.relative root f) <> "/" ->
             In (Path.dirname (Path.relative root f)) (map id (nodes r))
             /\ In (Path.dirname (Path.relative root f), f) (edges r))
  /\ (forall d, In d folders -> In (Path.dirname d) folders ->
                Path.dirname d <> "." ->
                In (Path.dirname d, d) (edges r)).
Proof.
  intros Hws Hrun files folders.
  destruct (enc_build_inv env Hws Hrun) as (g & st & Hg & _ & ->).
  pose proof (enc_hierarchy_edges env root _ Hg) as [Hfile Hfolder].
  simpl. split; [| exact Hfolder].
  intros f Hf Hdot Hslash.
  assert (Hin : In (Encapsulated.folder_of root f) folders).
  { rewrite folder_of_dirname.
    apply (proj2 (collect_folders_from root files []) _). right.
    exists f. split; [assumption |]. now apply dirname_in_ancestors. }
  rewrite <- folder_of_dirname. split; [| now apply Hfile].
  rewrite payload_ids. unfold Graphology.nodes.
  rewrite (enc_build_graph_nodes env root _ Hg), map_app, !map_map. simpl.
  apply in_or_app. left. now rewrite map_id.
Qed.

Lemma hierarchy_edges_present_witness :
  exists r, Encapsulated.buildRepoGraph Examples.versioned = Ok r
            /\ In "docs" (map id (nodes r))
            /\ In ("docs", "/repo/docs/d.ts") (edges r).
Proof.
  destruct (Encapsulated.buildRepoGraph Examples.versioned) as [r | e] eqn:E;
    [| vm_compute in E; discriminate].
  destruct (@hierarchy_edges_present Examples.versioned "/repo"
              (Some [FileEnt "a.ts"; FileEnt "b.ts"; FileEnt "c.ts";
                     DirEnt "docs" (Some [FileEnt "d.ts"])]) r eq_refl E)
    as [Hfile _].
  exists r. split; [reflexivity |].
  apply (Hfile "/repo/docs/d.ts").
  - vm_compute. auto.
  - vm_compute. discriminate.
  - vm_compute. discriminate.
Defined.

Section EdgeKinds.

Import Graphology.

Variable env : Env.
Variable root : string.

Lemma enc_add_import_edges (fileIndex : Index) (file fromFolder dep : string)
      (g g' : Graph) :
  Encapsulated.add_import root fileIndex file fromFolder g dep = Ok g' ->
  forall e, In e (g_edges g') ->
    In e (g_edges g)
    \/ exists depFile,
        resolve fileIndex dep = Some depFile
        /\ ((from e = file /\ to e = depFile)
            \/ (from e = fromFolder
                /\ to e = Encapsulated.folder_of root depFile
                /\ fromFolder <> Encapsulated.folder_of root depFile)).
Proof.
  unfold Encapsulated.add_import.
  destruct (resolve fileIndex dep) as [depFile |]; [| intros [= <-]; auto].
  destruct (_ && _); [| intros [= <-]; auto].
  destruct (addEdge g file depFile _ _) as [g1 |] eqn:E1; simpl;
    [| discriminate].
  apply addEdge_inv in E1 as (_ & _ & _ & _ & He1).
  destruct (String.eqb_spec fromFolder (Encapsulated.folder_of root depFile))
    as [Heq | Hne]; simpl.
  - intros [= <-] e He. rewrite He1 in He.
    apply in_app_or in He as [He | [<- | []]]; [auto |].
    right. exists depFile. simpl. auto.
  - destruct (_ && _).
    + intros E2 e He.
      apply addEdge_inv in E2 as (_ & _ & _ & _ & He2).
      rewrite He2, He1 in He.
      apply in_app_or in He as [He | [<- | []]].
      * apply in_app_or in He as [He | [<- | []]]; [auto |].
        right. exists depFile. simpl. auto.
      * right. exists depFile. simpl. auto.
    + intros [= <-] e He. rewrite He1 in He.
      apply in_app_or in He as [He | [<- | []]]; [auto |].
      right. exists depFile. simpl. auto.
Qed.

Lemma enc_edges_classified (files : list string) (g : Graph) :
  Encapsulated.build_graph env root files = Ok g ->
  forall e, In e (g_edges g) ->
    hierarchy_edge root (Encapsulated.collect_folders root files) files
                   (from e) (to e)
    \/ import_edge env files (from e) (to e)
    \/ rollup_edge env root files (from e) (to e).
Proof.
  unfold Encapsulated.build_graph.
  set (folderSet := Encapsulated.collect_folders root files).
  set (kind := fun e : Edge =>
         hierarchy_edge root folderSet files (from e) (to e)
         \/ import_edge env files (from e) (to e)
         \/ rollup_edge env root files (from e) (to e)).
  destruct (for_of folderSet (Encapsulated.add_folder root) empty)
    as [g1 |] eqn:E1; simpl; [| discriminate].
  destruct (for_of folderSet Encapsulated.add_parent_edge g1)
    as [g2 |] eqn:E2; simpl; [| discriminate].
  destruct (for_of files (Encapsulated.add_file env root) (g2, []))
    as [st |] eqn:E3; simpl; [| discriminate].
  intros E4.
  pose proof (enc_add_files_index env root _ _ E3) as Hidx. simpl in Hidx.
  change (snd st = Flat.build_index files) in Hidx.
  apply for_of_preserves
    with (P := fun s => forall e, In e (g_edges s) -> kind e) in E1.
  2: { intros s d s' _ Hs. unfold Encapsulated.add_folder.
       destruct (negb (hasNode s d)); [| now intros [= <-]].
       intros H. apply addNode_inv in H as (_ & _ & ->). assumption. }
  2: { intros e []. }
  apply for_of_preserves
    with (P := fun s => forall e, In e (g_edges s) -> kind e) in E2;
    [| | exact E1].
  2: { intros s d s' Hd Hs. unfold Encapsulated.add_parent_edge.
       destruct (_ && _); [| now intros [= <-]].
       intros H e He. apply addEdge_inv in H as (_ & _ & _ & _ & Hes).
       rewrite Hes in He. apply in_app_or in He as [He | [<- | []]];
         [auto |].
       left. left. simpl. auto. }
  apply for_of_preserves
    with (P := fun s => forall e, In e (g_edges (fst s)) -> kind e) in E3;
    [| | exact E2].
  2: { intros s f s' Hf Hs. unfold Encapsulated.add_file.
       destruct (addNode (fst s) f _) as [h1 |] eqn:F1; simpl;
         [| discriminate].
       apply addNode_inv in F1 as (_ & _ & He1).
       destruct (hasNode h1 _).
       - destruct (addEdge h1 _ f _ _) as [h2 |] eqn:F2; simpl;
           [| discriminate].
         apply addEdge_inv in F2 as (_ & _ & _ & _ & He2).
         intros [= <-] e He. simpl in He. rewrite He2, He1 in He.
         apply in_app_or in He as [He | [<- | []]]; [auto |].
         left. right. simpl. auto.
       - simpl. intros [= <-] e He. simpl in He. rewrite He1 in He. auto. }
  apply for_of_preserves
    with (P := fun s => forall e, In e (g_edges s) -> kind e) in E4;
    [exact E4 | | exact E3].
  intros s file s' Hfile Hs. unfold Encapsulated.link_file. intros H.
  apply for_of_preserves
    with (P := fun t => forall e, In e (g_edges t) -> kind e) in H;
    [exact H | | exact Hs].
  intros t dep t' Hdep Ht Hstep e He.
  destruct (enc_add_import_edges _ _ _ _ _ Hstep e He)
    as [Hold | (depFile & Hres & [[Hfrom Hto] | (Hfrom & Hto & Hne)])];
    [auto | |].
  - right. left. rewrite Hfrom, Hto. split; [assumption |].
    exists dep. rewrite <- Hidx. auto.
  - right. right. exists file, depFile. rewrite Hfrom, Hto.
    split; [| auto]. split; [assumption |].
    exists dep. rewrite <- Hidx. auto.
Qed.

End EdgeKinds.

(** X19: every edge of the payload of the builder with folder
    encapsulation is one of three kinds: a hierarchy edge, from the parent
    directory of a folder node to that folder or from the owning folder of
    a scanned file to that file; an import edge, from a scanned file to
    the path one of its specifiers resolves to against the index of the
    scan; or a rollup edge, between the owning folders of the two ends of
    such an import, which differ. *)
Theorem encapsulated_edges_classified (env : Env) (root : string)
        (listing : option (list Dirent)) (r : RepoGraph) (a b : string) :
  first_folder env = Some (root, listing) ->
  Encapsulated.buildRepoGraph env = Ok r ->
  In (a, b) (edges r) ->
  let files := walk env root root listing [] in
  hierarchy_edge root (Encapsulated.collect_folders root files) files a b
  \/ import_edge env files a b
  \/ rollup_edge env root files a b.
Proof.
  intros Hws Hrun Hin files.
  destruct (enc_build_inv env Hws Hrun) as (g & st & Hg & _ & ->).
  simpl in Hin. unfold edges_payload in Hin.
  apply in_map_iff in Hin as (e & [= <- <-] & He).
  exact (enc_edges_classified env root _ Hg e He).
Qed.

Lemma encapsulated_edges_classified_witness :
  hierarchy_edge "/repo"
    (Encapsulated.collect_folders "/repo"
       ["/repo/a.ts"; "/repo/b.ts"; "/repo/c.ts"; "/repo/docs/d.ts"])
    ["/repo/a.ts"; "/repo/b.ts"; "/repo/c.ts"; "/repo/docs/d.ts"]
    "docs" "/repo/docs/d.ts"
  \/ import_edge Examples.versioned
       ["/repo/a.ts"; "/repo/b.ts"; "/repo/c.ts"; "/repo/docs/d.ts"]
       "docs" "/repo/docs/d.ts"
  \/ rollup_edge Examples.versioned "/repo"
       ["/repo/a.ts"; "/repo/b.ts"; "/repo/c.ts"; "/repo/docs/d.ts"]
       "docs" "/repo/docs/d.ts".
Proof.
  destruct (Encapsulated.buildRepoGraph Examples.versioned) as [r | e] eqn:E;
    [| vm_compute in E; discriminate].
  apply (@encapsulated_edges_classified Examples.versioned "/repo"
           (Some [FileEnt "a.ts"; FileEnt "b.ts"; FileEnt "c.ts";
                  DirEnt "docs" (Some [FileEnt "d.ts"])]) r
           "docs" "/repo/docs/d.ts" eq_refl E).
  vm_compute in E. injection E as <-. simpl. auto.
Defined.

(** X16: the most-edited list of the builder with folder encapsulation is
    the first five entries of a stable sort, churn descending, of the
    label and churn of the payload nodes whose churn is positive; every
    entry has positive churn, so folder nodes and files without history
    never appear. *)
Theorem encapsulated_mostEdited_spec (env : Env) (r : RepoGraph)
        (st : Stats) :
  Encapsulated.buildRepoGraph env = Ok r ->
  stats r = Some st ->
  let edited := filter (fun x => 0 <? snd x) (map entry_of (nodes r)) in
  exists sorted,
    mostEdited st = firstn 5 sorted
    /\ Permutation sorted edited
    /\ entries_descending sorted
    /\ (forall c, entries_with c sorted = entries_with c edited)
    /\ List.length (mostEdited st) = Nat.min 5 (List.length edited)
    /\ Forall (fun x => 0 < snd x) (mostEdited st).
Proof.
  intros Hrun Hst edited.
  destruct (first_folder env) as [[root listing] |] eqn:Hws.
  2: { rewrite (enc_build_no_folder_inv env Hws Hrun) in Hst.
       discriminate. }
  destruct (enc_build_inv env Hws Hrun) as (g & st' & _ & Hs & ->).
  simpl in Hst. injection Hst as ->. simpl nodes in edited.
  apply enc_build_stats_inv in Hs as (_ & _ & _ & Hme & _).
  unfold Encapsulated.mostEdited_of in Hme.
  set (kept := filter (fun kv => 0 <? commits (snd kv)) (g_nodes g)) in *.
  assert (Hedited : edited = map edited_entry kept).
  { unfold edited, kept. rewrite payload_entries, filter_map_swap.
    reflexivity. }
  exists (map edited_entry (sort_by_commits kept)).
  rewrite Hme, Hedited.
  split; [symmetry; apply firstn_map |].
  split; [apply Permutation_map, sort_by_commits_perm |].
  split; [apply entries_of_sorted, sort_by_commits_sorted |].
  split; [| split].
  - intros c. unfold entries_with. rewrite !filter_map_swap. f_equal.
    apply (sort_by_commits_stable c).
  - rewrite !length_map, length_firstn.
    now rewrite (Permutation_length (sort_by_commits_perm kept)).
  - rewrite Forall_forall. intros x Hx.
    apply in_map_iff in Hx as (kv & <- & Hkv).
    assert (Hin : In kv kept).
    { apply (Permutation_in _ (sort_by_commits_perm kept)).
      rewrite <- (firstn_skipn 5 (sort_by_commits kept)).
      apply in_or_app. now left. }
    unfold kept in Hin. apply filter_In in Hin as [_ Hc].
    apply Nat.ltb_lt in Hc. exact Hc.
Qed.

Lemma encapsulated_mostEdited_spec_witness :
  exists r st,
    Encapsulated.buildRepoGraph Examples.versioned = Ok r
    /\ stats r = Some st
    /\ Forall (fun x => 0 < snd x) (mostEdited st)
    /\ List.length (mostEdited st) = 3.
Proof.
  destruct (Encapsulated.buildRepoGraph Examples.versioned) as [r | e] eqn:E;
    [| vm_compute in E; discriminate].
  destruct (stats r) as [st |] eqn:Es;
    [| vm_compute in E; injection E as <-; discriminate].
  destruct (@encapsulated_mostEdited_spec Examples.versioned r st E Es)
    as (sorted & _ & _ & _ & _ & Hlen & Hpos).
  exists r, st. split; [reflexivity |]. split; [exact Es |].
  split; [exact Hpos |]. rewrite Hlen.
  vm_compute in E. injection E as <-. reflexivity.
Defined.

(* ================================================================== *)
(** * Further properties: strings, paths and the walk *)

Section StringFacts.

Lemma substring_prefix (s t : string) :
  substring 0 (String.length s) (s ++ t) = s.
Proof.
  induction s as [| c s IH]; simpl.
  - now destruct t.
  - now rewrite IH.
Qed.

Lemma substring_skip (s t : string) (m n : nat) :
  substring (String.length s + m) n (s ++ t) = substring m n t.
Proof. induction s as [| c s IH]; simpl; [reflexivity | exact IH]. Qed.

Lemma substring_all (s : string) : substring 0 (String.length s) s = s.
Proof.
  induction s as [| c s IH]; simpl; [reflexivity | now rewrite IH].
Qed.

Lemma endsWith_app (s t k : string) :
  JsString.endsWith t k = true -> JsString.endsWith (s ++ t) k = true.
Proof.
  unfold JsString.endsWith. intros H.
  apply andb_true_iff in H as [Hle Heq]. apply Nat.leb_le in Hle.
  rewrite string_length_app. apply andb_true_iff. split.
  - apply Nat.leb_le. lia.
  - replace (String.length s + String.length t - String.length k)
      with (String.length s + (String.length t - String.length k)) by lia.
    now rewrite substring_skip.
Qed.

Lemma toLowerCase_app (s t : string) :
  JsString.toLowerCase (s ++ t)
  = JsString.toLowerCase s ++ JsString.toLowerCase t.
Proof.
  induction s as [| c s IH]; simpl; [reflexivity | now rewrite IH].
Qed.

Lemma ext_test_app (es : list string) (s t : string) :
  ext_test es t = true -> ext_test es (s ++ t) = true.
Proof.
  unfold ext_test. intros H. apply existsb_exists in H as (e & He & Hends).
  apply existsb_exists. exists e. split; [assumption |].
  rewrite toLowerCase_app. now apply endsWith_app.
Qed.

Lemma ext_test_join (es : list string) (dir name : string) :
  ext_test es name = true -> ext_test es (Path.join dir name) = true.
Proof.
  intros H. unfold Path.join. destruct (JsString.endsWith dir "/").
  - now apply ext_test_app.
  - apply ext_test_app. now apply (ext_test_app es "/" name).
Qed.

Lemma split_single (c : ascii) (s : string) :
  JsString.includes c s = false -> JsString.split c s = [s].
Proof.
  induction s as [| a s IH]; simpl; [reflexivity |].
  intros H. apply orb_false_iff in H as [Ha Hs].
  rewrite Ha, (IH Hs). reflexivity.
Qed.

Lemma last_split_app (c : ascii) (s t d : string) :
  last (JsString.split c (s ++ String c t)) d = last (JsString.split c t) d
  /\ 2 <= List.length (JsString.split c (s ++ String c t)).
Proof.
  induction s as [| a s [IHlast IHlen]]; simpl.
  - rewrite Ascii.eqb_refl.
    destruct (JsString.split c t) as [| x xs] eqn:E.
    + now elim (split_not_nil c t).
    + split; [reflexivity | simpl; lia].
  - destruct (Ascii.eqb a c).
    + destruct (JsString.split c (s ++ String c t)) as [| x xs] eqn:E.
      * simpl in IHlen. lia.
      * split; [exact IHlast | simpl; lia].
    + destruct (JsString.split c (s ++ String c t)) as [| x [| y ys]] eqn:E.
      * simpl in IHlen. lia.
      * simpl in IHlen. lia.
      * split; [exact IHlast | simpl; lia].
Qed.

Lemma includes_app (c : ascii) (s t : string) :
  JsString.includes c (s ++ String c t) = true.
Proof.
  induction s as [| a s IH]; simpl.
  - now rewrite Ascii.eqb_refl.
  - rewrite IH. apply orb_true_r.
Qed.

End StringFacts.

Section WalkCollects.

Variable env : Env.
Variable root : string.

Lemma collects_incl (dir : string) (es es' : list Dirent) (f : string) :
  incl es es' ->
  collects env root dir es f -> collects env root dir es' f.
Proof.
  intros Hincl H. revert es' Hincl.
  destruct H as [dir entries name Hin Hig Hext
                | dir entries name sub f Hin Hig Hpr Hsub];
    intros es' Hincl.
  - apply collects_file; auto.
  - eapply collects_below; eauto.
Qed.

Lemma collects_one (dir : string) (entries : list Dirent) (f : string) :
  collects env root dir entries f
  <-> exists e, In e entries /\ collects env root dir [e] f.
Proof.
  split.
  - intros H.
    destruct H as [dir entries name Hin Hig Hext
                  | dir entries name sub f Hin Hig Hpr Hsub].
    + exists (FileEnt name). split; [assumption |].
      apply collects_file; simpl; auto.
    + exists (DirEnt name (Some sub)). split; [assumption |].
      eapply collects_below; simpl; eauto.
  - intros (e & He & H). apply (@collects_incl dir [e]); [| assumption].
    intros e' [<- | []]. assumption.
Qed.

Lemma collects_file_inv (dir name f : string) :
  collects env root dir [FileEnt name] f ->
  f = Path.join dir name
  /\ ignores env (Path.relative root (Path.join dir name)) = false
  /\ ext_test exts name = true.
Proof.
  intros H.
  inversion H as [d es n Hin Hig Hext | d es n sub f' Hin Hig Hpr Hsub];
    subst; destruct Hin as [Heq | []]; [| discriminate].
  injection Heq as Hn. subst. auto.
Qed.

Lemma collects_dir_inv (dir name : string) (listing : option (list Dirent))
      (f : string) :
  collects env root dir [DirEnt name listing] f ->
  exists sub,
    listing = Some sub
    /\ ignores env (Path.relative root (Path.join dir name)) = false
    /\ existsb (String.eqb name) pruned_dirs = false
    /\ collects env root (Path.join dir name) sub f.
Proof.
  intros H.
  inversion H as [d es n Hin Hig Hext | d es n sub f' Hin Hig Hpr Hsub];
    subst; destruct Hin as [Heq | []]; [discriminate |].
  injection Heq as Hn Hl. subst. exists sub. auto.
Qed.

Lemma collects_allowed (dir : string) (entries : list Dirent) (f : string) :
  collects env root dir entries f -> ext_test exts f = true.
Proof.
  induction 1; [now apply ext_test_join | assumption].
Qed.

(** One iteration of the walk adds to the files exactly what the entry
    allows. *)
Lemma walk_entry_collects :
  forall entry dir files f,
    In f (walk_entry env root dir entry files)
    <-> In f files \/ collects env root dir [entry] f.
Proof.
  fix IH 1. intros [name | name listing] dir files f; cbn [walk_entry].
  - clear IH. destruct (ignores env _) eqn:Eig.
    { split; [auto |]. intros [H | H]; [assumption |].
      apply collects_file_inv in H as (_ & Hig & _). congruence. }
    destruct (ext_test exts name) eqn:Eext.
    + rewrite in_app_iff. simpl. split.
      * intros [H | [<- | []]]; [auto |]. right.
        apply collects_file; simpl; auto.
      * intros [H | H]; [auto |].
        apply collects_file_inv in H as (-> & _). auto.
    + split; [auto |]. intros [H | H]; [assumption |].
      apply collects_file_inv in H as (_ & _ & Hext). congruence.
  - destruct (ignores env _) eqn:Eig.
    { clear IH. split; [auto |]. intros [H | H]; [assumption |].
      apply collects_dir_inv in H as (sub & _ & Hig & _). congruence. }
    destruct (existsb _ pruned_dirs) eqn:Epr.
    { clear IH. split; [auto |]. intros [H | H]; [assumption |].
      apply collects_dir_inv in H as (sub & _ & _ & Hpr & _). congruence. }
    destruct listing as [entries |].
    2: { clear IH. split; [auto |]. intros [H | H]; [assumption |].
         apply collects_dir_inv in H as (sub & Hsome & _). discriminate. }
    match goal with
    | |- In f (?loop entries files) <-> _ =>
        assert (Hloop :
          forall acc,
            In f (loop entries acc)
            <-> In f acc
                \/ exists e, In e entries
                             /\ collects env root (Path.join dir name) [e] f)
    end.
    { clear Eig Epr files. induction entries as [| e es IHes]; intros acc.
      - simpl. split; [auto | intros [H | (e & [] & _)]; exact H].
      - cbn [In]. rewrite IHes.
        rewrite (IH e (Path.join dir name) acc f). clear IH IHes. split.
        + intros [[H | H] | (e' & He' & H)];
            [auto | right; exists e; auto | right; exists e'; auto].
        + intros [H | (e' & [<- | He'] & H)];
            [auto | auto | right; exists e'; auto]. }
    clear IH. rewrite Hloop. split.
    + intros [H | H]; [auto |]. right.
      apply collects_one in H. eapply collects_below; simpl; eauto.
    + intros [H | H]; [auto |].
      apply collects_dir_inv in H as (sub & [= <-] & _ & _ & H).
      right. now apply collects_one.
Qed.

Lemma walk_loop_collects (dir : string) (entries : list Dirent) (f : string) :
  forall files,
    In f (fold_left (fun acc e => walk_entry env root dir e acc)
                    entries files)
    <-> In f files \/ collects env root dir entries f.
Proof.
  induction entries as [| e es IH]; intros files; simpl.
  - split; [auto |]. intros [H | H]; [assumption |].
    apply collects_one in H as (e & [] & _).
  - rewrite IH, walk_entry_collects. split.
    + intros [[H | H] | H]; [auto | |].
      * right. apply (@collects_incl dir [e]); [| assumption].
        intros e' [<- | []]. now left.
      * right. apply (@collects_incl dir es); [| assumption].
        intros e' He'. now right.
    + intros [H | H]; [auto |].
      apply collects_one in H as (e' & [<- | He'] & H); [auto |].
      right. apply collects_one. eauto.
Qed.

Lemma walk_entry_appends :
  forall entry dir files,
    exists added, walk_entry env root dir entry files = (files ++ added)%list.
Proof.
  fix IH 1. intros [name | name listing] dir files; cbn [walk_entry].
  - destruct (ignores env _); [exists []; now rewrite app_nil_r |].
    destruct (ext_test exts name); [eauto |].
    exists []. now rewrite app_nil_r.
  - destruct (ignores env _); [exists []; now rewrite app_nil_r |].
    destruct (existsb _ pruned_dirs); [exists []; now rewrite app_nil_r |].
    destruct listing as [entries |]; [| exists []; now rewrite app_nil_r].
    revert files. induction entries as [| e es IHes]; intros files.
    + exists []. now rewrite app_nil_r.
    + destruct (IH e (Path.join dir name) files) as [added1 ->].
      destruct (IHes (files ++ added1)%list) as [added2 ->].
      exists (added1 ++ added2)%list. now rewrite app_assoc.
Qed.

End WalkCollects.

(** X20: the walk collects exactly what the listing allows.  A path is
    collected if and only if it is the path of a file entry of the root,
    or of a directory reached from the root through directory entries
    that are not ignored, not named like a pruned directory and whose
    listing can be read, and that file entry is not ignored and its name
    passes the allowlist test.  Nothing is collected when the root cannot
    be listed; every collected path passes the allowlist test itself; and
    the walk of an entry only appends to the files collected so far. *)
Theorem walk_collects_allowed_files (env : Env) (root : string)
        (listing : option (list Dirent)) :
  (forall f,
      In f (walk env root root listing [])
      <-> exists entries,
            listing = Some entries /\ collects env root root entries f)
  /\ (forall f, In f (walk env root root listing []) ->
                ext_test exts f = true)
  /\ forall entry dir files,
       exists added,
         walk_entry env root dir entry files = (files ++ added)%list.
Proof.
  assert (Hiff : forall f,
      In f (walk env root root listing [])
      <-> exists entries,
            listing = Some entries /\ collects env root root entries f).
  { intros f. destruct listing as [entries |]; simpl.
    - rewrite walk_loop_collects. split.
      + intros [[] | H]. eauto.
      + intros (es & [= <-] & H). auto.
    - split; [contradiction | intros (es & Hes & _); discriminate]. }
  split; [exact Hiff |]. split; [| apply walk_entry_appends].
  intros f Hf. apply Hiff in Hf as (entries & _ & H).
  now apply (collects_allowed H).
Qed.

Section PathFacts.

Lemma string_app_assoc (a b c : string) : (a ++ b) ++ c = a ++ (b ++ c).
Proof.
  induction a as [| x a IH]; simpl; [reflexivity | now rewrite IH].
Qed.

Lemma relative_under (root rel : string) :
  Path.relative root (root ++ "/" ++ rel) = rel.
Proof.
  assert (Hrest :
    substring (String.length root)
              (String.length (root ++ "/" ++ rel) - String.length root)
              (root ++ "/" ++ rel) = "/" ++ rel).
  { rewrite string_length_app.
    replace (String.length root + String.length ("/" ++ rel)
             - String.length root)
      with (String.length ("/" ++ rel)) by lia.
    pose proof (substring_skip root ("/" ++ rel) 0
                  (String.length ("/" ++ rel))) as Hskip.
    rewrite Nat.add_0_r in Hskip. rewrite Hskip. apply substring_all. }
  unfold Path.relative, JsString.startsWith.
  rewrite substring_prefix, String.eqb_refl, Hrest.
  assert (Hslash : substring 0 (String.length "/") ("/" ++ rel) = "/").
  { simpl. now destruct rel. }
  rewrite Hslash, String.eqb_refl.
  simpl String.length. rewrite Nat.sub_succ, Nat.sub_0_r.
  simpl. apply substring_all.
Qed.

Lemma last_char_not_sep (c : ascii) (d : string) :
  JsString.includes c d = false -> d <> "" ->
  substring (String.length d - 1) 1 d <> String c "".
Proof.
  induction d as [| a d IH]; [congruence |].
  simpl. intros H _. apply orb_false_iff in H as [Ha Hd].
  destruct d as [| b d'].
  - simpl. intros [= ->]. now rewrite Ascii.eqb_refl in Ha.
  - specialize (IH Hd ltac:(discriminate)).
    cbn [String.length] in IH |- *.
    replace (S (String.length d') - 1) with (String.length d') in IH by lia.
    replace (S (S (String.length d')) - 1) with (S (String.length d'))
      by lia.
    exact IH.
Qed.

Lemma endsWith_sep_false (s d : string) :
  JsString.includes sep d = false -> d <> "" ->
  JsString.endsWith (s ++ d) "/" = false.
Proof.
  intros Hno Hne. unfold JsString.endsWith.
  rewrite string_length_app. simpl String.length.
  assert (1 <= String.length d) by (destruct d; simpl; [congruence | lia]).
  replace (String.length s + String.length d - 1)
    with (String.length s + (String.length d - 1)) by lia.
  rewrite substring_skip.
  destruct (String.eqb_spec (substring (String.length d - 1) 1 d) "/")
    as [Heq | _]; [| apply andb_false_r].
  now elim (@last_char_not_sep sep d Hno Hne).
Qed.

Lemma basename_under (s name : string) :
  JsString.includes sep name = false ->
  Path.basename (s ++ "/" ++ name) = name.
Proof.
  intros Hno. unfold Path.basename.
  change ("/" ++ name) with (String sep name).
  rewrite (proj1 (last_split_app sep s name "")).
  now rewrite (@split_single _ _ Hno).
Qed.

End PathFacts.

(** X21: where a scanned file lands.  For a root that does not end with a
    separator and entry names without separator, a file directly in the
    root has its entry name as basename and as relative path; the flat
    builder puts it in the cluster [(root)], while the builder with folder
    encapsulation gives it the folder [.] and no folder node.  A file in a
    directory [d] of the root has the relative path [d/name]; both
    builders give it the cluster [d], and the builder with folder
    encapsulation the one ancestor folder [d]. *)
Theorem where_a_file_lands (root d name : string) :
  JsString.endsWith root "/" = false ->
  JsString.includes sep name = false ->
  JsString.includes sep d = false ->
  d <> "" ->
  (Path.basename (Path.join root name) = name
   /\ Path.relative root (Path.join root name) = name
   /\ Flat.cluster_of (Path.relative root (Path.join root name)) = "(root)"
   /\ Encapsulated.folder_of root (Path.join root name) = "."
   /\ Encapsulated.ancestors (Path.relative root (Path.join root name)) = [])
  /\ (Path.basename (Path.join (Path.join root d) name) = name
      /\ Path.relative root (Path.join (Path.join root d) name)
         = d ++ "/" ++ name
      /\ Flat.cluster_of
           (Path.relative root (Path.join (Path.join root d) name)) = d
      /\ Encapsulated.folder_of root (Path.join (Path.join root d) name) = d
      /\ Encapsulated.ancestors
           (Path.relative root (Path.join (Path.join root d) name)) = [d]).
Proof.
  intros Hroot Hname Hd Hne.
  assert (Htop : Path.join root name = root ++ "/" ++ name).
  { unfold Path.join. now rewrite Hroot. }
  assert (Hdeep : Path.join (Path.join root d) name
                  = root ++ "/" ++ (d ++ "/" ++ name)).
  { unfold Path.join at 1. unfold Path.join. rewrite Hroot.
    replace (root ++ "/" ++ d) with ((root ++ "/") ++ d)
      by (now rewrite string_app_assoc).
    rewrite (@endsWith_sep_false _ d Hd Hne).
    rewrite !string_app_assoc. reflexivity. }
  assert (Hsplit : JsString.split sep (d ++ "/" ++ name) = [d; name]).
  { change ("/" ++ name) with (String sep name).
    rewrite (@split_line sep d name Hd), (@split_single _ _ Hname).
    reflexivity. }
  split.
  - unfold Encapsulated.folder_of. rewrite Htop, !relative_under.
    unfold Flat.cluster_of, Path.dirname, Encapsulated.ancestors.
    rewrite Hname, (@split_single _ _ Hname). simpl.
    split; [now apply basename_under |]. auto.
  - unfold Encapsulated.folder_of. rewrite Hdeep, !relative_under.
    unfold Flat.cluster_of, Path.dirname, Encapsulated.ancestors.
    rewrite Hsplit.
    change (d ++ "/" ++ name) with (d ++ String sep name).
    rewrite includes_app. simpl.
    split.
    + replace (root ++ String "/" (d ++ String sep name))
        with ((root ++ "/" ++ d) ++ "/" ++ name)
        by (rewrite string_app_assoc; reflexivity).
      now apply basename_under.
    + clear Hdeep Hsplit Hd.
      destruct d; [congruence | repeat split; reflexivity].
Qed.

Lemma where_a_file_lands_witness :
  Flat.cluster_of (Path.relative "/repo" (Path.join "/repo" "x.ts"))
  = "(root)"
  /\ Encapsulated.folder_of "/repo" (Path.join "/repo" "x.ts") = "."
  /\ Flat.cluster_of
       (Path.relative "/repo" (Path.join (Path.join "/repo" "src") "x.ts"))
     = "src"
  /\ Encapsulated.folder_of "/repo"
       (Path.join (Path.join "/repo" "src") "x.ts") = "src".
Proof.
  destruct (@where_a_file_lands "/repo" "src" "x.ts")
    as ((_ & _ & H1 & H2 & _) & (_ & _ & H3 & H4 & _));
    try reflexivity; [discriminate |].
  auto.
Defined.

Section FlatScanOrder.

Import Graphology.

Variable env : Env.
Variable root : string.

Lemma flat_loop_nodes (fileIndex : Index) (todo : list string) :
  forall done g g',
    NoDup (done ++ todo) ->
    incl (nodes g) done ->
    (forall f, In f todo -> readFileSync env f <> None) ->
    for_of todo (Flat.add_file env root fileIndex) g = Ok g' ->
    nodes g' = (nodes g ++ todo)%list.
Proof.
  induction todo as [| f todo IH]; simpl; intros done g g' Hnd Hincl Hread H.
  - injection H as <-. now rewrite app_nil_r.
  - destruct (Flat.add_file env root fileIndex g f) as [g1 |] eqn:E;
      simpl in H; [| discriminate].
    assert (Hfresh : hasNode g f = false).
    { apply hasNode_not_In. intros Hin. apply Hincl in Hin.
      apply NoDup_remove_2 in Hnd. apply Hnd.
      apply in_or_app. now left. }
    apply flat_add_file_nodes in E.
    destruct (readFileSync env f) as [content |] eqn:Er.
    2: { now elim (Hread f (or_introl eq_refl)). }
    rewrite Hfresh in E.
    assert (Hn1 : nodes g1 = (nodes g ++ [f])%list).
    { unfold nodes. rewrite E, map_app. reflexivity. }
    rewrite (IH (done ++ [f])%list g1 g'); auto.
    + rewrite Hn1, <- app_assoc. reflexivity.
    + now rewrite <- app_assoc.
    + rewrite Hn1. intros x Hx. apply in_app_or in Hx as [Hx | Hx];
        apply in_or_app; [left; auto | now right].
Qed.

Lemma nodup_length_le (l : list string) :
  List.length (nodup string_dec l) <= List.length l
  /\ (l <> [] -> 1 <= List.length (nodup string_dec l)).
Proof.
  induction l as [| x l [IHle IHpos]]; simpl; [split; [lia | congruence] |].
  destruct (in_dec string_dec x l) as [Hin | Hnin]; simpl.
  - split; [lia |]. intros _. apply IHpos. intros ->. contradiction.
  - split; lia.
Qed.

End FlatScanOrder.

(** X22: when the scanned paths are distinct and the flat builder returns,
    the nodes of its payload are the scanned files, one each, in scan
    order; [totalFiles] is then the number of nodes, and for a scan that
    is not empty the cluster count lies between 1 and [totalFiles]. *)
Theorem flat_nodes_in_scan_order (env : Env) (root : string)
        (listing : option (list Dirent)) (r : RepoGraph) (st : Stats) :
  first_folder env = Some (root, listing) ->
  NoDup (walk env root root listing []) ->
  Flat.buildRepoGraph env = Ok r ->
  stats r = Some st ->
  map id (nodes r) = walk env root root listing []
  /\ totalFiles st = List.length (nodes r)
  /\ clusters st <= totalFiles st
  /\ (walk env root root listing [] <> [] -> 1 <= clusters st).
Proof.
  intros Hws Hnd Hrun Hst.
  assert (Hread : forall f, In f (walk env root root listing []) ->
                            readFileSync env f <> None).
  { intros f Hf Hnone.
    rewrite (@flat_unreadable_faults env root listing f Hws Hf Hnone) in Hrun.
    discriminate. }
  destruct (flat_build_inv env Hws Hrun) as (g & st' & Hg & Hs & ->).
  simpl in Hst. injection Hst as ->. simpl nodes.
  apply flat_build_stats_inv in Hs as (Ht & _ & _ & _ & Hc).
  unfold Flat.build_graph, Flat.scan in Hg.
  pose proof (@flat_loop_nodes env root _ _ [] Graphology.empty g
                Hnd (fun x (H : In x []) => H) Hread Hg) as Hnodes.
  simpl in Hnodes.
  assert (Hids : map id (nodes_payload g) = walk env root root listing []).
  { now rewrite payload_ids. }
  assert (Hlen : List.length (nodes_payload g)
                 = List.length (walk env root root listing [])).
  { rewrite <- Hids. now rewrite length_map. }
  split; [exact Hids |]. split; [unfold Flat.scan in Ht; congruence |].
  rewrite Hc, Ht. unfold count_clusters, Flat.scan.
  destruct (nodup_length_le (map cluster (nodes_payload g))) as [Hle Hpos].
  rewrite length_map, Hlen in Hle. split; [exact Hle |].
  intros Hne. apply Hpos. intros Hnil.
  apply (f_equal (@List.length string)) in Hnil.
  rewrite length_map, Hlen in Hnil.
  destruct (walk env root root listing []); [congruence | discriminate].
Qed.

Lemma flat_nodes_in_scan_order_witness :
  exists r st,
    Flat.buildRepoGraph Examples.versioned = Ok r
    /\ stats r = Some st
    /\ map id (nodes r)
       = ["/repo/a.ts"; "/repo/b.ts"; "/repo/c.ts"; "/repo/docs/d.ts"]
    /\ clusters st <= totalFiles st.
Proof.
  destruct (Flat.buildRepoGraph Examples.versioned) as [r | e] eqn:E;
    [| vm_compute in E; discriminate].
  destruct (stats r) as [st |] eqn:Es;
    [| vm_compute in E; injection E as <-; discriminate].
  destruct (@flat_nodes_in_scan_order Examples.versioned "/repo"
              (Some [FileEnt "a.ts"; FileEnt "b.ts"; FileEnt "c.ts";
                     DirEnt "docs" (Some [FileEnt "d.ts"])]) r st eq_refl)
    as (Hids & _ & Hc & _).
  - vm_compute. repeat constructor; simpl; intuition discriminate.
  - exact E.
  - exact Es.
  - exists r, st. split; [reflexivity |]. split; [exact Es |].
    split; [| exact Hc]. rewrite Hids. vm_compute. reflexivity.
Defined.

(* ================================================================== *)
(** * Further properties: the first steps of a build and its stats *)

(** X23: a build faults before it scans when [workspaceFolders] is an
    empty array (reading [uri] of [workspaceFolders[0]]) and when the
    root holds a [.gitignore] that cannot be read (the read is outside
    any [try]); this holds for both builders. *)
Theorem build_faults_before_the_scan (env : Env) :
  (workspaceFolders env = Some [] ->
   Flat.buildRepoGraph env = Throw TypeError
   /\ Encapsulated.buildRepoGraph env = Throw TypeError)
  /\ (forall root listing,
         first_folder env = Some (root, listing) ->
         existsSync env (Path.join root ".gitignore") = true ->
         readFileSync env (Path.join root ".gitignore") = None ->
         Flat.buildRepoGraph env = Throw FsError
         /\ Encapsulated.buildRepoGraph env = Throw FsError).
Proof.
  split.
  - intros Hws. unfold Flat.buildRepoGraph, Encapsulated.buildRepoGraph.
    rewrite Hws. split; reflexivity.
  - intros root listing Hws Hex Hread.
    rewrite (flat_build_unfold env Hws), (enc_build_unfold env Hws).
    unfold gitignore_loads. rewrite Hex, Hread. split; reflexivity.
Qed.

Lemma build_faults_before_the_scan_witness :
  Flat.buildRepoGraph Examples.no_folder = Throw TypeError
  /\ Encapsulated.buildRepoGraph Examples.unreadable_gitignore
     = Throw FsError.
Proof.
  split.
  - apply (proj1 (build_faults_before_the_scan Examples.no_folder)).
    reflexivity.
  - apply (proj2 (build_faults_before_the_scan
                    Examples.unreadable_gitignore)
                 "/repo" (Some [FileEnt ".gitignore"; FileEnt "a.ts"]));
      reflexivity.
Defined.

(** X24: the stats are computed over the scanned-file list: whenever a
    build returns, [totalFiles] is the number of paths the walk collected
    and [avgComplexity] is the sum over those paths of the complexity
    looked up by node id, divided by that number; every scanned path is
    then the id of a node of the payload. *)
Theorem stats_over_scanned_files (env : Env) (root : string)
        (listing : option (list Dirent)) (r : RepoGraph) :
  first_folder env = Some (root, listing) ->
  Flat.buildRepoGraph env = Ok r \/ Encapsulated.buildRepoGraph env = Ok r ->
  let files := walk env root root listing [] in
  (exists st,
      stats r = Some st
      /\ totalFiles st = List.length files
      /\ avgComplexity st
         = average (list_sum (map (complexity_in (nodes r)) files))
                   (List.length files))
  /\ (forall f, In f files -> In f (map id (nodes r))).
Proof.
  intros Hws Hrun files.
  destruct Hrun as [Hrun | Hrun].
  - destruct (flat_build_inv env Hws Hrun) as (g & st & _ & Hs & ->).
    apply flat_build_stats_inv in Hs as (Ht & Ha & Hall & _). simpl.
    split; [exists st; auto |].
    intros f Hf. rewrite Forall_forall in Hall.
    apply In_nodes_payload. now apply Hall.
  - destruct (enc_build_inv env Hws Hrun) as (g & st & _ & Hs & ->).
    apply enc_build_stats_inv in Hs as (Ht & Ha & Hall & _). simpl.
    split; [exists st; auto |].
    intros f Hf. rewrite Forall_forall in Hall.
    apply In_nodes_payload. now apply Hall.
Qed.

Lemma stats_over_scanned_files_witness :
  exists r st,
    Encapsulated.buildRepoGraph Examples.versioned = Ok r
    /\ stats r = Some st /\ totalFiles st = 4
    /\ forall f, In f ["/repo/a.ts"; "/repo/b.ts"; "/repo/c.ts";
                       "/repo/docs/d.ts"] ->
                 In f (map id (nodes r)).
Proof.
  destruct (Encapsulated.buildRepoGraph Examples.versioned) as [r | e] eqn:E;
    [| vm_compute in E; discriminate].
  destruct (@stats_over_scanned_files Examples.versioned "/repo"
              (Some [FileEnt "a.ts"; FileEnt "b.ts"; FileEnt "c.ts";
                     DirEnt "docs" (Some [FileEnt "d.ts"])]) r)
    as ((st & Hst & Htotal & _) & Hnodes).
  - reflexivity.
  - right. exact E.
  - exists r, st. repeat split; try assumption.
Defined.

(* ================================================================== *)
(** * Rebuilding on the same inputs *)

Section Rebuild.

Import Graphology.





End Rebuild.



